(** * OpenPGP transferable keys (src/key.js): structure, validation, merge

    A shallow embedding of the key object model of [src/key.js] together
    with the curve registry of [src/crypto/public_key/elliptic/curves.js],
    the parameter tables of [src/crypto/crypto.js] and the defaults of
    [src/config/config.js].

    - Packets are records; a packet's class fixes its tag, as in the
      packet constructors.
    - The two flags that the validation code caches on signature objects
      ([verified] and [revoked]) live in a store indexed by object
      identity, so that every reference to a signature sees the same flags.
    - Asynchronous functions are run to completion in program order: the
      callbacks handed to [Promise.all(xs.map(...))] are executed one after
      the other in the order of [xs] (in [Key.prototype.update] every
      callback still sees the users and subkeys the destination had at the
      call, as each callback reads them before its first [await]). The
      callbacks of mergeSignatures are the exception: each one is suspended
      at [await checkFn(sourceSig)], so the check functions all run, in the
      order of the source, before the first callback pushes.
    - Exceptions are the [Throw] results of an error monad over the store. *)

From Stdlib Require Import ZArith List Bool String Lia.
From Stdlib.Strings Require Import Byte.
From Stdlib Require Import DecimalString.
From Stdlib Require DecimalZ.
Import ListNotations.
Local Open Scope Z_scope.

(** ** Enumerations ([enums], by name) *)

Module enums.

Module packet.
Inductive t :=
| publicKey | secretKey | publicSubkey | secretSubkey
| userid | userAttribute | signature | other.
End packet.

Module publicKey.
Inductive t :=
| rsa_encrypt_sign | rsa_encrypt | rsa_sign | elgamal | dsa
| ecdh | ecdsa | eddsa | aedh | aedsa.

(** [!==] between two algorithm names, negated. *)
Definition eqb (a b : t) : bool :=
  match a, b with
  | rsa_encrypt_sign, rsa_encrypt_sign | rsa_encrypt, rsa_encrypt
  | rsa_sign, rsa_sign | elgamal, elgamal | dsa, dsa | ecdh, ecdh
  | ecdsa, ecdsa | eddsa, eddsa | aedh, aedh | aedsa, aedsa => true
  | _, _ => false
  end.
End publicKey.

Module signature.
Inductive t :=
| binary | text | standalone
| cert_generic | cert_persona | cert_casual | cert_positive
| cert_revocation | subkey_binding | key_binding | key
| key_revocation | subkey_revocation | timestamp | third_party.
End signature.

Module keyStatus.
Inductive t := invalid | expired | revoked | valid | no_self_cert.
End keyStatus.

Module hash.
Inductive t := md5 | sha1 | ripemd | sha256 | sha384 | sha512 | sha224.
End hash.

Module symmetric.
Inductive t :=
| plaintext | idea | tripledes | cast5 | blowfish
| aes128 | aes192 | aes256 | twofish.

(** The names in the order in which [for (const i in type)] visits them. *)
Definition all : list t :=
  [plaintext; idea; tripledes; cast5; blowfish; aes128; aes192; aes256; twofish].
End symmetric.

Module curve.
Inductive t :=
| p256 | p384 | p521 | secp256k1 | ed25519 | curve25519
| brainpoolP256r1 | brainpoolP384r1 | brainpoolP512r1.
End curve.

End enums.

(** ** JavaScript values that the code compares or coerces *)

(** [null] coerced to a number is 0 ([x < null], [null - x]). *)
Definition toNumber (x : option Z) : Z :=
  match x with Some n => n | None => 0 end.

(** Truthiness of a nullable number. *)
Definition truthyZ (x : option Z) : bool :=
  match x with Some n => negb (n =? 0) | None => false end.

(** Numbers and strings under [===] and [!==]: values of different types
    are never strictly equal. *)
Inductive JSValue :=
| JSNumber (n : Z)
| JSString (s : string).

Definition strict_equal (a b : JSValue) : bool :=
  match a, b with
  | JSNumber x, JSNumber y => x =? y
  | JSString x, JSString y => String.eqb x y
  | _, _ => false
  end.

(** The property name under which an object stores the value at the number
    [n], and which [for (... in ...)] yields: its decimal string. *)
Definition propertyName (n : Z) : JSValue :=
  JSString (NilZero.string_of_int (Z.to_int n)).

(** [parseInt(e, 10)] on a number or on a decimal string. *)
Definition parseInt (e : JSValue) : option Z :=
  match e with
  | JSNumber n => Some n
  | JSString s => option_map Z.of_int (NilZero.int_of_string s)
  end.

(** Truthiness of a nullable boolean. *)
Definition truthy (x : option bool) : bool :=
  match x with Some b => b | None => false end.

(** ** Packets *)

Module Keyid.
Definition t := string.

(** Modelled from the spec: [Keyid.prototype.equals] is not among the
    sources; key-ID "equality", here without the wildcard mode. *)
Definition equals (a b : t) : bool := String.eqb a b.

(** Modelled from the spec: [Keyid.prototype.isWildcard] is not among the
    sources; the wildcard is "the all-zero short ID". *)
Fixpoint isWildcard (k : t) : bool :=
  match k with
  | EmptyString => true
  | String c k' => Ascii.eqb c Ascii.zero && isWildcard k'
  end.

(** Modelled from the spec: [equals(keyid, matchWildcard)], equality "with
    an optional wildcard mode". *)
Definition equalsWildcard (a b : t) (matchWildcard : bool) : bool :=
  (matchWildcard && (isWildcard b || isWildcard a)) || equals a b.
End Keyid.

Module KeyPacket.

(** The four key packet classes; the class fixes [tag]. *)
Inductive class := PublicKey | SecretKey | PublicSubkey | SecretSubkey.

Record t := mk {
  proto : class;
  version : Z;
  algorithm : enums.publicKey.t;
  created : Z;                       (* milliseconds *)
  expirationTimeV3 : Z;              (* days, version 3 only *)
  keyid : Keyid.t;
  fingerprint : string;
  params0 : option enums.curve.t     (* params[0] of an ECC key: the curve its OID names *)
}.

Definition tag (k : t) : enums.packet.t :=
  match proto k with
  | PublicKey => enums.packet.publicKey
  | SecretKey => enums.packet.secretKey
  | PublicSubkey => enums.packet.publicSubkey
  | SecretSubkey => enums.packet.secretSubkey
  end.

Definition getKeyId (k : t) : Keyid.t := keyid k.
Definition getFingerprint (k : t) : string := fingerprint k.

(** Modelled from the spec: [writePublicKey] and [read] of the key packet
    classes are not among the sources. [writePublicKey()] "returns bytes
    stripped of secret material"; read into a new packet of class [c], they
    give the public fields again. *)
Definition readPublicKey (c : class) (k : t) : t :=
  {| proto := c; version := version k; algorithm := algorithm k; created := created k;
     expirationTimeV3 := expirationTimeV3 k; keyid := keyid k; fingerprint := fingerprint k;
     params0 := params0 k |}.
End KeyPacket.

Module Userid.
Record t := mk { userid : string }.
End Userid.

Module UserAttribute.
Record t := mk { attributes : list string }.

(** Modelled from the spec: [UserAttribute.prototype.equals] is not among
    the sources; "UserAttribute equality", false against [null]. *)
Fixpoint same (x y : list string) : bool :=
  match x, y with
  | [], [] => true
  | a :: x', b :: y' => String.eqb a b && same x' y'
  | _, _ => false
  end.

Definition equals (a : t) (b : option t) : bool :=
  match b with
  | Some b => same (attributes a) (attributes b)
  | None => false
  end.
End UserAttribute.

(** A Userid packet or a UserAttribute packet: what [new User(...)] takes
    and what [this.userId || this.userAttribute] evaluates to. *)
Inductive UserPacket :=
| IsUserid (p : Userid.t)
| IsUserAttribute (p : UserAttribute.t).

Module Signature.
Record t := mk {
  id : nat;                                   (* object identity *)
  signatureType : enums.signature.t;
  issuerKeyId : Keyid.t;
  created : Z;                                (* milliseconds *)
  keyExpirationTime : option Z;               (* seconds; null when absent *)
  keyNeverExpires : option bool;
  isPrimaryUserID : option Z;                 (* the weight; null when unset *)
  keyFlags : option (list Z);
  preferredHashAlgorithms : option (list Z);
  preferredSymmetricAlgorithms : option (list Z);
  signature : list byte                       (* raw signature bytes *)
}.
End Signature.

Inductive Packet :=
| KeyPkt (k : KeyPacket.t)
| UseridPkt (u : Userid.t)
| UserAttributePkt (a : UserAttribute.t)
| SigPkt (s : Signature.t)
| OtherPkt (n : Z).

Definition tag (p : Packet) : enums.packet.t :=
  match p with
  | KeyPkt k => KeyPacket.tag k
  | UseridPkt _ => enums.packet.userid
  | UserAttributePkt _ => enums.packet.userAttribute
  | SigPkt _ => enums.packet.signature
  | OtherPkt _ => enums.packet.other
  end.

(** The object handed to [verify] as [dataToVerify]; a property that the
    object does not have is [None]. *)
Module Data.
Record t := mk {
  key : option KeyPacket.t;
  userid : option UserPacket;
  bind : option KeyPacket.t
}.
End Data.

(** ** The flags cached on signature objects *)

Record Flags := { verified : bool; revoked : option bool }.

Definition Store := nat -> Flags.

Definition fresh : Store := fun _ => {| verified := false; revoked := None |}.

Definition update (st : Store) (i : nat) (f : Flags) : Store :=
  fun j => if Nat.eqb j i then f else st j.

(** ** Exceptions and the monad of the asynchronous code *)

Inductive Error :=
| TypeError                    (* property access on null or undefined *)
| InvalidKey                   (* 'Invalid key: need at least key and user ID packet' *)
| FingerprintMismatch          (* 'Key update method: fingerprints of keys not equal' *)
| SubkeyMismatch               (* 'Cannot update public key with private key if subkey mismatch' *)
| SubKeyFingerprintMismatch    (* 'SubKey update method: fingerprints of subkeys not equal' *)
| InvalidEnum.                 (* 'Invalid enum value.' *)

Inductive Result (A : Type) :=
| Ok (a : A)
| Throw (e : Error).
Arguments Ok {A} a.
Arguments Throw {A} e.

Definition M (A : Type) : Type := Store -> Result (A * Store).

Definition ret {A} (a : A) : M A := fun st => Ok (a, st).

Definition bind {A B} (m : M A) (f : A -> M B) : M B :=
  fun st => match m st with
            | Ok (a, st') => f a st'
            | Throw e => Throw e
            end.

Definition throw {A} (e : Error) : M A := fun _ => Throw e.

Definition lift {A} (r : Result A) : M A :=
  fun st => match r with Ok a => Ok (a, st) | Throw e => Throw e end.

Declare Scope js_scope.
Delimit Scope js_scope with js.
Notation "x <- c1 ;; c2" := (bind c1 (fun x => c2))
  (at level 61, c1 at next level, right associativity) : js_scope.
Notation "c1 ;;; c2" := (bind c1 (fun _ => c2))
  (at level 61, right associativity) : js_scope.
Local Open Scope js_scope.

Definition get_verified (s : Signature.t) : M bool :=
  fun st => Ok (verified (st (Signature.id s)), st).

Definition get_revoked (s : Signature.t) : M (option bool) :=
  fun st => Ok (revoked (st (Signature.id s)), st).

Definition set_verified (s : Signature.t) (b : bool) : M unit :=
  fun st => Ok (tt, update st (Signature.id s)
                      {| verified := b; revoked := revoked (st (Signature.id s)) |}).

Definition set_revoked (s : Signature.t) (r : option bool) : M unit :=
  fun st => Ok (tt, update st (Signature.id s)
                      {| verified := verified (st (Signature.id s)); revoked := r |}).

(** The value a computation returns from a given store. *)
Definition eval {A} (m : M A) (st : Store) : Result A :=
  match m st with Ok (a, _) => Ok a | Throw e => Throw e end.

(** The store a computation leaves (the initial one if it throws). *)
Definition exec {A} (m : M A) (st : Store) : Store :=
  match m st with Ok (_, st') => st' | Throw _ => st end.

(** ** What key.js requires from modules outside the sources *)

Class Externals := {
  (** [Signature.prototype.verify(key, dataToVerify)]: the outcome of the
      cryptographic check (the caching of the outcome is in [verify]). *)
  sig_verify : KeyPacket.t -> Data.t -> Signature.t -> bool;
  (** [Signature.prototype.isExpired(date)]. *)
  sig_isExpired : Signature.t -> option Z -> bool;
  (** The instant [new Date()] reads, in milliseconds. *)
  now : Z;
  (** [crypto.hash.getHashByteLength]; [None] is [undefined]. *)
  getHashByteLength : option Z -> Z;
  (** The numeric tables of [enums]. *)
  enums_keyStatus : enums.keyStatus.t -> Z;
  enums_hash : enums.hash.t -> Z;
  enums_symmetric : enums.symmetric.t -> Z;
  keyFlags_sign_data : Z;
  keyFlags_encrypt_communication : Z;
  keyFlags_encrypt_storage : Z
}.

(** ** config/config.js *)

Module config.
Section Config.
Context {E : Externals}.
Definition prefer_hash_algorithm : Z := enums_hash enums.hash.sha256.
Definition encryption_cipher : Z := enums_symmetric enums.symmetric.aes256.
End Config.
Definition revocations_expire : bool := false.
Definition integrity_protect : bool := true.
End config.

(** ** util *)

Module util.

(** Modelled from the spec: [util.normalizeDate] is not among the sources;
    it "floors to seconds and maps null to null". *)
Definition normalizeDate (time : option Z) : option Z :=
  match time with
  | None => None
  | Some t => Some (t / 1000 * 1000)
  end.

(** Modelled from the spec: [util.equalsUint8Array] is not among the
    sources; it is "byte-sequence equality". *)
Fixpoint equalsUint8Array (a b : list byte) : bool :=
  match a, b with
  | [], [] => true
  | x :: a', y :: b' => Byte.eqb x y && equalsUint8Array a' b'
  | _, _ => false
  end.

End util.

(** ** Helper functions of key.js (the functions after [wrapKeyObject]) *)

Inductive Expiration :=
| At (t : Z)      (* [new Date(t)] *)
| Infinity.

(** [normDate < expirationTime]. *)
Definition before (normDate : Z) (expirationTime : Expiration) : bool :=
  match expirationTime with
  | At t => normDate <? t
  | Infinity => true
  end.

Section Helpers.
Context {E : Externals}.

(** Modelled from the spec: [Signature.prototype.verify] is not among the
    sources; it verifies "lazily, caching the verified flag". *)
Definition Signature_verify (s : Signature.t) (key : KeyPacket.t) (dataToVerify : Data.t) : M bool :=
  let r := sig_verify key dataToVerify s in
  set_verified s r ;;; ret r.

(** The idiom [sig.verified || await sig.verify(key, dataToVerify)]. *)
Definition verified_or_verify (s : Signature.t) (key : KeyPacket.t) (dataToVerify : Data.t) : M bool :=
  v <- get_verified s ;;
  if v then ret true else Signature_verify s key dataToVerify.

(** The body of [revocations.map(async function(revocationSignature) ...)]
    in isDataRevoked: the issuer key-IDs pushed to [revocationKeyIds]. *)
Fixpoint revocationKeyIds (key : KeyPacket.t) (dataToVerify : Data.t) (normDate : option Z)
         (revocations : list Signature.t) : M (list Keyid.t) :=
  match revocations with
  | [] => ret []
  | revocationSignature :: rest =>
      ok <- (if config.revocations_expire && sig_isExpired revocationSignature normDate
             then ret false
             else verified_or_verify revocationSignature key dataToVerify) ;;
      ids <- revocationKeyIds key dataToVerify normDate rest ;;
      ret (if ok then Signature.issuerKeyId revocationSignature :: ids else ids)
  end.

(** [isDataRevoked(primaryKey, dataToVerify, revocations, signature, key, date)]
    (key.js 1308-1328).
    The result is the JavaScript value returned: [signature.revoked]
    (null, false or true) when a signature is given, a boolean otherwise. *)
Definition isDataRevoked (primaryKey : KeyPacket.t) (dataToVerify : Data.t)
           (revocations : list Signature.t) (signature : option Signature.t)
           (key : option KeyPacket.t) (date : option Z) : M (option bool) :=
  let key := match key with Some k => k | None => primaryKey end in
  let normDate := util.normalizeDate date in
  ids <- revocationKeyIds key dataToVerify normDate revocations ;;
  match signature with
  | Some signature =>
      old <- get_revoked signature ;;
      let new :=
        if existsb (fun keyId => Keyid.equals keyId (Signature.issuerKeyId signature)) ids
        then Some true else old in
      set_revoked signature new ;;;
      ret new
  | None => ret (Some (0 <? Z.of_nat (List.length ids)))
  end.

(** [getExpirationTime(keyPacket, signature)] (key.js 1340-1351);
    [signature.keyNeverExpires]
    on a null signature is a TypeError. *)
Definition getExpirationTime (keyPacket : KeyPacket.t) (signature : option Signature.t)
  : Result Expiration :=
  let expirationTime : option Z :=
    if (KeyPacket.version keyPacket =? 3) && negb (KeyPacket.expirationTimeV3 keyPacket =? 0)
    then Some (KeyPacket.created keyPacket + KeyPacket.expirationTimeV3 keyPacket * 24 * 3600 * 1000)
    else None in
  let finish (expirationTime : option Z) : Expiration :=
    match expirationTime with
    | Some t => if t =? 0 then Infinity else At t
    | None => Infinity
    end in
  if KeyPacket.version keyPacket =? 4 then
    match signature with
    | None => Throw TypeError
    | Some signature =>
        match Signature.keyNeverExpires signature with
        | Some false =>
            Ok (finish (Some (Signature.created signature
                              + toNumber (Signature.keyExpirationTime signature) * 1000)))
        | _ => Ok (finish expirationTime)
        end
    end
  else Ok (finish expirationTime).

(** [isDataExpired(keyPacket, signature, date)] (key.js 1330-1338), as the
    truth value of the result. *)
Definition isDataExpired (keyPacket : KeyPacket.t) (signature : option Signature.t)
           (date : option Z) : Result bool :=
  match util.normalizeDate date with
  | Some normDate =>
      match getExpirationTime keyPacket signature with
      | Throw e => Throw e
      | Ok expirationTime =>
          Ok (negb ((KeyPacket.created keyPacket <=? normDate) && before normDate expirationTime)
              || match signature with
                 | Some signature => sig_isExpired signature date
                 | None => false
                 end)
      end
  | None => Ok false
  end.

(** The optional [checkFn] of mergeSignatures. It runs with [dest[attr]]
    as it then is, and may assign to its elements. *)
Definition CheckFn := Signature.t -> list Signature.t -> M (bool * list Signature.t).

(** A [checkFn] that leaves [dest[attr]] alone. *)
Definition check (f : Signature.t -> M bool) : CheckFn :=
  fun sourceSig dest => b <- f sourceSig ;; ret (b, dest).

(** The callbacks of [source.map(async function(sourceSig) ...)] in
    mergeSignatures (key.js 597-603) up to the end of their check. Every
    callback is started, in the order of [source], and is suspended at
    [await checkFn(sourceSig)]; the check functions complete in that order
    before the first callback is resumed. The result pairs each signature
    that is not expired with the outcome of its check ([true] without a
    [checkFn], where the callback does not wait), and gives [dest[attr]] as
    the check functions leave it. *)
Fixpoint mergeSignatures_checks (checkFn : option CheckFn) (source dest : list Signature.t)
  : M (list (Signature.t * bool) * list Signature.t) :=
  match source with
  | [] => ret ([], dest)
  | sourceSig :: rest =>
      if sig_isExpired sourceSig (Some now) then mergeSignatures_checks checkFn rest dest
      else
        r <- match checkFn with
             | None => ret (true, dest)
             | Some f => f sourceSig dest
             end ;;
        let '(ok, dest) := r in
        r' <- mergeSignatures_checks checkFn rest dest ;;
        ret ((sourceSig, ok) :: fst r', snd r')
  end.

(** The callbacks once they are resumed, in the order of [source]: the
    test for a signature of the same raw bytes in [dest[attr]] as it then
    is, and the push. *)
Fixpoint mergeSignatures_pushes (checked : list (Signature.t * bool))
         (dest : list Signature.t) : list Signature.t :=
  match checked with
  | [] => dest
  | (sourceSig, ok) :: rest =>
      if ok && negb (existsb (fun destSig =>
                       util.equalsUint8Array (Signature.signature destSig)
                                             (Signature.signature sourceSig)) dest)
      then mergeSignatures_pushes rest (dest ++ [sourceSig])
      else mergeSignatures_pushes rest dest
  end.

(** [await Promise.all(source.map(async function(sourceSig) ...))]. *)
Definition mergeSignatures_each (checkFn : option CheckFn) (source dest : list Signature.t)
  : M (list Signature.t) :=
  r <- mergeSignatures_checks checkFn source dest ;;
  ret (mergeSignatures_pushes (fst r) (snd r)).

(** [mergeSignatures(source, dest, attr, checkFn)] (key.js 591-607), on
    [source[attr]] and [dest[attr]]; the result is the new [dest[attr]]. *)
Definition mergeSignatures (source dest : list Signature.t) (checkFn : option CheckFn)
  : M (list Signature.t) :=
  match dest with
  | [] => ret source
  | _ => mergeSignatures_each checkFn source dest
  end.

End Helpers.

(** [status === enums.keyStatus.invalid] and the like compare the codes. *)
Definition keyStatus_eq {E : Externals} (a b : enums.keyStatus.t) : bool :=
  enums_keyStatus a =? enums_keyStatus b.

(** The last element of an array ([pop]), [undefined] when it is empty. *)
Fixpoint pop {A} (l : list A) : option A :=
  match l with
  | [] => None
  | [x] => Some x
  | _ :: l' => pop l'
  end.

(** ** User *)

Module User.

Record t := mk {
  userId : option Userid.t;
  userAttribute : option UserAttribute.t;
  selfCertifications : list Signature.t;
  otherCertifications : list Signature.t;
  revocationSignatures : list Signature.t
}.

(** [new User(userPacket)] (key.js 693-702). *)
Definition new (userPacket : UserPacket) : t :=
  {| userId := match userPacket with IsUserid p => Some p | _ => None end;
     userAttribute := match userPacket with IsUserAttribute p => Some p | _ => None end;
     selfCertifications := [];
     otherCertifications := [];
     revocationSignatures := [] |}.

(** [this.userId || this.userAttribute]. *)
Definition userPacket (this : t) : option UserPacket :=
  match userId this with
  | Some p => Some (IsUserid p)
  | None => option_map IsUserAttribute (userAttribute this)
  end.

(** [User.prototype.toPacketlist] (key.js 708-715). *)
Definition toPacketlist (this : t) : list Packet :=
  match userPacket this with
  | Some (IsUserid p) => [UseridPkt p]
  | Some (IsUserAttribute p) => [UserAttributePkt p]
  | None => []
  end
  ++ map SigPkt (revocationSignatures this)
  ++ map SigPkt (selfCertifications this)
  ++ map SigPkt (otherCertifications this).

Section Methods.
Context {E : Externals}.

(** [User.prototype.isRevoked(primaryKey, certificate, key, date)]
    (key.js 768-775). *)
Definition isRevoked (this : t) (primaryKey : KeyPacket.t) (certificate : option Signature.t)
           (key : option KeyPacket.t) (date : option Z) : M (option bool) :=
  isDataRevoked primaryKey
    {| Data.key := Some primaryKey; Data.userid := userPacket this; Data.bind := None |}
    (revocationSignatures this) certificate key date.

(** [User.prototype.update(user, primaryKey)] (key.js 864-876); the result
    is [this] after the update. *)
Definition update (this user : t) (primaryKey : KeyPacket.t) : M t :=
  let dataToVerify :=
    {| Data.key := Some primaryKey; Data.userid := userPacket this; Data.bind := None |} in
  selfs <- mergeSignatures (selfCertifications user) (selfCertifications this)
             (Some (check (fun srcSelfSig =>
                             verified_or_verify srcSelfSig primaryKey dataToVerify))) ;;
  others <- mergeSignatures (otherCertifications user) (otherCertifications this) None ;;
  revs <- mergeSignatures (revocationSignatures user) (revocationSignatures this)
            (Some (check (fun srcRevSig =>
                            r <- isDataRevoked primaryKey dataToVerify [srcRevSig]
                                   None None (Some now) ;;
                            ret (truthy r)))) ;;
  ret {| userId := userId this;
         userAttribute := userAttribute this;
         selfCertifications := selfs;
         otherCertifications := others;
         revocationSignatures := revs |}.


(** The body of [this.selfCertifications.map(async function(selfCertification) ...)]
    in User.prototype.verify. *)
Definition verify_selfCertification (this : t) (primaryKey : KeyPacket.t)
           (dataToVerify : Data.t) (selfCertification : Signature.t) : M enums.keyStatus.t :=
  r <- get_revoked selfCertification ;;
  r <- (if truthy r then ret true
        else r' <- isRevoked this primaryKey (Some selfCertification) None (Some now) ;;
             ret (truthy r')) ;;
  if r then ret enums.keyStatus.revoked else
  v <- verified_or_verify selfCertification primaryKey dataToVerify ;;
  if negb v then ret enums.keyStatus.invalid else
  if sig_isExpired selfCertification (Some now) then ret enums.keyStatus.expired
  else ret enums.keyStatus.valid.

Fixpoint verify_selfCertifications (this : t) (primaryKey : KeyPacket.t)
         (dataToVerify : Data.t) (selfCertifications : list Signature.t)
  : M (list enums.keyStatus.t) :=
  match selfCertifications with
  | [] => ret []
  | c :: rest =>
      s <- verify_selfCertification this primaryKey dataToVerify c ;;
      ss <- verify_selfCertifications this primaryKey dataToVerify rest ;;
      ret (s :: ss)
  end.

(** [User.prototype.verify(primaryKey)] (key.js 834-856). *)
Definition verify (this : t) (primaryKey : KeyPacket.t) : M enums.keyStatus.t :=
  match selfCertifications this with
  | [] => ret enums.keyStatus.no_self_cert
  | _ :: _ =>
      let dataToVerify :=
        {| Data.key := Some primaryKey; Data.userid := userPacket this; Data.bind := None |} in
      statuses <- verify_selfCertifications this primaryKey dataToVerify
                    (selfCertifications this) ;;
      let results := enums.keyStatus.invalid :: statuses in
      if existsb (fun status => keyStatus_eq status enums.keyStatus.valid) results
      then ret enums.keyStatus.valid
      else ret (match pop results with Some s => s | None => enums.keyStatus.invalid end)
  end.

End Methods.
End User.

(** ** SubKey *)

Module SubKey.

Record t := mk {
  subKey : KeyPacket.t;
  bindingSignatures : list Signature.t;
  revocationSignatures : list Signature.t
}.

(** [new SubKey(subKeyPacket)] (key.js 882-889). *)
Definition new (subKeyPacket : KeyPacket.t) : t :=
  {| subKey := subKeyPacket; bindingSignatures := []; revocationSignatures := [] |}.

(** [SubKey.prototype.toPacketlist] (key.js 895-901). *)
Definition toPacketlist (this : t) : list Packet :=
  KeyPkt (subKey this)
  :: map SigPkt (revocationSignatures this)
  ++ map SigPkt (bindingSignatures this).

(** The loop of the [checkFn] that SubKey.prototype.update hands to
    mergeSignatures (key.js 1005-1013): [false] and the array after the assignment when the
    loop returns false, [true] and the array as it was otherwise. *)
Fixpoint sameIssuer (srcBindSig : Signature.t) (bindingSignatures : list Signature.t)
  : bool * list Signature.t :=
  match bindingSignatures with
  | [] => (true, [])
  | b :: rest =>
      if Keyid.equals (Signature.issuerKeyId b) (Signature.issuerKeyId srcBindSig)
         && (Signature.created srcBindSig <? Signature.created b)
      then (false, srcBindSig :: rest)
      else let '(r, rest') := sameIssuer srcBindSig rest in (r, b :: rest')
  end.

Section Methods.
Context {E : Externals}.

(** [SubKey.prototype.isRevoked(primaryKey, signature, key, date)]
    (key.js 915-922). *)
Definition isRevoked (this : t) (primaryKey : KeyPacket.t) (signature : option Signature.t)
           (key : option KeyPacket.t) (date : option Z) : M (option bool) :=
  isDataRevoked primaryKey
    {| Data.key := Some primaryKey; Data.userid := None; Data.bind := Some (subKey this) |}
    (revocationSignatures this) signature key date.

(** The body of [this.bindingSignatures.map(async function(bindingSignature) ...)]
    in SubKey.prototype.verify. *)
Definition verify_binding (this : t) (primaryKey : KeyPacket.t) (dataToVerify : Data.t)
           (date : option Z) (bindingSignature : Signature.t) : M enums.keyStatus.t :=
  v <- verified_or_verify bindingSignature primaryKey dataToVerify ;;
  if negb v then ret enums.keyStatus.invalid else
  r <- get_revoked bindingSignature ;;
  r <- (if truthy r then ret true
        else r' <- isRevoked this primaryKey (Some bindingSignature) None date ;;
             ret (truthy r')) ;;
  if r then ret enums.keyStatus.revoked else
  if sig_isExpired bindingSignature date then ret enums.keyStatus.expired
  else ret enums.keyStatus.valid.

Fixpoint verify_bindings (this : t) (primaryKey : KeyPacket.t) (dataToVerify : Data.t)
         (date : option Z) (bindingSignatures : list Signature.t) : M (list enums.keyStatus.t) :=
  match bindingSignatures with
  | [] => ret []
  | b :: rest =>
      s <- verify_binding this primaryKey dataToVerify date b ;;
      ss <- verify_bindings this primaryKey dataToVerify date rest ;;
      ret (s :: ss)
  end.

(** [SubKey.prototype.verify(primaryKey, date)] (key.js 932-960). *)
Definition verify (this : t) (primaryKey : KeyPacket.t) (date : option Z) : M enums.keyStatus.t :=
  let dataToVerify :=
    {| Data.key := Some primaryKey; Data.userid := None; Data.bind := Some (subKey this) |} in
  expiredV3 <- (if KeyPacket.version (subKey this) =? 3
                then lift (isDataExpired (subKey this) None date)
                else ret false) ;;
  if expiredV3 then ret enums.keyStatus.expired else
  statuses <- verify_bindings this primaryKey dataToVerify date (bindingSignatures this) ;;
  let results := enums.keyStatus.invalid :: statuses in
  if existsb (fun status => keyStatus_eq status enums.keyStatus.valid) results
  then ret enums.keyStatus.valid
  else ret (match pop results with Some s => s | None => enums.keyStatus.invalid end).

(** [SubKey.prototype.update(subKey, primaryKey)] (key.js 986-1019); the
    result is [this] after the update. *)
Definition update (this subKey' : t) (primaryKey : KeyPacket.t) : M t :=
  status <- verify subKey' primaryKey (Some now) ;;
  if keyStatus_eq status enums.keyStatus.invalid then ret this else
  if negb (String.eqb (KeyPacket.getFingerprint (subKey this))
                      (KeyPacket.getFingerprint (subKey subKey')))
  then throw SubKeyFingerprintMismatch else
  let packet :=
    match KeyPacket.proto (subKey this), KeyPacket.proto (subKey subKey') with
    | KeyPacket.PublicSubkey, KeyPacket.SecretSubkey => subKey subKey'
    | _, _ => subKey this
    end in
  let dataToVerify :=
    {| Data.key := Some primaryKey; Data.userid := None; Data.bind := Some packet |} in
  bindings <- mergeSignatures (bindingSignatures subKey') (bindingSignatures this)
                (Some (fun srcBindSig bindingSignatures =>
                         v <- verified_or_verify srcBindSig primaryKey dataToVerify ;;
                         if negb v then ret (false, bindingSignatures)
                         else ret (sameIssuer srcBindSig bindingSignatures))) ;;
  revs <- mergeSignatures (revocationSignatures subKey') (revocationSignatures this)
            (Some (check (fun srcRevSig =>
                            r <- isDataRevoked primaryKey dataToVerify [srcRevSig]
                                   None None (Some now) ;;
                            ret (truthy r)))) ;;
  ret {| subKey := packet; bindingSignatures := bindings; revocationSignatures := revs |}.


(** [current > highest] on expiration times. *)
Definition later (current highest : Expiration) : bool :=
  match current, highest with
  | At x, At y => y <? x
  | Infinity, At _ => true
  | _, Infinity => false
  end.

(** The loop of SubKey.prototype.getExpirationTime from
    [this.bindingSignatures[i]] on. [getExpirationTime] returns a Date or
    Infinity, never null, so the loop is not left by [return null]. *)
Fixpoint getExpirationTime_from (this : t) (highest : option Expiration)
         (bindingSignatures : list Signature.t) : Result (option Expiration) :=
  match bindingSignatures with
  | [] => Ok highest
  | b :: rest =>
      match getExpirationTime (subKey this) (Some b) with
      | Throw e => Throw e
      | Ok current =>
          getExpirationTime_from this
            (match highest with
             | None => Some current
             | Some h => if later current h then Some current else Some h
             end) rest
      end
  end.

(** [SubKey.prototype.getExpirationTime()] (key.js 966-978); [None] is
    [undefined]. *)
Definition getExpirationTime (this : t) : Result (option Expiration) :=
  getExpirationTime_from this None (bindingSignatures this).

End Methods.
End SubKey.

(** ** Eligibility of a key packet for an operation *)

Section Eligibility.
Context {E : Externals}.

(** [!signature.keyFlags || (signature.keyFlags[0] & flag) !== 0 || ...],
    for the flags of [mask]; [keyFlags[0]] of an empty array is undefined,
    and [undefined & flag] is 0. *)
Definition keyFlags_allow (signature : Signature.t) (flags : list Z) : bool :=
  match Signature.keyFlags signature with
  | None => true
  | Some keyFlags =>
      existsb (fun flag => negb (Z.land (hd 0 keyFlags) flag =? 0)) flags
  end.

(** [signature.verified && !signature.revoked && !signature.isExpired(date)
     && !isDataExpired(keyPacket, signature, date)]. *)
Definition signature_in_force (keyPacket : KeyPacket.t) (signature : Signature.t)
           (date : option Z) : M bool :=
  v <- get_verified signature ;;
  if negb v then ret false else
  r <- get_revoked signature ;;
  if truthy r then ret false else
  if sig_isExpired signature date then ret false else
  x <- lift (isDataExpired keyPacket (Some signature) date) ;;
  ret (negb x).

(** [isValidSigningKeyPacket(keyPacket, signature, date)] (key.js 252-260). *)
Definition isValidSigningKeyPacket (keyPacket : KeyPacket.t) (signature : Signature.t)
           (date : option Z) : M bool :=
  if negb (enums.publicKey.eqb (KeyPacket.algorithm keyPacket) enums.publicKey.rsa_encrypt)
     && negb (enums.publicKey.eqb (KeyPacket.algorithm keyPacket) enums.publicKey.elgamal)
     && negb (enums.publicKey.eqb (KeyPacket.algorithm keyPacket) enums.publicKey.ecdh)
     && keyFlags_allow signature [keyFlags_sign_data]
  then signature_in_force keyPacket signature date
  else ret false.

(** [isValidEncryptionKeyPacket(keyPacket, signature, date)]
    (key.js 291-302). *)
Definition isValidEncryptionKeyPacket (keyPacket : KeyPacket.t) (signature : Signature.t)
           (date : option Z) : M bool :=
  if negb (enums.publicKey.eqb (KeyPacket.algorithm keyPacket) enums.publicKey.dsa)
     && negb (enums.publicKey.eqb (KeyPacket.algorithm keyPacket) enums.publicKey.rsa_sign)
     && negb (enums.publicKey.eqb (KeyPacket.algorithm keyPacket) enums.publicKey.ecdsa)
     && negb (enums.publicKey.eqb (KeyPacket.algorithm keyPacket) enums.publicKey.eddsa)
     && keyFlags_allow signature [keyFlags_encrypt_communication; keyFlags_encrypt_storage]
  then signature_in_force keyPacket signature date
  else ret false.

End Eligibility.

(** ** Key *)

Module Key.

Record t := mk {
  primaryKey : KeyPacket.t;
  revocationSignatures : list Signature.t;
  directSignatures : list Signature.t;
  users : list User.t;
  subKeys : list SubKey.t
}.

(** *** Structure builder *)

(** The object while the constructor runs ([primaryKey] may still be
    null), with the three locals of packetlist2structure. The locals [user]
    and [subKey] are null or refer to the element pushed last to [users]
    and [subKeys]: the model keeps whether they are set and updates the
    last element. *)
Record building := mkBuilding {
  b_primaryKey : option KeyPacket.t;
  b_revocationSignatures : list Signature.t;
  b_directSignatures : list Signature.t;
  b_users : list User.t;
  b_subKeys : list SubKey.t;
  local_user : bool;
  local_primaryKeyId : option Keyid.t;
  local_subKey : bool
}.

(** The fields set by the constructor before it calls packetlist2structure. *)
Definition empty : building :=
  {| b_primaryKey := None; b_revocationSignatures := []; b_directSignatures := [];
     b_users := []; b_subKeys := [];
     local_user := false; local_primaryKeyId := None; local_subKey := false |}.

Fixpoint update_last {A} (f : A -> A) (l : list A) : list A :=
  match l with
  | [] => []
  | [x] => [f x]
  | x :: l' => x :: update_last f l'
  end.

Definition push_selfCertification (s : Signature.t) (u : User.t) : User.t :=
  {| User.userId := User.userId u; User.userAttribute := User.userAttribute u;
     User.selfCertifications := User.selfCertifications u ++ [s];
     User.otherCertifications := User.otherCertifications u;
     User.revocationSignatures := User.revocationSignatures u |}.

Definition push_otherCertification (s : Signature.t) (u : User.t) : User.t :=
  {| User.userId := User.userId u; User.userAttribute := User.userAttribute u;
     User.selfCertifications := User.selfCertifications u;
     User.otherCertifications := User.otherCertifications u ++ [s];
     User.revocationSignatures := User.revocationSignatures u |}.

Definition push_userRevocation (s : Signature.t) (u : User.t) : User.t :=
  {| User.userId := User.userId u; User.userAttribute := User.userAttribute u;
     User.selfCertifications := User.selfCertifications u;
     User.otherCertifications := User.otherCertifications u;
     User.revocationSignatures := User.revocationSignatures u ++ [s] |}.

Definition push_bindingSignature (s : Signature.t) (k : SubKey.t) : SubKey.t :=
  {| SubKey.subKey := SubKey.subKey k;
     SubKey.bindingSignatures := SubKey.bindingSignatures k ++ [s];
     SubKey.revocationSignatures := SubKey.revocationSignatures k |}.

Definition push_subkeyRevocation (s : Signature.t) (k : SubKey.t) : SubKey.t :=
  {| SubKey.subKey := SubKey.subKey k;
     SubKey.bindingSignatures := SubKey.bindingSignatures k;
     SubKey.revocationSignatures := SubKey.revocationSignatures k ++ [s] |}.

Definition with_users (b : building) (us : list User.t) (cur : bool) : building :=
  {| b_primaryKey := b_primaryKey b; b_revocationSignatures := b_revocationSignatures b;
     b_directSignatures := b_directSignatures b; b_users := us; b_subKeys := b_subKeys b;
     local_user := cur; local_primaryKeyId := local_primaryKeyId b; local_subKey := local_subKey b |}.

Definition with_subKeys (b : building) (ks : list SubKey.t) : building :=
  {| b_primaryKey := b_primaryKey b; b_revocationSignatures := b_revocationSignatures b;
     b_directSignatures := b_directSignatures b; b_users := b_users b; b_subKeys := ks;
     local_user := local_user b; local_primaryKeyId := local_primaryKeyId b; local_subKey := local_subKey b |}.

Definition push_directSignature (b : building) (s : Signature.t) : building :=
  {| b_primaryKey := b_primaryKey b; b_revocationSignatures := b_revocationSignatures b;
     b_directSignatures := b_directSignatures b ++ [s]; b_users := b_users b;
     b_subKeys := b_subKeys b;
     local_user := local_user b; local_primaryKeyId := local_primaryKeyId b; local_subKey := local_subKey b |}.

Definition push_revocationSignature (b : building) (s : Signature.t) : building :=
  {| b_primaryKey := b_primaryKey b; b_revocationSignatures := b_revocationSignatures b ++ [s];
     b_directSignatures := b_directSignatures b; b_users := b_users b;
     b_subKeys := b_subKeys b;
     local_user := local_user b; local_primaryKeyId := local_primaryKeyId b; local_subKey := local_subKey b |}.

(** One iteration of the loop of packetlist2structure (key.js 66-130), on
    [packetlist[i]].
    [issuerKeyId.equals(primaryKeyId)] reads [primaryKeyId.bytes]: a
    TypeError while [primaryKeyId] is undefined. *)
Definition step (b : building) (p : Packet) : Result building :=
  match p with
  | KeyPkt k =>
      match KeyPacket.tag k with
      | enums.packet.publicKey | enums.packet.secretKey =>
          Ok {| b_primaryKey := Some k; b_revocationSignatures := b_revocationSignatures b;
                b_directSignatures := b_directSignatures b; b_users := b_users b;
                b_subKeys := b_subKeys b;
                local_user := local_user b; local_primaryKeyId := Some (KeyPacket.getKeyId k);
                local_subKey := local_subKey b |}
      | enums.packet.publicSubkey | enums.packet.secretSubkey =>
          Ok {| b_primaryKey := b_primaryKey b;
                b_revocationSignatures := b_revocationSignatures b;
                b_directSignatures := b_directSignatures b; b_users := b_users b;
                b_subKeys := b_subKeys b ++ [SubKey.new k];
                local_user := false; local_primaryKeyId := local_primaryKeyId b; local_subKey := true |}
      | _ => Ok b
      end
  | UseridPkt u => Ok (with_users b (b_users b ++ [User.new (IsUserid u)]) true)
  | UserAttributePkt a => Ok (with_users b (b_users b ++ [User.new (IsUserAttribute a)]) true)
  | SigPkt s =>
      match Signature.signatureType s with
      | enums.signature.cert_generic | enums.signature.cert_persona
      | enums.signature.cert_casual | enums.signature.cert_positive =>
          if negb (local_user b) then Ok b else
          match local_primaryKeyId b with
          | None => Throw TypeError
          | Some primaryKeyId =>
              if Keyid.equals (Signature.issuerKeyId s) primaryKeyId
              then Ok (with_users b (update_last (push_selfCertification s) (b_users b)) true)
              else Ok (with_users b (update_last (push_otherCertification s) (b_users b)) true)
          end
      | enums.signature.cert_revocation =>
          if local_user b
          then Ok (with_users b (update_last (push_userRevocation s) (b_users b)) true)
          else Ok (push_directSignature b s)
      | enums.signature.key => Ok (push_directSignature b s)
      | enums.signature.subkey_binding =>
          if negb (local_subKey b) then Ok b
          else Ok (with_subKeys b (update_last (push_bindingSignature s) (b_subKeys b)))
      | enums.signature.key_revocation => Ok (push_revocationSignature b s)
      | enums.signature.subkey_revocation =>
          if negb (local_subKey b) then Ok b
          else Ok (with_subKeys b (update_last (push_subkeyRevocation s) (b_subKeys b)))
      | _ => Ok b
      end
  | OtherPkt _ => Ok b
  end.

(** [Key.prototype.packetlist2structure] (key.js 62-131), from the state [b]. *)
Fixpoint packetlist2structure (b : building) (packetlist : list Packet) : Result building :=
  match packetlist with
  | [] => Ok b
  | p :: rest =>
      match step b p with
      | Ok b' => packetlist2structure b' rest
      | Throw e => Throw e
      end
  end.

(** [new Key(packetlist)] (key.js 42-56). *)
Definition new (packetlist : list Packet) : Result t :=
  match packetlist2structure empty packetlist with
  | Throw e => Throw e
  | Ok b =>
      match b_primaryKey b, b_users b with
      | Some primaryKey, _ :: _ =>
          Ok {| primaryKey := primaryKey;
                revocationSignatures := b_revocationSignatures b;
                directSignatures := b_directSignatures b;
                users := b_users b;
                subKeys := b_subKeys b |}
      | _, _ => Throw InvalidKey
      end
  end.

(** [Key.prototype.toPacketlist] (key.js 137-145). *)
Definition toPacketlist (this : t) : list Packet :=
  KeyPkt (primaryKey this)
  :: map SigPkt (revocationSignatures this)
  ++ map SigPkt (directSignatures this)
  ++ List.concat (map User.toPacketlist (users this))
  ++ List.concat (map SubKey.toPacketlist (subKeys this)).

(** [Key.prototype.isPublic] and [Key.prototype.isPrivate] (key.js 200-210). *)
Definition isPublic (this : t) : bool :=
  match KeyPacket.tag (primaryKey this) with enums.packet.publicKey => true | _ => false end.

Definition isPrivate (this : t) : bool :=
  match KeyPacket.tag (primaryKey this) with enums.packet.secretKey => true | _ => false end.


(** *** Accessors *)

(** [Key.prototype.getSubkeyPackets(keyId)] (key.js 153-161). *)
Definition getSubkeyPackets (this : t) (keyId : option Keyid.t) : list KeyPacket.t :=
  flat_map (fun subKey =>
              match keyId with
              | None => [SubKey.subKey subKey]
              | Some keyId =>
                  if Keyid.equalsWildcard (KeyPacket.getKeyId (SubKey.subKey subKey)) keyId true
                  then [SubKey.subKey subKey] else []
              end) (subKeys this).

(** [Key.prototype.getKeyPackets(keyId)] (key.js 169-176);
    [packets.concat(...)] appends to [packets], as in toPacketlist. *)
Definition getKeyPackets (this : t) (keyId : option Keyid.t) : list KeyPacket.t :=
  (match keyId with
   | None => [primaryKey this]
   | Some keyId =>
       if Keyid.equalsWildcard (KeyPacket.getKeyId (primaryKey this)) keyId true
       then [primaryKey this] else []
   end) ++ getSubkeyPackets this keyId.

(** [Key.prototype.getKeyIds()] (key.js 182-184). *)
Definition getKeyIds (this : t) : list Keyid.t :=
  map KeyPacket.getKeyId (getKeyPackets this None).

Section UserIds.
(** [util.encode_utf8], which is not among the sources. *)
Variable encode_utf8 : string -> string.

(** [Key.prototype.getUserIds()] (key.js 190-194). *)
Definition getUserIds (this : t) : list string :=
  flat_map (fun user =>
              match User.userId user with
              | Some userId => [encode_utf8 (Userid.userid userId)]
              | None => []
              end) (users this).
End UserIds.

(** The loop of Key.prototype.toPublic over [keyPackets]. *)
Definition toPublic_packet (p : Packet) : Packet :=
  match p with
  | KeyPkt k =>
      match KeyPacket.tag k with
      | enums.packet.secretKey => KeyPkt (KeyPacket.readPublicKey KeyPacket.PublicKey k)
      | enums.packet.secretSubkey => KeyPkt (KeyPacket.readPublicKey KeyPacket.PublicSubkey k)
      | _ => p
      end
  | _ => p
  end.

(** [Key.prototype.toPublic()] (key.js 216-241). *)
Definition toPublic (this : t) : Result t :=
  new (map toPublic_packet (toPacketlist this)).

(** *** Validation *)

(** What getPrimaryUser returns: [{ index, user, selfCertification }]. *)
Record PrimaryUser := mkPrimaryUser {
  index : nat;
  user : User.t;
  selfCertification : Signature.t
}.

(** The locals of getPrimaryUser. *)
Record scan := mkScan {
  lastCreated : option Z;
  lastPrimaryUserID : option Z;
  primaryUsers : list PrimaryUser
}.

(** The comparator handed to [sort]:
    [(B.isPrimaryUserID - A.isPrimaryUserID) || (B.created - A.created)]. *)
Definition compare (a b : PrimaryUser) : Z :=
  let A := selfCertification a in
  let B := selfCertification b in
  let d := toNumber (Signature.isPrimaryUserID B) - toNumber (Signature.isPrimaryUserID A) in
  if d =? 0 then Signature.created B - Signature.created A else d.

(** [Array.prototype.sort(compareFn)]: a stable sort; [a] goes after [b]
    when [compareFn(a, b) > 0]. *)
Fixpoint insert {A} (compareFn : A -> A -> Z) (a : A) (l : list A) : list A :=
  match l with
  | [] => [a]
  | b :: l' => if 0 <? compareFn a b then b :: insert compareFn a l' else a :: l
  end.

Definition sort {A} (compareFn : A -> A -> Z) (l : list A) : list A :=
  fold_right (insert compareFn) [] l.

(** [!keyId || packet.getKeyId().equals(keyId)]. *)
Definition matches (keyId : option Keyid.t) (packet : KeyPacket.t) : bool :=
  match keyId with
  | None => true
  | Some keyId => Keyid.equals (KeyPacket.getKeyId packet) keyId
  end.

Section Methods.
Context {E : Externals}.

(** [Key.prototype.isRevoked(signature, key, date)] (key.js 384-388). *)
Definition isRevoked (this : t) (signature : option Signature.t) (key : option KeyPacket.t)
           (date : option Z) : M (option bool) :=
  isDataRevoked (primaryKey this)
    {| Data.key := Some (primaryKey this); Data.userid := None; Data.bind := None |}
    (revocationSignatures this) signature key date.

(** The body of the inner loop of getPrimaryUser, on
    [user.selfCertifications[j]]. *)
Definition getPrimaryUser_cert (primaryKey : KeyPacket.t) (date : option Z) (i : nat)
           (user : User.t) (userId : Userid.t) (acc : scan) (cert : Signature.t) : M scan :=
  let dataToVerify :=
    {| Data.key := Some primaryKey; Data.userid := Some (IsUserid userId); Data.bind := None |} in
  if (truthyZ (Signature.isPrimaryUserID cert)
      && (toNumber (Signature.isPrimaryUserID cert) <? toNumber (lastPrimaryUserID acc)))
     || (negb (truthyZ (lastPrimaryUserID acc))
         && (Signature.created cert <? toNumber (lastCreated acc)))
  then ret acc else
  v <- verified_or_verify cert primaryKey dataToVerify ;;
  if negb v then ret acc else
  r <- get_revoked cert ;;
  r <- (if truthy r then ret true
        else r' <- User.isRevoked user primaryKey (Some cert) None date ;;
             ret (truthy r')) ;;
  if r then ret acc else
  if sig_isExpired cert date then ret acc else
  ret {| lastCreated := Some (Signature.created cert);
         lastPrimaryUserID := Signature.isPrimaryUserID cert;
         primaryUsers := primaryUsers acc
                         ++ [{| index := i; user := user; selfCertification := cert |}] |}.

Fixpoint getPrimaryUser_certs (primaryKey : KeyPacket.t) (date : option Z) (i : nat)
         (user : User.t) (userId : Userid.t) (acc : scan) (certs : list Signature.t) : M scan :=
  match certs with
  | [] => ret acc
  | cert :: rest =>
      acc' <- getPrimaryUser_cert primaryKey date i user userId acc cert ;;
      getPrimaryUser_certs primaryKey date i user userId acc' rest
  end.

(** The outer loop of getPrimaryUser from [this.users[i]] on; [None] when
    the loop is left by [return;]. *)
Fixpoint getPrimaryUser_users (primaryKey : KeyPacket.t) (date : option Z) (i : nat)
         (acc : scan) (users : list User.t) : M (option scan) :=
  match users with
  | [] => ret (Some acc)
  | user :: rest =>
      match User.userId user with
      | None => ret None
      | Some userId =>
          acc' <- getPrimaryUser_certs primaryKey date i user userId acc
                    (User.selfCertifications user) ;;
          getPrimaryUser_users primaryKey date (S i) acc' rest
      end
  end.

(** [Key.prototype.getPrimaryUser(date)] (key.js 471-514). *)
Definition getPrimaryUser (this : t) (date : option Z) : M (option PrimaryUser) :=
  r <- getPrimaryUser_users (primaryKey this) date 0%nat
         {| lastCreated := None; lastPrimaryUserID := None; primaryUsers := [] |}
         (users this) ;;
  match r with
  | None => ret None
  | Some acc => ret (pop (sort compare (primaryUsers acc)))
  end.

(** [Key.prototype.verifyPrimaryKey(date)] (key.js 422-445). *)
Definition verifyPrimaryKey (this : t) (date : option Z) : M enums.keyStatus.t :=
  r <- isRevoked this None None date ;;
  if truthy r then ret enums.keyStatus.revoked else
  if negb (existsb (fun user =>
                      match User.userId user, User.selfCertifications user with
                      | Some _, _ :: _ => true
                      | _, _ => false
                      end) (users this))
  then ret enums.keyStatus.no_self_cert else
  pu <- getPrimaryUser this date ;;
  match pu with
  | None => ret enums.keyStatus.invalid
  | Some pu =>
      x <- (if KeyPacket.version (primaryKey this) =? 3
            then lift (isDataExpired (primaryKey this) None date)
            else if KeyPacket.version (primaryKey this) =? 4
            then lift (isDataExpired (primaryKey this) (Some (selfCertification pu)) date)
            else ret false) ;;
      if x then ret enums.keyStatus.expired else ret enums.keyStatus.valid
  end.

(** The test on the primary key in getSigningKeyPacket and
    getEncryptionKeyPacket: [primaryUser && (!keyId || ...) &&
    isValid...(primaryKey, primaryUser.selfCertification, date) &&
    await this.verifyPrimaryKey(date)]; a key status is truthy unless its
    code is 0. *)
Definition primaryKey_serves (isValid : KeyPacket.t -> Signature.t -> option Z -> M bool)
           (this : t) (keyId : option Keyid.t) (date : option Z)
           (primaryUser : option PrimaryUser) : M bool :=
  match primaryUser with
  | None => ret false
  | Some pu =>
      if negb (matches keyId (primaryKey this)) then ret false else
      v <- isValid (primaryKey this) (selfCertification pu) date ;;
      if negb v then ret false else
      status <- verifyPrimaryKey this date ;;
      ret (negb (enums_keyStatus status =? 0))
  end.

(** The inner loop over [this.subKeys[i].bindingSignatures]. *)
Fixpoint some_binding (isValid : KeyPacket.t -> Signature.t -> option Z -> M bool)
         (subKey : KeyPacket.t) (date : option Z) (bindingSignatures : list Signature.t)
  : M bool :=
  match bindingSignatures with
  | [] => ret false
  | b :: rest =>
      v <- isValid subKey b date ;;
      if v then ret true else some_binding isValid subKey date rest
  end.

(** The loop over [this.subKeys]: the first subkey matching [keyId] one of
    whose binding signatures passes [isValid], after [verify] has run on it. *)
Fixpoint first_subKey (isValid : KeyPacket.t -> Signature.t -> option Z -> M bool)
         (primaryKey : KeyPacket.t) (keyId : option Keyid.t) (date : option Z)
         (subKeys : list SubKey.t) : M (option KeyPacket.t) :=
  match subKeys with
  | [] => ret None
  | sk :: rest =>
      if matches keyId (SubKey.subKey sk) then
        _ <- SubKey.verify sk primaryKey date ;;
        found <- some_binding isValid (SubKey.subKey sk) date (SubKey.bindingSignatures sk) ;;
        if found then ret (Some (SubKey.subKey sk))
        else first_subKey isValid primaryKey keyId date rest
      else first_subKey isValid primaryKey keyId date rest
  end.

(** [Key.prototype.getSigningKeyPacket(keyId, date)] (key.js 269-289). *)
Definition getSigningKeyPacket (this : t) (keyId : option Keyid.t) (date : option Z)
  : M (option KeyPacket.t) :=
  primaryUser <- getPrimaryUser this date ;;
  ok <- primaryKey_serves isValidSigningKeyPacket this keyId date primaryUser ;;
  if ok then ret (Some (primaryKey this))
  else first_subKey isValidSigningKeyPacket (primaryKey this) keyId date (subKeys this).

(** [Key.prototype.getEncryptionKeyPacket(keyId, date)] (key.js 313-336). *)
Definition getEncryptionKeyPacket (this : t) (keyId : option Keyid.t) (date : option Z)
  : M (option KeyPacket.t) :=
  sub <- first_subKey isValidEncryptionKeyPacket (primaryKey this) keyId date (subKeys this) ;;
  match sub with
  | Some packet => ret (Some packet)
  | None =>
      primaryUser <- getPrimaryUser this date ;;
      ok <- primaryKey_serves isValidEncryptionKeyPacket this keyId date primaryUser ;;
      if ok then ret (Some (primaryKey this)) else ret None
  end.

(** *** Merge *)

(** The test of [Key.prototype.update] for "same user":
    [(srcUser.userId && (srcUser.userId.userid === dstUser.userId.userid)) ||
     (srcUser.userAttribute && srcUser.userAttribute.equals(dstUser.userAttribute))];
    [dstUser.userId.userid] on a null [userId] is a TypeError. *)
Definition same_user (srcUser dstUser : User.t) : Result bool :=
  let byAttribute :=
    match User.userAttribute srcUser with
    | Some a => UserAttribute.equals a (User.userAttribute dstUser)
    | None => false
    end in
  match User.userId srcUser with
  | Some s =>
      match User.userId dstUser with
      | None => Throw TypeError
      | Some d => if String.eqb (Userid.userid s) (Userid.userid d) then Ok true
                  else Ok byAttribute
      end
  | None => Ok byAttribute
  end.

(** [that.users.map(async function(dstUser) ...)] for one [srcUser]:
    whether a user matched, and the users after the updates. *)
Fixpoint update_users_of (primaryKey : KeyPacket.t) (srcUser : User.t)
         (dstUsers : list User.t) : M (bool * list User.t) :=
  match dstUsers with
  | [] => ret (false, [])
  | dstUser :: rest =>
      same <- lift (same_user srcUser dstUser) ;;
      dstUser' <- (if same then User.update dstUser srcUser primaryKey else ret dstUser) ;;
      r <- update_users_of primaryKey srcUser rest ;;
      ret (same || fst r, dstUser' :: snd r)
  end.

(** [key.users.map(async function(srcUser) ...)]: every source user is
    matched against the users the destination had when [update] was called;
    the unmatched ones are pushed after them. *)
Fixpoint update_users (primaryKey : KeyPacket.t) (srcUsers dstUsers pushed : list User.t)
  : M (list User.t) :=
  match srcUsers with
  | [] => ret (dstUsers ++ pushed)
  | srcUser :: rest =>
      r <- update_users_of primaryKey srcUser dstUsers ;;
      update_users primaryKey rest (snd r) (if fst r then pushed else pushed ++ [srcUser])
  end.

Fixpoint update_subKeys_of (primaryKey : KeyPacket.t) (srcSubKey : SubKey.t)
         (dstSubKeys : list SubKey.t) : M (bool * list SubKey.t) :=
  match dstSubKeys with
  | [] => ret (false, [])
  | dstSubKey :: rest =>
      let same := String.eqb (KeyPacket.getFingerprint (SubKey.subKey srcSubKey))
                             (KeyPacket.getFingerprint (SubKey.subKey dstSubKey)) in
      dstSubKey' <- (if same then SubKey.update dstSubKey srcSubKey primaryKey
                     else ret dstSubKey) ;;
      r <- update_subKeys_of primaryKey srcSubKey rest ;;
      ret (same || fst r, dstSubKey' :: snd r)
  end.

Fixpoint update_subKeys (primaryKey : KeyPacket.t) (srcSubKeys dstSubKeys pushed : list SubKey.t)
  : M (list SubKey.t) :=
  match srcSubKeys with
  | [] => ret (dstSubKeys ++ pushed)
  | srcSubKey :: rest =>
      r <- update_subKeys_of primaryKey srcSubKey dstSubKeys ;;
      update_subKeys primaryKey rest (snd r) (if fst r then pushed else pushed ++ [srcSubKey])
  end.

(** The [checkFn] for the key's revocation signatures:
    [isDataRevoked(that.primaryKey, that, [srcRevSig], null, key.primaryKey)].
    The Key object [that] stands as [dataToVerify]; it has no property
    [key], [userid] or [bind]. *)
Definition update_checkRevocation (thatPrimaryKey keyPrimaryKey : KeyPacket.t) : CheckFn :=
  check (fun srcRevSig =>
           r <- isDataRevoked thatPrimaryKey
                  {| Data.key := None; Data.userid := None; Data.bind := None |}
                  [srcRevSig] None (Some keyPrimaryKey) (Some now) ;;
           ret (truthy r)).

(** The primary key of [this] after the step "public destination, private
    source" of [update]. *)
Definition update_primaryKey (this key : t) : Result KeyPacket.t :=
  if isPublic this && isPrivate key then
    let equal :=
      (List.length (subKeys this) =? List.length (subKeys key))%nat
      && forallb (fun destSubKey =>
                    existsb (fun srcSubKey =>
                               String.eqb (KeyPacket.getFingerprint (SubKey.subKey destSubKey))
                                          (KeyPacket.getFingerprint (SubKey.subKey srcSubKey)))
                            (subKeys key))
                 (subKeys this) in
    if negb equal then Throw SubkeyMismatch else Ok (primaryKey key)
  else Ok (primaryKey this).

(** [Key.prototype.update(key)] (key.js 525-581); the result is [this]
    after the update. *)
Definition update (this key : t) : M t :=
  status <- verifyPrimaryKey key (Some now) ;;
  if keyStatus_eq status enums.keyStatus.invalid then ret this else
  if negb (String.eqb (KeyPacket.getFingerprint (primaryKey this))
                      (KeyPacket.getFingerprint (primaryKey key)))
  then throw FingerprintMismatch else
  thatPrimaryKey <- lift (update_primaryKey this key) ;;
  revs <- mergeSignatures (revocationSignatures key) (revocationSignatures this)
            (Some (update_checkRevocation thatPrimaryKey (primaryKey key))) ;;
  directs <- mergeSignatures (directSignatures key) (directSignatures this) None ;;
  us <- update_users thatPrimaryKey (users key) (users this) [] ;;
  ks <- update_subKeys thatPrimaryKey (subKeys key) (subKeys this) [] ;;
  ret {| primaryKey := thatPrimaryKey;
         revocationSignatures := revs;
         directSignatures := directs;
         users := us;
         subKeys := ks |}.

End Methods.
End Key.

(** ** Reading a key list *)

(** Modelled from the spec: [indexOfTag] of the packet list is not among
    the sources; it "returns positions of every occurrence of any of the
    given tags". Here for the tags publicKey and secretKey, counting from
    [i]. *)
Fixpoint indexOfTag (packetlist : list Packet) (i : nat) : list nat :=
  match packetlist with
  | [] => []
  | p :: rest =>
      match tag p with
      | enums.packet.publicKey | enums.packet.secretKey => i :: indexOfTag rest (S i)
      | _ => indexOfTag rest (S i)
      end
  end.

(** [packetlist.slice(begin, end)]; [end] is undefined for [None]. *)
Definition slice (packetlist : list Packet) (begin : nat) (end_ : option nat) : list Packet :=
  match end_ with
  | None => skipn begin packetlist
  | Some e => firstn (e - begin) (skipn begin packetlist)
  end.

(** What [read] collects: the keys, and the errors ([None] while
    [result.err] is undefined). *)
Inductive ReadError :=
| ParseError                  (* thrown by [packetlist.read(data)] *)
| NoKeyPacketFound            (* 'No key packet found' *)
| KeyError (e : Error).       (* thrown by [new Key(oneKeyList)] *)

Record ReadResult := mkReadResult {
  keys : list Key.t;
  err : option (list ReadError)
}.

(** [result.err = result.err || []; result.err.push(e)]. *)
Definition push_err (result : ReadResult) (e : ReadError) : ReadResult :=
  {| keys := keys result;
     err := Some (match err result with Some l => l | None => [] end ++ [e]) |}.

(** The loop of [read] over [keyIndex], from [keyIndex[i]] on. *)
Fixpoint read_keys (packetlist : list Packet) (keyIndex : list nat) (result : ReadResult)
  : ReadResult :=
  match keyIndex with
  | [] => result
  | begin :: rest =>
      let oneKeyList := slice packetlist begin (hd_error rest) in
      read_keys packetlist rest
                (match Key.new oneKeyList with
                 | Ok newKey => {| keys := keys result ++ [newKey]; err := err result |}
                 | Throw e => push_err result (KeyError e)
                 end)
  end.

(** [read(data)] (key.js 1027-1052), on the outcome of
    [packetlist.read(data)]: the packets, or [None] when parsing throws. *)
Definition read (parsed : option (list Packet)) : ReadResult :=
  let result := {| keys := []; err := None |} in
  match parsed with
  | None => push_err result ParseError
  | Some packetlist =>
      match indexOfTag packetlist 0 with
      | [] => push_err result NoKeyPacketFound
      | keyIndex => read_keys packetlist keyIndex result
      end
  end.

(** ** crypto/public_key/elliptic/curves.js *)

Module curves.

Record params := mkParams {
  keyType : option enums.publicKey.t;
  hash : option enums.hash.t;
  cipher : option enums.symmetric.t;
  payloadSize : option Z
}.

(** The table [curves] (curves.js 59-114), without the OID bytes and the
    acceleration hints. *)
Definition curves (name : enums.curve.t) : params :=
  match name with
  | enums.curve.p256 =>
      mkParams (Some enums.publicKey.ecdsa) (Some enums.hash.sha256)
               (Some enums.symmetric.aes128) (Some 32)
  | enums.curve.p384 =>
      mkParams (Some enums.publicKey.ecdsa) (Some enums.hash.sha384)
               (Some enums.symmetric.aes192) (Some 48)
  | enums.curve.p521 =>
      mkParams (Some enums.publicKey.ecdsa) (Some enums.hash.sha512)
               (Some enums.symmetric.aes256) (Some 66)
  | enums.curve.secp256k1 =>
      mkParams (Some enums.publicKey.ecdsa) (Some enums.hash.sha256)
               (Some enums.symmetric.aes128) None
  | enums.curve.ed25519 =>
      mkParams (Some enums.publicKey.eddsa) (Some enums.hash.sha512) None (Some 32)
  | enums.curve.curve25519 =>
      mkParams (Some enums.publicKey.ecdsa) (Some enums.hash.sha256)
               (Some enums.symmetric.aes128) None
  | enums.curve.brainpoolP256r1 | enums.curve.brainpoolP384r1
  | enums.curve.brainpoolP512r1 => mkParams None None None None
  end.

(** [getPreferredHashAlgo(oid)] (curves.js 202-204):
    [curves[enums.write(enums.curve, oid.toHex())].hash];
    [enums.write] throws on an OID that names no curve. *)
Definition getPreferredHashAlgo {E : Externals} (oid : option enums.curve.t)
  : Result (option Z) :=
  match oid with
  | None => Throw InvalidEnum
  | Some name => Ok (option_map enums_hash (hash (curves name)))
  end.


(** The bytes of [curves[name].oid] (curves.js 59-114). *)
Definition oid (name : enums.curve.t) : list byte :=
  match name with
  | enums.curve.p256 => [x2a; x86; x48; xce; x3d; x03; x01; x07]
  | enums.curve.p384 => [x2b; x81; x04; x00; x22]
  | enums.curve.p521 => [x2b; x81; x04; x00; x23]
  | enums.curve.secp256k1 => [x2b; x81; x04; x00; x0a]
  | enums.curve.ed25519 => [x2b; x06; x01; x04; x01; xda; x47; x0f; x01]
  | enums.curve.curve25519 => [x2b; x06; x01; x04; x01; x97; x55; x01; x05; x01]
  | enums.curve.brainpoolP256r1 => [x2b; x24; x03; x03; x02; x08; x01; x01; x07]
  | enums.curve.brainpoolP384r1 => [x2b; x24; x03; x03; x02; x08; x01; x01; x0b]
  | enums.curve.brainpoolP512r1 => [x2b; x24; x03; x03; x02; x08; x01; x01; x0d]
  end.

(** The two classes of the elliptic library that a Curve wraps. *)
Inductive implementation := EdDSA | EC.

(** A [Curve] object (without the acceleration hints [node] and [web]). *)
Record Curve := mkCurve {
  c_keyType : enums.publicKey.t;
  c_curve : implementation;
  c_name : enums.curve.t;
  c_oid : list byte;
  c_hash : option enums.hash.t;
  c_cipher : option enums.symmetric.t;
  c_payloadSize : option Z
}.

Inductive error :=
| UnknownEllipticKeyType     (* 'Unknown elliptic key type;' *)
| NotValidCurve.             (* 'Not valid curve' *)

(** [new Curve(name, params)] (curves.js 117-136). *)
Definition new_Curve (name : enums.curve.t) (params : params) : error + Curve :=
  match keyType params with
  | Some enums.publicKey.eddsa =>
      inr (mkCurve enums.publicKey.eddsa EdDSA name (oid name) (hash params) (cipher params)
                   (payloadSize (curves name)))
  | Some enums.publicKey.ecdsa =>
      inr (mkCurve enums.publicKey.ecdsa EC name (oid name) (hash params) (cipher params)
                   (payloadSize (curves name)))
  | _ => inl UnknownEllipticKeyType
  end.

(** [get(oid_or_name)] (curves.js 174-188), on the curve that
    [enums.curve] gives for the OID, the name or the OID string; [None] when
    it gives none. *)
Definition get (oid_or_name : option enums.curve.t) : error + Curve :=
  match oid_or_name with
  | Some name => new_Curve name (curves name)
  | None => inl NotValidCurve
  end.

(** What [generate] returns. *)
Record keyObject := mkKeyObject {
  k_oid : list byte;
  k_Q : Z;
  k_d : Z;
  k_hash : option enums.hash.t;
  k_cipher : option enums.symmetric.t
}.

Section Generate.
(** [curve.genKeyPair()] with [getPublic()] and [getPrivate()] of the key
    pair: the elliptic library and the native generators. *)
Variable genKeyPair : Curve -> Z * Z.

(** [generate(curve)] (curves.js 190-200). *)
Definition generate (curve : option enums.curve.t) : error + keyObject :=
  match get curve with
  | inl e => inl e
  | inr curve =>
      let keyPair := genKeyPair curve in
      inr (mkKeyObject (c_oid curve) (fst keyPair) (snd keyPair) (c_hash curve)
                       (c_cipher curve))
  end.
End Generate.

End curves.

(** ** crypto/crypto.js *)

Module crypto.
Local Open Scope string_scope.

(** The parameter classes [type_mpi], [type_oid], [type_kdf_params] and
    [type_ecdh_symkey]. *)
Inductive type := type_mpi | type_oid | type_kdf_params | type_ecdh_symkey.

(** A call returns or throws an Error with a message. *)
Inductive outcome (A : Type) :=
| Returns (a : A)
| Throws (message : string).
Arguments Returns {A} a.
Arguments Throws {A} message.

(** [case 'x': case 'y': ...] on the string [algo]. *)
Definition among (algo : string) (cases : list string) : bool :=
  existsb (String.eqb algo) cases.

(** [getPrivKeyParamTypes(algo)] (crypto.js 151-179). *)
Definition getPrivKeyParamTypes (algo : string) : outcome (list type) :=
  if among algo ["rsa_encrypt"; "rsa_encrypt_sign"; "rsa_sign"]
  then Returns [type_mpi; type_mpi; type_mpi; type_mpi]
  else if among algo ["elgamal"] then Returns [type_mpi]
  else if among algo ["dsa"] then Returns [type_mpi]
  else if among algo ["ecdh"; "ecdsa"; "eddsa"] then Returns [type_mpi]
  else Throws "Unknown algorithm".

(** [getPubKeyParamTypes(algo)] (crypto.js 185-222). *)
Definition getPubKeyParamTypes (algo : string) : outcome (list type) :=
  if among algo ["rsa_encrypt"; "rsa_encrypt_sign"; "rsa_sign"]
  then Returns [type_mpi; type_mpi]
  else if among algo ["elgamal"] then Returns [type_mpi; type_mpi; type_mpi]
  else if among algo ["dsa"] then Returns [type_mpi; type_mpi; type_mpi; type_mpi]
  else if among algo ["ecdsa"; "eddsa"] then Returns [type_oid; type_mpi]
  else if among algo ["ecdh"] then Returns [type_oid; type_mpi; type_kdf_params]
  else Throws "Unknown algorithm.".

(** The values handed to the parameter classes. *)
Inductive value :=
| BigInteger (n : Z)
| Oid (bytes : list byte)
| HashCipher (hash : option enums.hash.t) (cipher : option enums.symmetric.t).

(** An instance of a parameter class: [new type(data[i])], or [new type()]
    for [None]. *)
Record param := mkParam { p_type : type; p_data : option value }.

(** [constructParams(types, data)] (crypto.js 40-47), from the index [i]
    on; [data[i]] beyond the end of [data] is undefined. *)
Fixpoint constructParams_from (types : list type) (data : list value) (i : nat) : list param :=
  match types with
  | [] => []
  | t :: rest => mkParam t (nth_error data i) :: constructParams_from rest data (S i)
  end.

Definition constructParams (types : list type) (data : list value) : list param :=
  constructParams_from types data 0.

(** The object that [rsa.generate(bits, "10001")] resolves to. *)
Record rsaKeyObject := mkRsaKeyObject {
  k_n : Z; k_ee : Z; k_d : Z; k_p : Z; k_q : Z; k_u : Z
}.

Section GenerateParams.
(** [rsa.generate] of crypto/public_key, and the key pair generator behind
    [publicKey.elliptic.generate], which is [generate] of curves.js. *)
Variable rsa_generate : Z -> rsaKeyObject.
Variable genKeyPair : curves.Curve -> Z * Z.

(** [generateParams(algo, bits, curve)] (crypto.js 257-283); a rejected
    promise counts as a throw. *)
Definition generateParams (algo : string) (bits : Z) (curve : option enums.curve.t)
  : outcome (list param) :=
  match getPubKeyParamTypes algo with
  | Throws m => Throws m
  | Returns pub =>
      match getPrivKeyParamTypes algo with
      | Throws m => Throws m
      | Returns priv =>
          let types := (pub ++ priv)%list in
          if among algo ["rsa_encrypt"; "rsa_encrypt_sign"; "rsa_sign"] then
            let keyObject := rsa_generate bits in
            Returns (constructParams types
                       [BigInteger (k_n keyObject); BigInteger (k_ee keyObject);
                        BigInteger (k_d keyObject); BigInteger (k_p keyObject);
                        BigInteger (k_q keyObject); BigInteger (k_u keyObject)])
          else if among algo ["ecdsa"; "eddsa"] then
            match curves.generate genKeyPair curve with
            | inl curves.UnknownEllipticKeyType => Throws "Unknown elliptic key type;"
            | inl curves.NotValidCurve => Throws "Not valid curve"
            | inr keyObject =>
                Returns (constructParams types
                           [Oid (curves.k_oid keyObject); BigInteger (curves.k_Q keyObject);
                            BigInteger (curves.k_d keyObject)])
            end
          else if among algo ["ecdh"] then
            match curves.generate genKeyPair curve with
            | inl curves.UnknownEllipticKeyType => Throws "Unknown elliptic key type;"
            | inl curves.NotValidCurve => Throws "Not valid curve"
            | inr keyObject =>
                Returns (constructParams types
                           [Oid (curves.k_oid keyObject); BigInteger (curves.k_Q keyObject);
                            HashCipher (curves.k_hash keyObject) (curves.k_cipher keyObject);
                            BigInteger (curves.k_d keyObject)])
            end
          else Throws "Unsupported algorithm for key generation."
      end
  end.
End GenerateParams.

End crypto.

(** ** Key generation: what [generate] asks of the key packets *)

Module keygen.

(** The options of [generate]. [curve] is [None] when falsy, and otherwise
    what [enums.write(enums.curve, options.curve)] makes of it ([None] when
    that throws); a falsy [keyType], [subkeyType], [numBits] or
    [passphrase] is [None]. *)
Record options := mkOptions {
  curve : option (option enums.curve.t);
  keyType : option enums.publicKey.t;
  subkeyType : option enums.publicKey.t;
  numBits : option Z;
  userIds : string + list string;
  passphrase : option string;
  unlocked : bool
}.

Inductive error :=
| NotValidCurve             (* 'Not valid curve.' *)
| KeyTypeNotSpecified       (* 'Key type not specified.' *)
| UnsupportedKeyType        (* 'Unsupported key type' *)
| UnsupportedSubkeyType.    (* 'Unsupported subkey type' *)

(** The arguments of the two calls of [generate(numBits, curve)] on the
    key packets, with the algorithms assigned to the packets and the
    options handed on to wrapKeyObject. *)
Record plan := mkPlan {
  plan_keyType : enums.publicKey.t;
  plan_keyCurve : option enums.curve.t;
  plan_subkeyType : enums.publicKey.t;
  plan_subkeyCurve : option enums.curve.t;
  plan_numBits : option Z;
  plan_userIds : list string;
  plan_unlocked : bool
}.

(** [options.x || d]. *)
Definition or_default {A} (x : option A) (d : A) : A :=
  match x with Some a => a | None => d end.

Definition is_curve25519 (c : option enums.curve.t) : bool :=
  match c with Some enums.curve.curve25519 => true | _ => false end.

Definition is_ed25519 (c : option enums.curve.t) : bool :=
  match c with Some enums.curve.ed25519 => true | _ => false end.

(** [generate(options)] (key.js 1089-1150) up to the calls of
    [secretKeyPacket.generate] and [secretSubkeyPacket.generate]:
    generateSecretKey runs first and assigns [options.curve], then
    generateSecretSubkey reads it. *)
Definition generate (o : options) : error + plan :=
  let resolved : error + (option enums.curve.t * enums.publicKey.t * enums.publicKey.t) :=
    match curve o with
    | Some None => inl NotValidCurve
    | Some (Some c) =>
        let keyType :=
          match c with
          | enums.curve.ed25519 | enums.curve.curve25519 =>
              or_default (keyType o) enums.publicKey.eddsa
          | _ => or_default (keyType o) enums.publicKey.ecdsa
          end in
        inr (Some c, keyType, or_default (subkeyType o) enums.publicKey.ecdh)
    | None =>
        match numBits o with
        | Some _ =>
            inr (None, or_default (keyType o) enums.publicKey.rsa_encrypt_sign,
                 or_default (subkeyType o) enums.publicKey.rsa_encrypt_sign)
        | None => inl KeyTypeNotSpecified
        end
    end in
  match resolved with
  | inl e => inl e
  | inr (curve, keyType, subkeyType) =>
      if negb (enums.publicKey.eqb keyType enums.publicKey.rsa_encrypt_sign)
         && negb (enums.publicKey.eqb keyType enums.publicKey.ecdsa)
         && negb (enums.publicKey.eqb keyType enums.publicKey.eddsa)
      then inl UnsupportedKeyType
      else if negb (enums.publicKey.eqb subkeyType enums.publicKey.rsa_encrypt_sign)
              && negb (enums.publicKey.eqb subkeyType enums.publicKey.ecdh)
      then inl UnsupportedSubkeyType
      else
        let unlocked := match passphrase o with None => true | Some _ => unlocked o end in
        let userIds := match userIds o with inl userId => [userId] | inr l => l end in
        let keyCurve := if is_curve25519 curve then Some enums.curve.ed25519 else curve in
        let subkeyCurve :=
          if is_ed25519 keyCurve then Some enums.curve.curve25519 else keyCurve in
        inr (mkPlan keyType keyCurve subkeyType subkeyCurve (numBits o) userIds unlocked)
  end.

End keygen.

(** ** Preference negotiation *)

(** What the variable [key] of getPreferredHashAlgo refers to. *)
Inductive KeyRef :=
| AKey (k : Key.t)                               (* [key instanceof Key] *)
| AKeyPacket (p : KeyPacket.t)                   (* an instance of one of the four key packet classes *)
| APromise (pending : M (option KeyPacket.t)).   (* the value of a call of an async function *)

(** An entry of [prioMap]. *)
Record entry := mkEntry { prio : Z; count : Z; algo : Z }.

(** [64 >> index]; a shift count is taken modulo 32. *)
Definition score (index : Z) : Z := Z.shiftr 64 (Z.land index 31).

(** [entry = prioMap[algo] || (prioMap[algo] = { prio: 0, count: 0, algo: algo });
     entry.prio += 64 >> index; entry.count++]. The map is kept in the
    order in which [for (... in ...)] visits integer property names:
    ascending. *)
Fixpoint bump (a : Z) (index : Z) (prioMap : list (Z * entry)) : list (Z * entry) :=
  match prioMap with
  | [] => [(a, mkEntry (0 + score index) (0 + 1) a)]
  | (k, e) :: rest =>
      if a =? k then (k, mkEntry (prio e + score index) (count e + 1) (algo e)) :: rest
      else if a <? k then (a, mkEntry (0 + score index) (0 + 1) a) :: prioMap
      else (k, e) :: bump a index rest
  end.

(** [preferredSymmetricAlgorithms.forEach(function(algo, index) ...)]. *)
Fixpoint bump_all (algos : list Z) (index : Z) (prioMap : list (Z * entry)) : list (Z * entry) :=
  match algos with
  | [] => prioMap
  | a :: rest => bump_all rest (index + 1) (bump a index prioMap)
  end.

Section Negotiation.
Context {E : Externals}.

(** [getPreferredHashAlgo(key)] (key.js 1358-1385).
    [key.getSigningKeyPacket(undefined, null)]
    is assigned to [key] without [await]: [key] is then a promise, whose
    prototype is none of the four that the [switch] lists. *)
Definition getPreferredHashAlgo (key : KeyRef) : M (option Z) :=
  let hash_algo := Some config.prefer_hash_algorithm in
  let pref_algo := hash_algo in
  r <- match key with
       | AKey k =>
           primaryUser <- Key.getPrimaryUser k (Some now) ;;
           let '(hash_algo, pref_algo) :=
             match primaryUser with
             | Some pu =>
                 match Signature.preferredHashAlgorithms (Key.selfCertification pu) with
                 | Some l =>
                     let pref_algo := hd_error l in
                     (if getHashByteLength hash_algo <=? getHashByteLength pref_algo
                      then pref_algo else hash_algo, pref_algo)
                 | None => (hash_algo, pref_algo)
                 end
             | None => (hash_algo, pref_algo)
             end in
           ret (hash_algo, pref_algo, APromise (Key.getSigningKeyPacket k None None))
       | _ => ret (hash_algo, pref_algo, key)
       end ;;
  let '(hash_algo, pref_algo, key) := r in
  pref_algo <- match key with
               | AKeyPacket p =>
                   match KeyPacket.algorithm p with
                   | enums.publicKey.ecdh | enums.publicKey.ecdsa | enums.publicKey.eddsa =>
                       lift (curves.getPreferredHashAlgo (KeyPacket.params0 p))
                   | _ => ret pref_algo
                   end
               | _ => ret pref_algo
               end ;;
  ret (if getHashByteLength hash_algo <=? getHashByteLength pref_algo
       then pref_algo else hash_algo).

(** [keys.map(async function(key) ...)] in getPreferredSymAlgo. *)
Fixpoint prioMap_of (keys : list Key.t) (prioMap : list (Z * entry)) : M (list (Z * entry)) :=
  match keys with
  | [] => ret prioMap
  | key :: rest =>
      primaryUser <- Key.getPrimaryUser key (Some now) ;;
      match primaryUser with
      | None => prioMap_of rest prioMap
      | Some pu =>
          match Signature.preferredSymmetricAlgorithms (Key.selfCertification pu) with
          | None => prioMap_of rest prioMap
          | Some algos => prioMap_of rest (bump_all algos 0 prioMap)
          end
      end
  end.

(** [enums.read(enums.symmetric, e)]: the first name whose value is
    [parseInt(e, 10)], an exception when there is none. *)
Definition read_symmetric (e : JSValue) : Result enums.symmetric.t :=
  match parseInt e with
  | None => Throw InvalidEnum
  | Some n =>
      match find (fun name => enums_symmetric name =? n) enums.symmetric.all with
      | Some name => Ok name
      | None => Throw InvalidEnum
      end
  end.

(** The loop [for (const algo in prioMap)] with its [try]/[catch]. *)
Fixpoint best (nkeys : Z) (prioMap : list (Z * entry)) (prefAlgo : entry) : entry :=
  match prioMap with
  | [] => prefAlgo
  | (k, e) :: rest =>
      let algo := propertyName k in
      let chosen :=
        negb (strict_equal algo (JSNumber (enums_symmetric enums.symmetric.plaintext)))
        && negb (strict_equal algo (JSNumber (enums_symmetric enums.symmetric.idea)))
        && match read_symmetric algo with Ok _ => true | Throw _ => false end
        && (count e =? nkeys)
        && (prio prefAlgo <? prio e) in
      best nkeys rest (if chosen then e else prefAlgo)
  end.

(** [getPreferredSymAlgo(keys)] (key.js 1392-1418). *)
Definition getPreferredSymAlgo (keys : list Key.t) : M Z :=
  prioMap <- prioMap_of keys [] ;;
  let prefAlgo := mkEntry 0 0 config.encryption_cipher in
  ret (algo (best (Z.of_nat (List.length keys)) prioMap prefAlgo)).

End Negotiation.

(** ** Well-formed packet sequences (the canonical order of toPacketlist) *)

Definition is_primary (k : KeyPacket.t) : bool :=
  match KeyPacket.proto k with
  | KeyPacket.PublicKey | KeyPacket.SecretKey => true
  | _ => false
  end.

Definition is_subkey (k : KeyPacket.t) : bool :=
  match KeyPacket.proto k with
  | KeyPacket.PublicSubkey | KeyPacket.SecretSubkey => true
  | _ => false
  end.

Definition is_primary_packet (p : Packet) : bool :=
  match p with KeyPkt k => is_primary k | _ => false end.

Definition is_user_packet (p : Packet) : bool :=
  match p with UseridPkt _ | UserAttributePkt _ => true | _ => false end.

(** The four certification types [cert_*]. *)
Definition is_cert (s : Signature.t) : bool :=
  match Signature.signatureType s with
  | enums.signature.cert_generic | enums.signature.cert_persona
  | enums.signature.cert_casual | enums.signature.cert_positive => true
  | _ => false
  end.

Definition has_type (ty : enums.signature.t) (s : Signature.t) : Prop :=
  Signature.signatureType s = ty.

Definition packet_of (u : UserPacket) : Packet :=
  match u with
  | IsUserid p => UseridPkt p
  | IsUserAttribute p => UserAttributePkt p
  end.

(** A user's packets: the UserID or UserAttribute packet, its revocations,
    the certifications issued by the primary key, the other certifications. *)
Inductive user_block (primaryKeyId : Keyid.t) : list Packet -> Prop :=
| user_block_intro (u : UserPacket) (revs selfs others : list Signature.t) :
    Forall (has_type enums.signature.cert_revocation) revs ->
    Forall (fun s => is_cert s = true
                     /\ Keyid.equals (Signature.issuerKeyId s) primaryKeyId = true) selfs ->
    Forall (fun s => is_cert s = true
                     /\ Keyid.equals (Signature.issuerKeyId s) primaryKeyId = false) others ->
    user_block primaryKeyId (packet_of u :: map SigPkt (revs ++ selfs ++ others)).

(** A subkey's packets: the subkey packet, its revocations, its binding
    signatures. *)
Inductive subkey_block : list Packet -> Prop :=
| subkey_block_intro (k : KeyPacket.t) (revs bindings : list Signature.t) :
    is_subkey k = true ->
    Forall (has_type enums.signature.subkey_revocation) revs ->
    Forall (has_type enums.signature.subkey_binding) bindings ->
    subkey_block (KeyPkt k :: map SigPkt (revs ++ bindings)).

(** One primary key packet, the key revocations, the direct signatures, at
    least one user, the subkeys. *)
Definition well_formed (p : list Packet) : Prop :=
  exists (k : KeyPacket.t) (revs directs : list Signature.t)
         (userBlocks subkeyBlocks : list (list Packet)),
    is_primary k = true
    /\ Forall (has_type enums.signature.key_revocation) revs
    /\ Forall (fun s => has_type enums.signature.key s
                        \/ has_type enums.signature.cert_revocation s) directs
    /\ userBlocks <> []
    /\ Forall (user_block (KeyPacket.getKeyId k)) userBlocks
    /\ Forall subkey_block subkeyBlocks
    /\ p = KeyPkt k :: map SigPkt revs ++ map SigPkt directs
                    ++ List.concat userBlocks ++ List.concat subkeyBlocks.

(** ** Well-typed keys (what toPacketlist serializes without loss) *)

(** A user has one of the two packets, and each of its containers holds
    the signatures that the builder puts there. *)
Definition user_ok (primaryKeyId : Keyid.t) (u : User.t) : Prop :=
  (User.userId u = None <-> User.userAttribute u <> None)
  /\ Forall (has_type enums.signature.cert_revocation) (User.revocationSignatures u)
  /\ Forall (fun s => is_cert s = true
                      /\ Keyid.equals (Signature.issuerKeyId s) primaryKeyId = true)
            (User.selfCertifications u)
  /\ Forall (fun s => is_cert s = true
                      /\ Keyid.equals (Signature.issuerKeyId s) primaryKeyId = false)
            (User.otherCertifications u).

Definition subKey_ok (k : SubKey.t) : Prop :=
  is_subkey (SubKey.subKey k) = true
  /\ Forall (has_type enums.signature.subkey_revocation) (SubKey.revocationSignatures k)
  /\ Forall (has_type enums.signature.subkey_binding) (SubKey.bindingSignatures k).

Definition key_ok (k : Key.t) : Prop :=
  is_primary (Key.primaryKey k) = true
  /\ Forall (has_type enums.signature.key_revocation) (Key.revocationSignatures k)
  /\ Forall (fun s => has_type enums.signature.key s
                      \/ has_type enums.signature.cert_revocation s)
            (Key.directSignatures k)
  /\ Key.users k <> []
  /\ Forall (user_ok (KeyPacket.getKeyId (Key.primaryKey k))) (Key.users k)
  /\ Forall subKey_ok (Key.subKeys k).

(** The key packets of a packet sequence that are secret. *)
Definition is_secret_packet (p : Packet) : bool :=
  match tag p with
  | enums.packet.secretKey | enums.packet.secretSubkey => true
  | _ => false
  end.

(** ** Invariant of the store: a signature that is flagged revoked stays so *)

Definition revoked_le (st st' : Store) : Prop :=
  forall i, revoked (st i) = Some true -> revoked (st' i) = Some true.

Definition keeps_revoked {A} (m : M A) : Prop :=
  forall st a st', m st = Ok (a, st') -> revoked_le st st'.

(** ** Invariant of the store: the cache of [verified] only grows *)

Definition verified_le (st st' : Store) : Prop :=
  forall i, verified (st i) = true -> verified (st' i) = true.

Definition monotone {A} (m : M A) : Prop :=
  forall st a st', m st = Ok (a, st') -> verified_le st st'.

(** ** What an operation does to the store, and how it can end *)

(** Every run of [m] that returns relates the store it found to the store
    it leaves. *)
Definition preserves (R : Store -> Store -> Prop) {A} (m : M A) : Prop :=
  forall st a st', m st = Ok (a, st') -> R st st'.

(** Every exception that [m] throws is one of [P]. *)
Definition throws_only (P : Error -> Prop) {A} (m : M A) : Prop :=
  forall st e, m st = Throw e -> P e.

(** No exception at all. *)
Definition nothing : Error -> Prop := fun _ => False.

(** [m] returns from every store. *)
Definition never_throws {A} (m : M A) : Prop :=
  forall st, exists a st', m st = Ok (a, st').

(** ** The signature under which a key packet of a Key serves *)

(** [s] is a self-certification of a UserID user of [this] when [p] is the
    primary key, or a binding signature of the subkey whose packet is [p]. *)
Definition governs (this : Key.t) (p : KeyPacket.t) (s : Signature.t) : Prop :=
  (p = Key.primaryKey this
   /\ exists u, In u (Key.users this) /\ User.userId u <> None
                /\ In s (User.selfCertifications u))
  \/ (exists sk, In sk (Key.subKeys this) /\ p = SubKey.subKey sk
                 /\ In s (SubKey.bindingSignatures sk)).

(** ** What getPrimaryUser has established of a candidate *)

(** The candidate is a UserID user of the key, at its index, with one of
    its self-certifications, which is flagged verified in the store and is
    not expired at [date]. *)
Definition candidate {E : Externals} (users : list User.t) (date : option Z) (st : Store)
           (pu : Key.PrimaryUser) : Prop :=
  nth_error users (Key.index pu) = Some (Key.user pu)
  /\ User.userId (Key.user pu) <> None
  /\ In (Key.selfCertification pu) (User.selfCertifications (Key.user pu))
  /\ verified (st (Signature.id (Key.selfCertification pu))) = true
  /\ sig_isExpired (Key.selfCertification pu) date = false.

(** The key-status table gives [valid] a code of its own. *)
Definition valid_is_distinct {E : Externals} : Prop :=
  forall status, keyStatus_eq status enums.keyStatus.valid = true ->
                 status = enums.keyStatus.valid.

(** ** What a merge keeps *)

(** [l'] is [l] with elements pushed at its end. *)
Definition prefix {A} (l l' : list A) : Prop := exists added, l' = l ++ added.

(** The same user packet, with each container extended at its end. *)
Definition user_extends (u u' : User.t) : Prop :=
  User.userId u' = User.userId u
  /\ User.userAttribute u' = User.userAttribute u
  /\ prefix (User.selfCertifications u) (User.selfCertifications u')
  /\ prefix (User.otherCertifications u) (User.otherCertifications u')
  /\ prefix (User.revocationSignatures u) (User.revocationSignatures u').

(** A subkey packet of the same fingerprint, with no fewer binding
    signatures and with the revocations extended at their end. *)
Definition subKey_extends (k k' : SubKey.t) : Prop :=
  KeyPacket.getFingerprint (SubKey.subKey k') = KeyPacket.getFingerprint (SubKey.subKey k)
  /\ (List.length (SubKey.bindingSignatures k)
      <= List.length (SubKey.bindingSignatures k'))%nat
  /\ prefix (SubKey.revocationSignatures k) (SubKey.revocationSignatures k').

(** A [checkFn] that does not assign to [dest[attr]]. *)
Definition leaves_dest (checkFn : option CheckFn) : Prop :=
  forall f, checkFn = Some f ->
            forall s d st b d' st', f s d st = Ok ((b, d'), st') -> d' = d.


(** The exceptions of Key.prototype.update. *)
Definition update_error (e : Error) : Prop :=
  e = FingerprintMismatch \/ e = SubkeyMismatch \/ e = TypeError.

(** ** What the structure builder holds, and what it is given *)

(** The packets held by the object under construction. *)
Definition contents (b : Key.building) : list Packet :=
  match Key.b_primaryKey b with Some k => [KeyPkt k] | None => [] end
  ++ map SigPkt (Key.b_revocationSignatures b)
  ++ map SigPkt (Key.b_directSignatures b)
  ++ List.concat (map User.toPacketlist (Key.b_users b))
  ++ List.concat (map SubKey.toPacketlist (Key.b_subKeys b)).

(** The subkey packets, the UserID packets and the primary key packets of
    a packet sequence, in their order. *)
Definition subkey_packets (p : list Packet) : list KeyPacket.t :=
  flat_map (fun x => match x with
                     | KeyPkt k => if is_subkey k then [k] else []
                     | _ => []
                     end) p.

Definition userid_packets (p : list Packet) : list Userid.t :=
  flat_map (fun x => match x with UseridPkt u => [u] | _ => [] end) p.

Definition primary_packets (p : list Packet) : list KeyPacket.t :=
  flat_map (fun x => match x with
                     | KeyPkt k => if is_primary k then [k] else []
                     | _ => []
                     end) p.

(** The errors that [read] has collected. *)
Definition errors (result : ReadResult) : list ReadError :=
  match err result with Some l => l | None => [] end.

(** ** The public counterpart of a key *)

(** What the loop of toPublic makes of a key packet. *)
Definition toPublic_key (k : KeyPacket.t) : KeyPacket.t :=
  match KeyPacket.tag k with
  | enums.packet.secretKey => KeyPacket.readPublicKey KeyPacket.PublicKey k
  | enums.packet.secretSubkey => KeyPacket.readPublicKey KeyPacket.PublicSubkey k
  | _ => k
  end.

(** The key with its key packets replaced by their public counterparts. *)
Definition public_of (key : Key.t) : Key.t :=
  {| Key.primaryKey := toPublic_key (Key.primaryKey key);
     Key.revocationSignatures := Key.revocationSignatures key;
     Key.directSignatures := Key.directSignatures key;
     Key.users := Key.users key;
     Key.subKeys :=
       map (fun sk => {| SubKey.subKey := toPublic_key (SubKey.subKey sk);
                         SubKey.bindingSignatures := SubKey.bindingSignatures sk;
                         SubKey.revocationSignatures := SubKey.revocationSignatures sk |})
           (Key.subKeys key) |}.

(** ** Parameters that carry a value of their class *)

Definition well_typed (p : crypto.param) : Prop :=
  match crypto.p_type p, crypto.p_data p with
  | crypto.type_mpi, Some (crypto.BigInteger _) => True
  | crypto.type_oid, Some (crypto.Oid _) => True
  | crypto.type_kdf_params, Some (crypto.HashCipher _ _) => True
  | _, _ => False
  end.

(** The curves whose entry in the table has only an OID. *)
Definition is_brainpool (name : enums.curve.t) : bool :=
  match name with
  | enums.curve.brainpoolP256r1 | enums.curve.brainpoolP384r1
  | enums.curve.brainpoolP512r1 => true
  | _ => false
  end.

(** Every key of [prioMap] is the [algo] of its entry. *)
Definition keyed (prioMap : list (Z * entry)) : Prop :=
  Forall (fun ke => algo (snd ke) = fst ke) prioMap.

(** ** A reference instance of the externals, and sample keys

    The tables carry the numbers of RFC 4880. The sample oracle accepts a
    signature under the key that issued it when the data names a key, and a
    signature counts as expired before its creation time. *)

Definition reference : Externals := {|
  sig_verify := fun key dataToVerify s =>
    Keyid.equals (Signature.issuerKeyId s) (KeyPacket.getKeyId key)
    && match Data.key dataToVerify with Some _ => true | None => false end;
  sig_isExpired := fun s date =>
    match util.normalizeDate date with
    | Some t => negb (Signature.created s <=? t)
    | None => false
    end;
  now := 2000000;
  getHashByteLength := fun h =>
    match h with
    | Some 1 => 16 | Some 2 => 20 | Some 3 => 20 | Some 8 => 32
    | Some 9 => 48 | Some 10 => 64 | Some 11 => 28 | _ => 0
    end;
  enums_keyStatus := fun s =>
    match s with
    | enums.keyStatus.invalid => 0 | enums.keyStatus.expired => 1
    | enums.keyStatus.revoked => 2 | enums.keyStatus.valid => 3
    | enums.keyStatus.no_self_cert => 4
    end;
  enums_hash := fun h =>
    match h with
    | enums.hash.md5 => 1 | enums.hash.sha1 => 2 | enums.hash.ripemd => 3
    | enums.hash.sha256 => 8 | enums.hash.sha384 => 9 | enums.hash.sha512 => 10
    | enums.hash.sha224 => 11
    end;
  enums_symmetric := fun a =>
    match a with
    | enums.symmetric.plaintext => 0 | enums.symmetric.idea => 1
    | enums.symmetric.tripledes => 2 | enums.symmetric.cast5 => 3
    | enums.symmetric.blowfish => 4 | enums.symmetric.aes128 => 7
    | enums.symmetric.aes192 => 8 | enums.symmetric.aes256 => 9
    | enums.symmetric.twofish => 10
    end;
  keyFlags_sign_data := 2;
  keyFlags_encrypt_communication := 4;
  keyFlags_encrypt_storage := 8
|}.

Module sample.
Local Open Scope string_scope.
Local Open Scope Z_scope.

(** A version 4 RSA primary key with key-ID "K", and a subkey. *)
Definition primary : KeyPacket.t :=
  KeyPacket.mk KeyPacket.PublicKey 4 enums.publicKey.rsa_encrypt_sign 0 0 "K" "FP-K" None.

Definition other_primary : KeyPacket.t :=
  KeyPacket.mk KeyPacket.PublicKey 4 enums.publicKey.rsa_encrypt_sign 0 0 "L" "FP-L" None.

Definition subkey : KeyPacket.t :=
  KeyPacket.mk KeyPacket.PublicSubkey 4 enums.publicKey.rsa_encrypt_sign 0 0 "S" "FP-S" None.

(** An ECDSA primary key on the curve p521. *)
Definition ecc_primary : KeyPacket.t :=
  KeyPacket.mk KeyPacket.PublicKey 4 enums.publicKey.ecdsa 0 0 "E" "FP-E"
               (Some enums.curve.p521).

(** A signature with the given identity, type, issuer, creation time,
    primary-user weight and raw bytes, and no other subpacket. *)
Definition sig (id : nat) (ty : enums.signature.t) (issuer : Keyid.t) (created : Z)
           (weight : option Z) (bytes : list byte) : Signature.t :=
  Signature.mk id ty issuer created None None weight None None None bytes.

Definition alice : Userid.t := Userid.mk "alice".
Definition bob : Userid.t := Userid.mk "bob".
Definition photo : UserAttribute.t := UserAttribute.mk ["jpeg"].

(** Two self-certifications of alice, the second one later. *)
Definition cert_early : Signature.t := sig 1 enums.signature.cert_generic "K" 100000 None [x01].
Definition cert_late : Signature.t := sig 2 enums.signature.cert_generic "K" 200000 None [x02].

(** Self-certifications with primary-user weights 0 and 1. *)
Definition cert_weight0 : Signature.t :=
  sig 3 enums.signature.cert_generic "K" 100000 (Some 0) [x03].
Definition cert_weight1 : Signature.t :=
  sig 4 enums.signature.cert_generic "K" 200000 (Some 1) [x04].

Definition cert_third_party : Signature.t :=
  sig 5 enums.signature.cert_generic "L" 150000 None [x05].

Definition user_alice : User.t := User.mk (Some alice) None [cert_early; cert_late] [] [].

(** One user, certified twice by the primary key. *)
Definition key_two_certs : Key.t := Key.mk primary [] [] [user_alice] [].

(** A UserAttribute user followed by a certified UserID user. *)
Definition key_attribute_first : Key.t :=
  Key.mk primary [] []
         [User.mk None (Some photo) [] [] []; User.mk (Some alice) None [cert_early] [] []] [].

(** Two users: weight 0 created earlier, weight 1 created later. *)
Definition key_weights : Key.t :=
  Key.mk primary [] []
         [User.mk (Some alice) None [cert_weight0] [] [];
          User.mk (Some bob) None [cert_weight1] [] []] [].

(** Binding signatures issued by "K" over [subkey]. *)
Definition binding_200 : Signature.t := sig 10 enums.signature.subkey_binding "K" 200000 None [x0a].
Definition binding_100 : Signature.t := sig 11 enums.signature.subkey_binding "K" 100000 None [x0b].
Definition binding_300 : Signature.t := sig 12 enums.signature.subkey_binding "K" 300000 None [x0c].

Definition subkey_with (bindings : list Signature.t) : SubKey.t := SubKey.mk subkey bindings [].

(** Key revocations: one issued by "K", one issued by another key and
    created after [now]. *)
Definition revocation_good : Signature.t :=
  sig 20 enums.signature.key_revocation "K" 300000 None [x14].
Definition revocation_old : Signature.t :=
  sig 21 enums.signature.key_revocation "K" 250000 None [x15].
Definition revocation_bad : Signature.t :=
  sig 22 enums.signature.key_revocation "X" 9000000 None [x16].

Definition direct : Signature.t := sig 23 enums.signature.key "K" 120000 None [x17].

(** A destination without revocation signatures and a source that carries
    [revocation_bad]; a source that carries it twice. *)
Definition key_plain : Key.t := Key.mk primary [] [] [user_alice] [].
Definition key_bad_revocation : Key.t :=
  Key.mk primary [revocation_bad] [] [User.mk (Some alice) None [] [] []] [].
Definition key_bad_revocation_twice : Key.t :=
  Key.mk primary [revocation_bad; revocation_bad] [] [User.mk (Some alice) None [] [] []] [].

(** A destination and a source that both carry a revocation issued by "K". *)
Definition key_revoked_old : Key.t := Key.mk primary [revocation_old] [] [user_alice] [].
Definition key_revoked_new : Key.t := Key.mk primary [revocation_good] [] [user_alice] [].

(** An ECDSA key on p521 whose self-certification states no hash preference. *)
Definition ecc_cert : Signature.t := sig 30 enums.signature.cert_generic "E" 100000 None [x1e].
Definition key_ecc : Key.t :=
  Key.mk ecc_primary [] [] [User.mk (Some alice) None [ecc_cert] [] []] [].

(** A key whose self-certification prefers the symmetric algorithm 0. *)
Definition cert_prefers_plaintext : Signature.t :=
  Signature.mk 31 enums.signature.cert_generic "K" 100000 None None None None None
               (Some [0]) [x1f].
Definition key_prefers_plaintext : Key.t :=
  Key.mk primary [] [] [User.mk (Some alice) None [cert_prefers_plaintext] [] []] [].

(** A self-certification made 1000 seconds after the key, with
    [keyExpirationTime = 3600] and [keyNeverExpires = false]. *)
Definition cert_expiring : Signature.t :=
  Signature.mk 32 enums.signature.cert_generic "K" 1000000 (Some 3600) (Some false)
               None None None None [x20].

(** A packet sequence in canonical order. *)
Definition packets : list Packet :=
  [KeyPkt primary; SigPkt revocation_good; SigPkt direct;
   UseridPkt alice; SigPkt cert_early; SigPkt cert_third_party;
   UserAttributePkt photo;
   KeyPkt subkey; SigPkt binding_200].

(** A packet sequence with a second primary key packet. *)
Definition packets_two_primaries : list Packet :=
  [KeyPkt primary; UseridPkt alice; SigPkt cert_early; KeyPkt other_primary].

(** The Key that [packets] builds. *)
Definition key_full : Key.t :=
  Key.mk primary [revocation_good] [direct]
         [User.mk (Some alice) None [cert_early] [cert_third_party] [];
          User.mk None (Some photo) [] [] []]
         [subkey_with [binding_200]].

(** Two keys with another primary key: the user of the first one is
    certified by that key, the user of the second one by "K" only. *)
Definition key_other : Key.t :=
  Key.mk other_primary [] [] [User.mk (Some alice) None [cert_third_party] [] []] [].
Definition key_other_uncertified : Key.t := Key.mk other_primary [] [] [user_alice] [].

(** The secret counterparts of [primary] and [subkey], and a private key. *)
Definition secret_primary : KeyPacket.t :=
  KeyPacket.mk KeyPacket.SecretKey 4 enums.publicKey.rsa_encrypt_sign 0 0 "K" "FP-K" None.

Definition secret_subkey : KeyPacket.t :=
  KeyPacket.mk KeyPacket.SecretSubkey 4 enums.publicKey.rsa_encrypt_sign 0 0 "S" "FP-S" None.

Definition key_secret : Key.t :=
  Key.mk secret_primary [] [] [user_alice] [SubKey.mk secret_subkey [binding_200] []].

(** Options of key generation that name curve25519 and nothing else. *)
Definition options_curve25519 : keygen.options :=
  keygen.mkOptions (Some (Some enums.curve.curve25519)) None None None (inl "alice <a@b>")
                   None false.

(** Generators that return fixed numbers. *)
Definition rsa_generate (bits : Z) : crypto.rsaKeyObject :=
  crypto.mkRsaKeyObject 35 3 11 5 7 3.

Definition genKeyPair (curve : curves.Curve) : Z * Z := (4, 2).

End sample.

(** * Properties *)

(** ** Running the monad *)

Lemma bind_inv {A B} (m : M A) (f : A -> M B) (st : Store) (b : B) (st' : Store) :
  bind m f st = Ok (b, st') ->
  exists a st1, m st = Ok (a, st1) /\ f a st1 = Ok (b, st').
Proof.
  unfold bind. destruct (m st) as [[a st1]|e]; [eauto | discriminate].
Qed.

Lemma ret_inv {A} (a b : A) (st st' : Store) :
  ret a st = Ok (b, st') -> b = a /\ st' = st.
Proof. unfold ret. intros H. inversion H. auto. Qed.

Lemma lift_inv {A} (r : Result A) (a : A) (st st' : Store) :
  lift r st = Ok (a, st') -> r = Ok a /\ st' = st.
Proof. unfold lift. destruct r; intros H; inversion H. auto. Qed.

Lemma throw_inv {A} (e : Error) (st : Store) (x : A * Store) : throw e st = Ok x -> False.
Proof. unfold throw. discriminate. Qed.

Lemma bind_ok {A B} (m : M A) (f : A -> M B) (st st1 : Store) (a : A) :
  m st = Ok (a, st1) -> bind m f st = f a st1.
Proof. unfold bind. intros ->. reflexivity. Qed.

Ltac inv_run :=
  repeat match goal with
         | H : bind _ _ _ = Ok (_, _) |- _ =>
             let a := fresh "a" in
             let st := fresh "st" in
             let Hm := fresh "Hm" in
             apply bind_inv in H; destruct H as (a & st & Hm & H)
         | H : ret _ _ = Ok (_, _) |- _ =>
             let H1 := fresh in
             let H2 := fresh in
             apply ret_inv in H; destruct H as [H1 H2];
             try discriminate H1; try (injection H1 as H1); subst
         | H : lift _ _ = Ok (_, _) |- _ => apply lift_inv in H; destruct H; subst
         | H : throw _ _ = Ok _ |- _ => apply throw_inv in H; contradiction
         end.

(** Case analysis on the test of a conditional that is being run. *)
Ltac case_run :=
  match goal with
  | H : (if negb ?b then _ else _) _ = Ok (_, _) |- _ => destruct b eqn:?; simpl in H
  | H : (if ?b then _ else _) _ = Ok (_, _) |- _ => destruct b eqn:?; simpl in H
  | H : (match ?x with Some _ => _ | None => _ end) _ = Ok (_, _) |- _ =>
      destruct x eqn:?; simpl in H
  end.

Section Revocation.
Context {E : Externals}.

Lemma revoked_update_verified (st : Store) (i j : nat) (b : bool) :
  revoked (update st i {| verified := b; revoked := revoked (st i) |} j) = revoked (st j).
Proof.
  unfold update. destruct (Nat.eqb_spec j i); subst; reflexivity.
Qed.

(** Verification always returns, and touches no [revoked] flag. *)
Lemma verified_or_verify_runs (s : Signature.t) (key : KeyPacket.t) (data : Data.t) (st : Store) :
  exists b st', verified_or_verify s key data st = Ok (b, st')
                /\ forall j, revoked (st' j) = revoked (st j).
Proof.
  unfold verified_or_verify, bind, get_verified.
  destruct (verified (st (Signature.id s))).
  - exists true, st. split; reflexivity.
  - unfold Signature_verify, bind, set_verified, ret.
    eexists _, _. split; [reflexivity|].
    intros j. apply revoked_update_verified.
Qed.

Lemma revocationKeyIds_runs (key : KeyPacket.t) (data : Data.t) (normDate : option Z)
      (revocations : list Signature.t) (st : Store) :
  exists ids st', revocationKeyIds key data normDate revocations st = Ok (ids, st')
                  /\ forall j, revoked (st' j) = revoked (st j).
Proof.
  revert st. induction revocations as [|r rest IH]; intros st; simpl.
  - exists [], st. split; reflexivity.
  - assert (exists b st1,
               (if config.revocations_expire && sig_isExpired r normDate
                then ret false else verified_or_verify r key data) st = Ok (b, st1)
               /\ forall j, revoked (st1 j) = revoked (st j)) as (b & st1 & Hv & Hrev1).
    { destruct (config.revocations_expire && sig_isExpired r normDate).
      - exists false, st. split; reflexivity.
      - apply verified_or_verify_runs. }
    destruct (IH st1) as (ids & st' & Hrun & Hrev).
    rewrite (bind_ok _ _ _ _ _ Hv), (bind_ok _ _ _ _ _ Hrun).
    eexists _, _. split; [reflexivity|].
    intros j. rewrite Hrev. apply Hrev1.
Qed.

(** With a target signature, isDataRevoked returns the flag it leaves on
    the target, and that flag is the old one or [true]; no other [revoked]
    flag changes. *)
Lemma isDataRevoked_runs (primaryKey : KeyPacket.t) (data : Data.t)
      (revocations : list Signature.t) (signature : Signature.t)
      (key : option KeyPacket.t) (date : option Z) (st : Store) :
  exists r st',
    isDataRevoked primaryKey data revocations (Some signature) key date st = Ok (r, st')
    /\ revoked (st' (Signature.id signature)) = r
    /\ (r = revoked (st (Signature.id signature)) \/ r = Some true)
    /\ forall j, j <> Signature.id signature -> revoked (st' j) = revoked (st j).
Proof.
  unfold isDataRevoked.
  destruct (revocationKeyIds_runs (match key with Some k => k | None => primaryKey end)
              data (util.normalizeDate date) revocations st) as (ids & st1 & Hrun & Hrev).
  rewrite (bind_ok _ _ _ _ _ Hrun).
  unfold bind, get_revoked, set_revoked, ret.
  eexists _, _. split; [reflexivity|]. split; [|split].
  - unfold update. rewrite Nat.eqb_refl. reflexivity.
  - rewrite Hrev.
    destruct (existsb _ ids); [right | left]; reflexivity.
  - intros j Hj. unfold update.
    destruct (Nat.eqb_spec j (Signature.id signature)); [contradiction | apply Hrev].
Qed.

(** C10. A target signature whose [revoked] flag is already true stays
    revoked: isDataRevoked returns true and leaves the flag true, whatever
    the candidate revocations are; and from any store, the call changes the
    target's flag, if at all, to true. *)
Theorem isDataRevoked_never_unrevokes (primaryKey : KeyPacket.t) (data : Data.t)
        (revocations : list Signature.t) (signature : Signature.t)
        (key : option KeyPacket.t) (date : option Z) (st : Store) :
  revoked (st (Signature.id signature)) = Some true ->
  (exists st',
      isDataRevoked primaryKey data revocations (Some signature) key date st
      = Ok (Some true, st')
      /\ revoked (st' (Signature.id signature)) = Some true)
  /\ (forall st0, exists r st0',
         isDataRevoked primaryKey data revocations (Some signature) key date st0 = Ok (r, st0')
         /\ (revoked (st0' (Signature.id signature)) = revoked (st0 (Signature.id signature))
             \/ revoked (st0' (Signature.id signature)) = Some true)).
Proof.
  intros Hflag. split.
  - destruct (isDataRevoked_runs primaryKey data revocations signature key date st)
      as (r & st' & Hrun & Hnew & Hor & _).
    assert (r = Some true) as -> by (destruct Hor; congruence).
    exists st'. split; assumption.
  - intros st0.
    destruct (isDataRevoked_runs primaryKey data revocations signature key date st0)
      as (r & st' & Hrun & Hnew & Hor & _).
    exists r, st'. split; [assumption|]. rewrite Hnew. assumption.
Qed.

End Revocation.

(** ** The operation selector *)

Section Selector.
Context {E : Externals}.

Lemma isValidSigningKeyPacket_algorithm (keyPacket : KeyPacket.t) (signature : Signature.t)
      (date : option Z) (st st' : Store) :
  isValidSigningKeyPacket keyPacket signature date st = Ok (true, st') ->
  KeyPacket.algorithm keyPacket <> enums.publicKey.rsa_encrypt
  /\ KeyPacket.algorithm keyPacket <> enums.publicKey.elgamal
  /\ KeyPacket.algorithm keyPacket <> enums.publicKey.ecdh.
Proof.
  unfold isValidSigningKeyPacket.
  destruct (KeyPacket.algorithm keyPacket); simpl; intros H;
    try (apply ret_inv in H; destruct H; discriminate);
    repeat split; discriminate.
Qed.

Lemma isValidEncryptionKeyPacket_algorithm (keyPacket : KeyPacket.t) (signature : Signature.t)
      (date : option Z) (st st' : Store) :
  isValidEncryptionKeyPacket keyPacket signature date st = Ok (true, st') ->
  KeyPacket.algorithm keyPacket <> enums.publicKey.dsa
  /\ KeyPacket.algorithm keyPacket <> enums.publicKey.rsa_sign
  /\ KeyPacket.algorithm keyPacket <> enums.publicKey.ecdsa
  /\ KeyPacket.algorithm keyPacket <> enums.publicKey.eddsa.
Proof.
  unfold isValidEncryptionKeyPacket.
  destruct (KeyPacket.algorithm keyPacket); simpl; intros H;
    try (apply ret_inv in H; destruct H; discriminate);
    repeat split; discriminate.
Qed.

(** Whatever the eligibility test [isValid] guarantees of the packets it
    accepts holds of the packet a selector returns. *)
Section Accepted.
Variable isValid : KeyPacket.t -> Signature.t -> option Z -> M bool.
Variable P : KeyPacket.t -> Prop.
Hypothesis accepted : forall keyPacket signature date st st',
    isValid keyPacket signature date st = Ok (true, st') -> P keyPacket.

Lemma some_binding_accepted (subKey : KeyPacket.t) (date : option Z)
      (bindingSignatures : list Signature.t) (st st' : Store) :
  Key.some_binding isValid subKey date bindingSignatures st = Ok (true, st') -> P subKey.
Proof.
  revert st. induction bindingSignatures as [|b rest IH]; intros st H; simpl in H.
  - inv_run.
  - inv_run. case_run.
    + eapply accepted; eassumption.
    + eapply IH; eassumption.
Qed.

Lemma first_subKey_accepted (primaryKey : KeyPacket.t) (keyId : option Keyid.t)
      (date : option Z) (subKeys : list SubKey.t) (packet : KeyPacket.t) (st st' : Store) :
  Key.first_subKey isValid primaryKey keyId date subKeys st = Ok (Some packet, st') ->
  P packet.
Proof.
  revert st. induction subKeys as [|sk rest IH]; intros st H; simpl in H.
  - inv_run.
  - case_run.
    + inv_run. case_run.
      * inv_run. eapply some_binding_accepted; eassumption.
      * eapply IH; eassumption.
    + eapply IH; eassumption.
Qed.

Lemma primaryKey_serves_accepted (this : Key.t) (keyId : option Keyid.t) (date : option Z)
      (primaryUser : option Key.PrimaryUser) (st st' : Store) :
  Key.primaryKey_serves isValid this keyId date primaryUser st = Ok (true, st') ->
  P (Key.primaryKey this).
Proof.
  unfold Key.primaryKey_serves. intros H.
  case_run; [|inv_run]. case_run; [|inv_run]. inv_run. case_run; [|inv_run].
  eapply accepted; eassumption.
Qed.

End Accepted.

(** C5. getSigningKeyPacket never returns a key packet whose algorithm is
    rsa_encrypt, elgamal or ecdh, and getEncryptionKeyPacket never returns
    one whose algorithm is dsa, rsa_sign, ecdsa or eddsa. *)
Theorem selectors_respect_algorithm (this : Key.t) (keyId : option Keyid.t) (date : option Z)
        (st st' : Store) (packet : KeyPacket.t) :
  (Key.getSigningKeyPacket this keyId date st = Ok (Some packet, st') ->
   KeyPacket.algorithm packet <> enums.publicKey.rsa_encrypt
   /\ KeyPacket.algorithm packet <> enums.publicKey.elgamal
   /\ KeyPacket.algorithm packet <> enums.publicKey.ecdh)
  /\ (Key.getEncryptionKeyPacket this keyId date st = Ok (Some packet, st') ->
      KeyPacket.algorithm packet <> enums.publicKey.dsa
      /\ KeyPacket.algorithm packet <> enums.publicKey.rsa_sign
      /\ KeyPacket.algorithm packet <> enums.publicKey.ecdsa
      /\ KeyPacket.algorithm packet <> enums.publicKey.eddsa).
Proof.
  split; intros H.
  - set (P := fun k => KeyPacket.algorithm k <> enums.publicKey.rsa_encrypt
                       /\ KeyPacket.algorithm k <> enums.publicKey.elgamal
                       /\ KeyPacket.algorithm k <> enums.publicKey.ecdh).
    change (P packet).
    unfold Key.getSigningKeyPacket in H. inv_run. case_run.
    + inv_run.
      eapply (primaryKey_serves_accepted isValidSigningKeyPacket P);
        [exact isValidSigningKeyPacket_algorithm | eassumption].
    + eapply (first_subKey_accepted isValidSigningKeyPacket P);
        [exact isValidSigningKeyPacket_algorithm | eassumption].
  - set (P := fun k => KeyPacket.algorithm k <> enums.publicKey.dsa
                       /\ KeyPacket.algorithm k <> enums.publicKey.rsa_sign
                       /\ KeyPacket.algorithm k <> enums.publicKey.ecdsa
                       /\ KeyPacket.algorithm k <> enums.publicKey.eddsa).
    change (P packet).
    unfold Key.getEncryptionKeyPacket in H. inv_run. case_run.
    + inv_run.
      eapply (first_subKey_accepted isValidEncryptionKeyPacket P);
        [exact isValidEncryptionKeyPacket_algorithm | eassumption].
    + inv_run. case_run.
      * inv_run.
        eapply (primaryKey_serves_accepted isValidEncryptionKeyPacket P);
          [exact isValidEncryptionKeyPacket_algorithm | eassumption].
      * inv_run.
Qed.

End Selector.

(** ** The structure builder *)

Lemma update_last_app {A} (f : A -> A) (l : list A) (x : A) :
  Key.update_last f (l ++ [x]) = l ++ [f x].
Proof.
  induction l as [|a l IH]; simpl.
  - reflexivity.
  - rewrite IH. destruct l; reflexivity.
Qed.

Lemma packetlist2structure_app (b : Key.building) (l1 l2 : list Packet) :
  Key.packetlist2structure b (l1 ++ l2)
  = match Key.packetlist2structure b l1 with
    | Ok b' => Key.packetlist2structure b' l2
    | Throw e => Throw e
    end.
Proof.
  revert b. induction l1 as [|p l1 IH]; intros b; simpl.
  - reflexivity.
  - destruct (Key.step b p); [apply IH | reflexivity].
Qed.

Section Blocks.
Variables (pk : option KeyPacket.t) (R D : list Signature.t).

(** Key revocations go to [revocationSignatures], in order. *)
Lemma build_key_revocations (revs : list Signature.t) :
  Forall (has_type enums.signature.key_revocation) revs ->
  forall R U S u id s rest,
    Key.packetlist2structure (Key.mkBuilding pk R D U S u id s) (map SigPkt revs ++ rest)
    = Key.packetlist2structure (Key.mkBuilding pk (R ++ revs) D U S u id s) rest.
Proof.
  induction 1 as [|x revs Hx _ IH]; intros R0 U S u id s rest; simpl.
  - rewrite app_nil_r. reflexivity.
  - rewrite Hx. unfold Key.push_revocationSignature. simpl.
    rewrite IH, <- app_assoc. reflexivity.
Qed.

(** Before the first user, [key] signatures and certification revocations
    go to [directSignatures], in order. *)
Lemma build_direct_signatures (directs : list Signature.t) :
  Forall (fun x => has_type enums.signature.key x
                   \/ has_type enums.signature.cert_revocation x) directs ->
  forall D U S id s rest,
    Key.packetlist2structure (Key.mkBuilding pk R D U S false id s) (map SigPkt directs ++ rest)
    = Key.packetlist2structure (Key.mkBuilding pk R (D ++ directs) U S false id s) rest.
Proof.
  induction 1 as [|x directs Hx _ IH]; intros D0 U S id s rest; simpl.
  - rewrite app_nil_r. reflexivity.
  - destruct Hx as [Hx|Hx]; rewrite Hx; unfold Key.push_directSignature; simpl;
      rewrite IH, <- app_assoc; reflexivity.
Qed.

(** After a user packet, certification revocations go to that user. *)
Lemma build_user_revocations (revs : list Signature.t) :
  Forall (has_type enums.signature.cert_revocation) revs ->
  forall U S id s rest uid uattr selfs others revs0,
    Key.packetlist2structure
      (Key.mkBuilding pk R D (U ++ [User.mk uid uattr selfs others revs0]) S true id s)
      (map SigPkt revs ++ rest)
    = Key.packetlist2structure
        (Key.mkBuilding pk R D (U ++ [User.mk uid uattr selfs others (revs0 ++ revs)]) S true id s)
        rest.
Proof.
  induction 1 as [|x revs Hx _ IH]; intros U S id s rest uid uattr selfs others revs0; simpl.
  - rewrite app_nil_r. reflexivity.
  - rewrite Hx. unfold Key.with_users. simpl. rewrite update_last_app.
    unfold Key.push_userRevocation. simpl. rewrite IH, <- app_assoc. reflexivity.
Qed.

Lemma build_selfCertifications (primaryKeyId : Keyid.t) (certs : list Signature.t) :
  Forall (fun x => is_cert x = true
                   /\ Keyid.equals (Signature.issuerKeyId x) primaryKeyId = true) certs ->
  forall U S s rest uid uattr selfs others revs,
    Key.packetlist2structure
      (Key.mkBuilding pk R D (U ++ [User.mk uid uattr selfs others revs]) S true
                      (Some primaryKeyId) s)
      (map SigPkt certs ++ rest)
    = Key.packetlist2structure
        (Key.mkBuilding pk R D (U ++ [User.mk uid uattr (selfs ++ certs) others revs]) S true
                        (Some primaryKeyId) s)
        rest.
Proof.
  induction 1 as [|x certs [Hc Hi] _ IH]; intros U S s rest uid uattr selfs others revs; simpl.
  - rewrite app_nil_r. reflexivity.
  - unfold is_cert in Hc.
    destruct (Signature.signatureType x); try discriminate Hc; simpl; rewrite Hi;
      unfold Key.with_users; simpl; rewrite update_last_app;
      unfold Key.push_selfCertification; simpl; rewrite IH, <- app_assoc; reflexivity.
Qed.

Lemma build_otherCertifications (primaryKeyId : Keyid.t) (certs : list Signature.t) :
  Forall (fun x => is_cert x = true
                   /\ Keyid.equals (Signature.issuerKeyId x) primaryKeyId = false) certs ->
  forall U S s rest uid uattr selfs others revs,
    Key.packetlist2structure
      (Key.mkBuilding pk R D (U ++ [User.mk uid uattr selfs others revs]) S true
                      (Some primaryKeyId) s)
      (map SigPkt certs ++ rest)
    = Key.packetlist2structure
        (Key.mkBuilding pk R D (U ++ [User.mk uid uattr selfs (others ++ certs) revs]) S true
                        (Some primaryKeyId) s)
        rest.
Proof.
  induction 1 as [|x certs [Hc Hi] _ IH]; intros U S s rest uid uattr selfs others revs; simpl.
  - rewrite app_nil_r. reflexivity.
  - unfold is_cert in Hc.
    destruct (Signature.signatureType x); try discriminate Hc; simpl; rewrite Hi;
      unfold Key.with_users; simpl; rewrite update_last_app;
      unfold Key.push_otherCertification; simpl; rewrite IH, <- app_assoc; reflexivity.
Qed.

(** A user's block becomes one User, which serializes to the block. *)
Lemma build_user_block (primaryKeyId : Keyid.t) (block : list Packet) :
  user_block primaryKeyId block ->
  exists usr,
    User.toPacketlist usr = block
    /\ forall U S u s rest,
      Key.packetlist2structure (Key.mkBuilding pk R D U S u (Some primaryKeyId) s)
                               (block ++ rest)
      = Key.packetlist2structure
          (Key.mkBuilding pk R D (U ++ [usr]) S true (Some primaryKeyId) s) rest.
Proof.
  intros [u revs selfs others Hr Hs Ho].
  exists (User.mk (match u with IsUserid p => Some p | _ => None end)
                  (match u with IsUserAttribute p => Some p | _ => None end)
                  selfs others revs).
  split.
  - unfold User.toPacketlist, User.userPacket. destruct u; simpl;
      rewrite !map_app; reflexivity.
  - intros U S u0 s rest.
    rewrite !map_app, <- app_comm_cons, <- !app_assoc.
    transitivity
      (Key.packetlist2structure
         (Key.mkBuilding pk R D (U ++ [User.new u]) S true (Some primaryKeyId) s)
         (map SigPkt revs ++ map SigPkt selfs ++ map SigPkt others ++ rest)).
    { destruct u; reflexivity. }
    unfold User.new.
    rewrite (build_user_revocations revs Hr).
    rewrite (build_selfCertifications primaryKeyId selfs Hs).
    rewrite (build_otherCertifications primaryKeyId others Ho).
    reflexivity.
Qed.

Lemma build_user_blocks (primaryKeyId : Keyid.t) (blocks : list (list Packet)) :
  Forall (user_block primaryKeyId) blocks ->
  exists usrs,
    List.length usrs = List.length blocks
    /\ List.concat (map User.toPacketlist usrs) = List.concat blocks
    /\ forall U S u s rest, exists u',
        Key.packetlist2structure (Key.mkBuilding pk R D U S u (Some primaryKeyId) s)
                                 (List.concat blocks ++ rest)
        = Key.packetlist2structure
            (Key.mkBuilding pk R D (U ++ usrs) S u' (Some primaryKeyId) s) rest.
Proof.
  induction 1 as [|block blocks Hb _ (usrs & Hlen & Hser & Hrun)].
  - exists []. repeat split. intros U S u s rest. exists u. rewrite app_nil_r. reflexivity.
  - destruct (build_user_block primaryKeyId block Hb) as (usr & Husr & Hrun1).
    exists (usr :: usrs). split; [simpl; congruence|]. split.
    + simpl. rewrite Husr, Hser. reflexivity.
    + intros U S u s rest. simpl. rewrite <- app_assoc, Hrun1.
      destruct (Hrun (U ++ [usr]) S true s rest) as (u' & ->).
      exists u'. rewrite <- app_assoc. reflexivity.
Qed.

(** After a subkey packet, subkey revocations and binding signatures go to
    that subkey. *)
Lemma build_subkey_revocations (revs : list Signature.t) :
  Forall (has_type enums.signature.subkey_revocation) revs ->
  forall U S u id rest k bindings revs0,
    Key.packetlist2structure
      (Key.mkBuilding pk R D U (S ++ [SubKey.mk k bindings revs0]) u id true)
      (map SigPkt revs ++ rest)
    = Key.packetlist2structure
        (Key.mkBuilding pk R D U (S ++ [SubKey.mk k bindings (revs0 ++ revs)]) u id true) rest.
Proof.
  induction 1 as [|x revs Hx _ IH]; intros U S u id rest k bindings revs0; simpl.
  - rewrite app_nil_r. reflexivity.
  - rewrite Hx. unfold Key.with_subKeys. simpl. rewrite update_last_app.
    unfold Key.push_subkeyRevocation. simpl. rewrite IH, <- app_assoc. reflexivity.
Qed.

Lemma build_bindingSignatures (sigs : list Signature.t) :
  Forall (has_type enums.signature.subkey_binding) sigs ->
  forall U S u id rest k bindings revs,
    Key.packetlist2structure
      (Key.mkBuilding pk R D U (S ++ [SubKey.mk k bindings revs]) u id true)
      (map SigPkt sigs ++ rest)
    = Key.packetlist2structure
        (Key.mkBuilding pk R D U (S ++ [SubKey.mk k (bindings ++ sigs) revs]) u id true) rest.
Proof.
  induction 1 as [|x sigs Hx _ IH]; intros U S u id rest k bindings revs; simpl.
  - rewrite app_nil_r. reflexivity.
  - rewrite Hx. unfold Key.with_subKeys. simpl. rewrite update_last_app.
    unfold Key.push_bindingSignature. simpl. rewrite IH, <- app_assoc. reflexivity.
Qed.

Lemma build_subkey_block (block : list Packet) :
  subkey_block block ->
  exists sk,
    SubKey.toPacketlist sk = block
    /\ forall U S u id s rest,
      Key.packetlist2structure (Key.mkBuilding pk R D U S u id s) (block ++ rest)
      = Key.packetlist2structure (Key.mkBuilding pk R D U (S ++ [sk]) false id true) rest.
Proof.
  intros [k revs bindings Hk Hr Hb].
  exists (SubKey.mk k bindings revs). split.
  - unfold SubKey.toPacketlist. simpl. rewrite map_app. reflexivity.
  - intros U S u id s rest.
    rewrite map_app, <- app_comm_cons, <- app_assoc.
    transitivity
      (Key.packetlist2structure
         (Key.mkBuilding pk R D U (S ++ [SubKey.new k]) false id true)
         (map SigPkt revs ++ map SigPkt bindings ++ rest)).
    { unfold is_subkey in Hk. simpl. unfold KeyPacket.tag.
      destruct (KeyPacket.proto k); try discriminate Hk; reflexivity. }
    unfold SubKey.new.
    rewrite (build_subkey_revocations revs Hr), (build_bindingSignatures bindings Hb).
    reflexivity.
Qed.

Lemma build_subkey_blocks (blocks : list (list Packet)) :
  Forall subkey_block blocks ->
  exists sks,
    List.concat (map SubKey.toPacketlist sks) = List.concat blocks
    /\ forall U S u id s rest, exists u' s',
        Key.packetlist2structure (Key.mkBuilding pk R D U S u id s)
                                 (List.concat blocks ++ rest)
        = Key.packetlist2structure (Key.mkBuilding pk R D U (S ++ sks) u' id s') rest.
Proof.
  induction 1 as [|block blocks Hb _ (sks & Hser & Hrun)].
  - exists []. split; [reflexivity|]. intros U S u id s rest. exists u, s.
    rewrite app_nil_r. reflexivity.
  - destruct (build_subkey_block block Hb) as (sk & Hsk & Hrun1).
    exists (sk :: sks). split.
    + cbn [map List.concat]. rewrite Hsk, Hser. reflexivity.
    + intros U S u id s rest. cbn [List.concat]. rewrite <- app_assoc, Hrun1.
      destruct (Hrun U (S ++ [sk]) false id true rest) as (u' & s' & ->).
      exists u', s'. rewrite <- app_assoc. reflexivity.
Qed.

End Blocks.

(** C4. Building a Key from a well-formed packet sequence (one primary key
    packet, at least one user, packets in the canonical order) and
    serializing it with toPacketlist yields the sequence again. *)
Theorem toPacketlist_new_roundtrip (p : list Packet) :
  well_formed p ->
  exists key, Key.new p = Ok key /\ Key.toPacketlist key = p.
Proof.
  intros (k & revs & directs & ublocks & sblocks & Hk & Hr & Hd & Hne & Hu & Hs & ->).
  destruct (build_user_blocks (Some k) revs directs (KeyPacket.getKeyId k) ublocks Hu)
    as (usrs & Hlen & Huser & Hurun).
  destruct (build_subkey_blocks (Some k) revs directs sblocks Hs) as (sks & Hsub & Hsrun).
  assert (Hstart : forall rest,
             Key.packetlist2structure Key.empty (KeyPkt k :: rest)
             = Key.packetlist2structure
                 (Key.mkBuilding (Some k) [] [] [] [] false (Some (KeyPacket.getKeyId k)) false)
                 rest).
  { intros rest. unfold is_primary in Hk. simpl. unfold KeyPacket.tag.
    destruct (KeyPacket.proto k); try discriminate Hk; reflexivity. }
  destruct (Hurun [] [] false false (List.concat sblocks)) as (u1 & Hrun1).
  destruct (Hsrun ([] ++ usrs) [] u1 (Some (KeyPacket.getKeyId k)) false [])
    as (u2 & s2 & Hrun2).
  rewrite app_nil_r in Hrun2.
  assert (Hbuilt :
            Key.packetlist2structure Key.empty
              (KeyPkt k :: map SigPkt revs ++ map SigPkt directs
                        ++ List.concat ublocks ++ List.concat sblocks)
            = Ok (Key.mkBuilding (Some k) revs directs usrs sks u2
                                 (Some (KeyPacket.getKeyId k)) s2)).
  { rewrite Hstart.
    rewrite (build_key_revocations (Some k) [] revs Hr).
    rewrite (build_direct_signatures (Some k) revs directs Hd).
    simpl app. rewrite Hrun1, Hrun2. reflexivity. }
  destruct usrs as [|usr usrs].
  { destruct ublocks; [contradiction | discriminate Hlen]. }
  eexists. split.
  - unfold Key.new. rewrite Hbuilt. simpl. reflexivity.
  - unfold Key.toPacketlist. simpl Key.primaryKey. simpl Key.revocationSignatures.
    simpl Key.directSignatures. simpl Key.users. simpl Key.subKeys.
    rewrite Huser, Hsub. reflexivity.
Qed.

(** *** A second primary key packet *)

Lemma update_last_nil {A} (f : A -> A) (l : list A) :
  Key.update_last f l = [] <-> l = [].
Proof.
  destruct l as [|a [|b l]]; simpl; split; intros H; try reflexivity; discriminate H.
Qed.

Ltac step_cases H :=
  unfold Key.step in H;
  repeat match type of H with
         | context [match ?x with _ => _ end] => destruct x eqn:?; simpl in H
         end;
  try discriminate H; try (injection H as H; subst).

(** Once [primaryKeyId] is set, an iteration of the builder does not throw
    and leaves it set. *)
Lemma step_runs (b : Key.building) (p : Packet) (id : Keyid.t) :
  Key.local_primaryKeyId b = Some id ->
  exists b' id', Key.step b p = Ok b' /\ Key.local_primaryKeyId b' = Some id'.
Proof.
  intros Hid. unfold Key.step.
  destruct p as [k|u|a|s|n]; simpl; try rewrite Hid;
    repeat match goal with
           | |- context [match ?x with _ => _ end] => destruct x; simpl
           end;
    (eexists _, _; split; [reflexivity | simpl; first [reflexivity | eassumption]]).
Qed.

Lemma packetlist2structure_runs (l : list Packet) (b : Key.building) (id : Keyid.t) :
  Key.local_primaryKeyId b = Some id ->
  exists b', Key.packetlist2structure b l = Ok b'.
Proof.
  revert b id. induction l as [|p l IH]; intros b id Hid; simpl.
  - eauto.
  - destruct (step_runs b p id Hid) as (b' & id' & -> & Hid'). eapply IH; eassumption.
Qed.

(** Only a primary key packet assigns [primaryKey]. *)
Lemma step_primaryKey (b b' : Key.building) (p : Packet) :
  Key.step b p = Ok b' -> is_primary_packet p = false ->
  Key.b_primaryKey b' = Key.b_primaryKey b.
Proof.
  intros H Hp. destruct p as [k|u|a|s|n]; simpl in Hp.
  - unfold Key.step, KeyPacket.tag in H. unfold is_primary in Hp.
    destruct (KeyPacket.proto k); try discriminate Hp; injection H as <-; reflexivity.
  - injection H as <-; reflexivity.
  - injection H as <-; reflexivity.
  - step_cases H; reflexivity.
  - injection H as <-; reflexivity.
Qed.

Lemma packetlist2structure_primaryKey (l : list Packet) (b b' : Key.building) :
  Key.packetlist2structure b l = Ok b' ->
  forallb (fun p => negb (is_primary_packet p)) l = true ->
  Key.b_primaryKey b' = Key.b_primaryKey b.
Proof.
  revert b. induction l as [|p l IH]; intros b H Hl; simpl in *.
  - injection H as <-. reflexivity.
  - apply andb_prop in Hl. destruct Hl as [Hp Hl]. apply negb_true_iff in Hp.
    destruct (Key.step b p) as [b1|] eqn:Hstep; [|discriminate H].
    rewrite (IH b1 H Hl). eapply step_primaryKey; eassumption.
Qed.

(** [users] is empty after an iteration exactly when it was empty before
    and the packet is no user packet. *)
Lemma step_users (b b' : Key.building) (p : Packet) :
  Key.step b p = Ok b' ->
  (Key.b_users b' = [] <-> Key.b_users b = [] /\ is_user_packet p = false).
Proof.
  intros H. destruct p as [k|u|a|s|n]; simpl.
  - step_cases H; simpl; tauto.
  - injection H as <-. simpl. split; [intros H0; destruct (Key.b_users b); discriminate H0
                                     | intros [_ H0]; discriminate H0].
  - injection H as <-. simpl. split; [intros H0; destruct (Key.b_users b); discriminate H0
                                     | intros [_ H0]; discriminate H0].
  - step_cases H; simpl; rewrite ?update_last_nil; tauto.
  - injection H as <-. tauto.
Qed.

Lemma packetlist2structure_users (l : list Packet) (b b' : Key.building) :
  Key.packetlist2structure b l = Ok b' ->
  (Key.b_users b' = [] <-> Key.b_users b = [] /\ existsb is_user_packet l = false).
Proof.
  revert b. induction l as [|p l IH]; intros b H; simpl in *.
  - injection H as <-. tauto.
  - destruct (Key.step b p) as [b1|] eqn:Hstep; [|discriminate H].
    rewrite (IH b1 H), (step_users b b1 p Hstep), orb_false_iff. tauto.
Qed.

(** C3, as the code has it. A second PublicKey or SecretKey packet raises
    no error: in a sequence that starts with a primary key packet, the last
    primary key packet becomes [primaryKey], and the constructor throws
    only for want of a user packet. *)
Theorem second_primary_key_replaces_first (k1 k2 : KeyPacket.t) (mid post : list Packet) :
  is_primary k1 = true ->
  is_primary k2 = true ->
  forallb (fun p => negb (is_primary_packet p)) post = true ->
  (existsb is_user_packet (mid ++ post) = true ->
   exists key, Key.new (KeyPkt k1 :: mid ++ KeyPkt k2 :: post) = Ok key
               /\ Key.primaryKey key = k2)
  /\ (existsb is_user_packet (mid ++ post) = false ->
      Key.new (KeyPkt k1 :: mid ++ KeyPkt k2 :: post) = Throw InvalidKey).
Proof.
  intros H1 H2 Hpost.
  assert (Hstart : Key.step Key.empty (KeyPkt k1)
                   = Ok (Key.mkBuilding (Some k1) [] [] [] [] false
                                        (Some (KeyPacket.getKeyId k1)) false)).
  { unfold is_primary in H1. unfold Key.step, KeyPacket.tag.
    destruct (KeyPacket.proto k1); try discriminate H1; reflexivity. }
  destruct (packetlist2structure_runs mid
              (Key.mkBuilding (Some k1) [] [] [] [] false (Some (KeyPacket.getKeyId k1)) false)
              _ eq_refl) as (bm & Hmid).
  assert (Hk2 : forall b, Key.step b (KeyPkt k2)
                          = Ok (Key.mkBuilding (Some k2) (Key.b_revocationSignatures b)
                                  (Key.b_directSignatures b) (Key.b_users b) (Key.b_subKeys b)
                                  (Key.local_user b) (Some (KeyPacket.getKeyId k2))
                                  (Key.local_subKey b))).
  { intros b. unfold is_primary in H2. unfold Key.step, KeyPacket.tag.
    destruct (KeyPacket.proto k2); try discriminate H2; reflexivity. }
  destruct (packetlist2structure_runs post
              (Key.mkBuilding (Some k2) (Key.b_revocationSignatures bm)
                 (Key.b_directSignatures bm) (Key.b_users bm) (Key.b_subKeys bm)
                 (Key.local_user bm) (Some (KeyPacket.getKeyId k2)) (Key.local_subKey bm))
              _ eq_refl) as (bp & Hrun).
  assert (Hall : Key.packetlist2structure Key.empty (KeyPkt k1 :: mid ++ KeyPkt k2 :: post)
                 = Ok bp).
  { cbn [Key.packetlist2structure]. rewrite Hstart, packetlist2structure_app, Hmid.
    cbn [Key.packetlist2structure]. rewrite Hk2. exact Hrun. }
  assert (Hpk : Key.b_primaryKey bp = Some k2).
  { rewrite (packetlist2structure_primaryKey post _ bp Hrun Hpost). reflexivity. }
  assert (Husers : Key.b_users bp = [] <-> existsb is_user_packet (mid ++ post) = false).
  { rewrite (packetlist2structure_users post _ bp Hrun). cbn [Key.b_users].
    rewrite (packetlist2structure_users mid _ bm Hmid). cbn [Key.b_users].
    rewrite existsb_app, orb_false_iff. tauto. }
  unfold Key.new. rewrite Hall, Hpk. split; intros Hu.
  - destruct (Key.b_users bp) as [|usr usrs] eqn:Hbu.
    + destruct Husers as [Husers _]. rewrite (Husers eq_refl) in Hu. discriminate Hu.
    + eexists. split; reflexivity.
  - destruct Husers as [_ Husers]. rewrite (Husers Hu). reflexivity.
Qed.

(** ** The order on stores by the [verified] flags *)

Lemma verified_le_refl (st : Store) : verified_le st st.
Proof. intros i H. exact H. Qed.

Lemma verified_le_trans (st1 st2 st3 : Store) :
  verified_le st1 st2 -> verified_le st2 st3 -> verified_le st1 st3.
Proof. intros H12 H23 i H. apply H23, H12, H. Qed.

(** ** Expiration of a version 4 key *)

(** What isDataExpired computes for a version 4 key under a signature with
    [keyNeverExpires === false]: the window runs from the creation time of
    the key to [keyExpirationTime] seconds after the creation time of the
    signature. *)
Lemma isDataExpired_version4 {E : Externals} (keyPacket : KeyPacket.t)
      (signature : Signature.t) (t : Z) :
  KeyPacket.version keyPacket = 4 ->
  Signature.keyNeverExpires signature = Some false ->
  Signature.created signature + toNumber (Signature.keyExpirationTime signature) * 1000 <> 0 ->
  isDataExpired keyPacket (Some signature) (Some t)
  = Ok (negb ((KeyPacket.created keyPacket <=? t / 1000 * 1000)
              && (t / 1000 * 1000
                  <? Signature.created signature
                     + toNumber (Signature.keyExpirationTime signature) * 1000))
        || sig_isExpired signature (Some t)).
Proof.
  intros Hv Hn He. unfold isDataExpired, getExpirationTime. simpl.
  rewrite Hv, Hn. simpl.
  destruct (Z.eqb_spec (Signature.created signature
                        + toNumber (Signature.keyExpirationTime signature) * 1000) 0)
    as [H0|_]; [contradiction | reflexivity].
Qed.

(** ** Evaluation on sample keys *)

Lemma run_eval_exec {A} (m : M A) (st : Store) (a : A) :
  eval m st = Ok a -> m st = Ok (a, exec m st).
Proof.
  unfold eval, exec. destruct (m st) as [[b st']|e]; intros H; inversion H; reflexivity.
Qed.

Section Reference.
#[local] Existing Instance reference.
Import sample.

(** C1. On two subkeys with one binding signature each, both issued by
    "K": when the source binding is the earlier one (created 100 s against
    200 s), SubKey.update replaces the destination's binding by it, so the
    earlier binding is the one retained; when the source binding is the
    later one (300 s), both bindings remain. *)
Theorem SubKey_update_keeps_earlier_binding :
  eval (SubKey.update (subkey_with [binding_200]) (subkey_with [binding_100]) primary) fresh
  = Ok (subkey_with [binding_100])
  /\ eval (SubKey.update (subkey_with [binding_200]) (subkey_with [binding_300]) primary) fresh
     = Ok (subkey_with [binding_200; binding_300]).
Proof. split; vm_compute; reflexivity. Qed.

(** C2. getPrimaryUser returns the least candidate, not the greatest: of
    two valid self-certifications it returns the earlier one, of weights 0
    and 1 the one of weight 0; and on a key whose first user is a
    UserAttribute it returns nothing although the next user has a valid
    self-certification. *)
Theorem getPrimaryUser_returns_least_candidate :
  eval (Key.getPrimaryUser key_two_certs (Some now)) fresh
  = Ok (Some (Key.mkPrimaryUser 0 user_alice cert_early))
  /\ eval (Key.getPrimaryUser key_weights (Some now)) fresh
     = Ok (Some (Key.mkPrimaryUser 0 (User.mk (Some alice) None [cert_weight0] [] [])
                                   cert_weight0))
  /\ eval (Key.getPrimaryUser key_attribute_first (Some now)) fresh = Ok None.
Proof. repeat split; vm_compute; reflexivity. Qed.

(** C3, counterexample. A sequence with a second primary key packet is
    accepted, and the Key built from it has the second packet as its
    primary key. *)
Lemma second_primary_key_is_accepted :
  Key.new packets_two_primaries
  = Ok (Key.mk other_primary [] [] [User.mk (Some alice) None [cert_early] [] []] []).
Proof. vm_compute. reflexivity. Qed.

(** C6. For a full Key whose signing key packet is an ECDSA key on p521
    (preferred hash sha512, 64 bytes) and whose otherwise-chosen hash is
    sha256 (32 bytes), getPreferredHashAlgo returns sha256; for the key
    packet itself it returns sha512. *)
Theorem getPreferredHashAlgo_ignores_curve_of_Key :
  eval (Key.getSigningKeyPacket key_ecc None None) fresh = Ok (Some ecc_primary)
  /\ curves.getPreferredHashAlgo (KeyPacket.params0 ecc_primary)
     = Ok (Some (enums_hash enums.hash.sha512))
  /\ (getHashByteLength (Some (enums_hash enums.hash.sha256))
      <= getHashByteLength (Some (enums_hash enums.hash.sha512)))
  /\ eval (getPreferredHashAlgo (AKey key_ecc)) fresh
     = Ok (Some (enums_hash enums.hash.sha256))
  /\ eval (getPreferredHashAlgo (AKeyPacket ecc_primary)) fresh
     = Ok (Some (enums_hash enums.hash.sha512)).
Proof. repeat split; vm_compute; try reflexivity; discriminate. Qed.

(** C7. For one key whose primary user prefers the symmetric algorithm 0
    (plaintext), getPreferredSymAlgo returns plaintext. *)
Theorem getPreferredSymAlgo_returns_plaintext :
  eval (getPreferredSymAlgo [key_prefers_plaintext]) fresh
  = Ok (enums_symmetric enums.symmetric.plaintext).
Proof. vm_compute. reflexivity. Qed.

(** C8. A version 4 key created at time 0 whose self-certification was
    made 1000 s later with keyExpirationTime = 3600 s is not expired 3600 s
    after its creation; it is 3600 s after the creation of the
    self-certification. *)
Theorem isDataExpired_counts_from_signature :
  KeyPacket.created primary = 0
  /\ sig_isExpired cert_expiring (Some 3600000) = false
  /\ isDataExpired primary (Some cert_expiring) (Some 3599000) = Ok false
  /\ isDataExpired primary (Some cert_expiring) (Some 3600000) = Ok false
  /\ isDataExpired primary (Some cert_expiring) (Some 4599000) = Ok false
  /\ isDataExpired primary (Some cert_expiring) (Some 4600000) = Ok true.
Proof. repeat split; vm_compute; reflexivity. Qed.

(** C9. Key.update into a destination without revocation signatures takes
    over the revocation signatures of the source as they are: a revocation
    that is expired now and that does not verify over the destination's
    primary key, and the same revocation twice. Into a destination that
    carries a revocation signature, the same source revocation is not
    merged. *)
Theorem update_adopts_unchecked_revocation :
  eval (Key.update key_plain key_bad_revocation) fresh
  = Ok (Key.mk primary [revocation_bad] [] [user_alice] [])
  /\ eval (Key.update key_plain key_bad_revocation_twice) fresh
     = Ok (Key.mk primary [revocation_bad; revocation_bad] [] [user_alice] [])
  /\ eval (Key.update key_revoked_old key_bad_revocation) fresh
     = Ok (Key.mk primary [revocation_old] [] [user_alice] [])
  /\ Key.revocationSignatures key_plain = []
  /\ sig_isExpired revocation_bad (Some now) = true
  /\ sig_verify (Key.primaryKey key_plain)
                {| Data.key := Some (Key.primaryKey key_plain);
                   Data.userid := None; Data.bind := None |}
                revocation_bad = false.
Proof. repeat split; vm_compute; reflexivity. Qed.

(** *** Instances of the general theorems *)

(** The sequence [packets_two_primaries] yields a Key whose primary key is
    the second primary key packet. *)
Lemma second_primary_key_replaces_first_witness :
  is_primary primary = true
  /\ is_primary other_primary = true
  /\ forallb (fun p => negb (is_primary_packet p)) [] = true
  /\ exists key, Key.new packets_two_primaries = Ok key /\ Key.primaryKey key = other_primary.
Proof.
  split; [reflexivity|]. split; [reflexivity|]. split; [reflexivity|].
  apply (proj1 (second_primary_key_replaces_first primary other_primary
                  [UseridPkt alice; SigPkt cert_early] [] eq_refl eq_refl eq_refl)).
  reflexivity.
Defined.

(** The sample sequence is in canonical order. *)
Lemma packets_well_formed : well_formed packets.
Proof.
  exists primary, [revocation_good], [direct],
    [[UseridPkt alice; SigPkt cert_early; SigPkt cert_third_party]; [UserAttributePkt photo]],
    [[KeyPkt subkey; SigPkt binding_200]].
  split; [reflexivity|]. split; [repeat constructor|].
  split; [repeat constructor; left; reflexivity|].
  split; [discriminate|]. split; [|split; [|reflexivity]].
  - constructor; [|constructor; [|constructor]].
    + apply (user_block_intro _ (IsUserid alice) [] [cert_early] [cert_third_party]);
        repeat constructor.
    + apply (user_block_intro _ (IsUserAttribute photo) [] [] []); constructor.
  - constructor; [|constructor].
    apply (subkey_block_intro subkey [] [binding_200]); repeat constructor.
Defined.

(** The sample sequence survives the round trip. *)
Lemma toPacketlist_new_roundtrip_witness :
  well_formed packets
  /\ exists key, Key.new packets = Ok key /\ Key.toPacketlist key = packets.
Proof.
  split; [exact packets_well_formed|].
  apply (toPacketlist_new_roundtrip packets packets_well_formed).
Defined.

(** Both selectors return the RSA primary key of [key_two_certs]. *)
Lemma selectors_respect_algorithm_witness :
  Key.getSigningKeyPacket key_two_certs None (Some now) fresh
  = Ok (Some primary, exec (Key.getSigningKeyPacket key_two_certs None (Some now)) fresh)
  /\ Key.getEncryptionKeyPacket key_two_certs None (Some now) fresh
     = Ok (Some primary, exec (Key.getEncryptionKeyPacket key_two_certs None (Some now)) fresh)
  /\ (KeyPacket.algorithm primary <> enums.publicKey.rsa_encrypt
      /\ KeyPacket.algorithm primary <> enums.publicKey.elgamal
      /\ KeyPacket.algorithm primary <> enums.publicKey.ecdh)
  /\ (KeyPacket.algorithm primary <> enums.publicKey.dsa
      /\ KeyPacket.algorithm primary <> enums.publicKey.rsa_sign
      /\ KeyPacket.algorithm primary <> enums.publicKey.ecdsa
      /\ KeyPacket.algorithm primary <> enums.publicKey.eddsa).
Proof.
  assert (Hs : Key.getSigningKeyPacket key_two_certs None (Some now) fresh
               = Ok (Some primary,
                     exec (Key.getSigningKeyPacket key_two_certs None (Some now)) fresh)).
  { apply run_eval_exec. vm_compute. reflexivity. }
  assert (He : Key.getEncryptionKeyPacket key_two_certs None (Some now) fresh
               = Ok (Some primary,
                     exec (Key.getEncryptionKeyPacket key_two_certs None (Some now)) fresh)).
  { apply run_eval_exec. vm_compute. reflexivity. }
  split; [exact Hs|]. split; [exact He|]. split.
  - exact (proj1 (selectors_respect_algorithm key_two_certs None (Some now) fresh _ primary) Hs).
  - exact (proj2 (selectors_respect_algorithm key_two_certs None (Some now) fresh _ primary) He).
Defined.

(** A certification that is flagged revoked stays so without any
    candidate revocation. *)
Lemma isDataRevoked_never_unrevokes_witness :
  revoked (update fresh 1 {| verified := false; revoked := Some true |}
                  (Signature.id cert_early)) = Some true
  /\ exists st',
      isDataRevoked primary
        {| Data.key := Some primary; Data.userid := Some (IsUserid alice); Data.bind := None |}
        [] (Some cert_early) None (Some now)
        (update fresh 1 {| verified := false; revoked := Some true |})
      = Ok (Some true, st')
      /\ revoked (st' (Signature.id cert_early)) = Some true.
Proof.
  split; [reflexivity|].
  apply (proj1 (isDataRevoked_never_unrevokes primary
                  {| Data.key := Some primary; Data.userid := Some (IsUserid alice);
                     Data.bind := None |}
                  [] cert_early None (Some now)
                  (update fresh 1 {| verified := false; revoked := Some true |})
                  eq_refl)).
Defined.

End Reference.

(** * Further properties *)

(** ** Relations on stores that every operation respects *)

Section Preserved.
Context {E : Externals}.
Variable R : Store -> Store -> Prop.
Hypothesis R_refl : forall st, R st st.
Hypothesis R_trans : forall st1 st2 st3, R st1 st2 -> R st2 st3 -> R st1 st3.
Hypothesis R_verify : forall st i b,
    verified (st i) = false ->
    R st (update st i {| verified := b; revoked := revoked (st i) |}).
Hypothesis R_revoke : forall st i,
    R st (update st i {| verified := verified (st i); revoked := Some true |}).
Hypothesis R_keep : forall st i,
    R st (update st i {| verified := verified (st i); revoked := revoked (st i) |}).

Lemma preserves_ret {A} (a : A) : preserves R (ret a).
Proof. intros st b st' H. inv_run. apply R_refl. Qed.

Lemma preserves_throw {A} (e : Error) : preserves R (@throw A e).
Proof. intros st b st' H. inv_run. Qed.

Lemma preserves_lift {A} (r : Result A) : preserves R (lift r).
Proof. intros st b st' H. inv_run. apply R_refl. Qed.

Lemma preserves_bind {A B} (m : M A) (f : A -> M B) :
  preserves R m -> (forall a, preserves R (f a)) -> preserves R (bind m f).
Proof.
  intros Hm Hf st b st' H. inv_run.
  eapply R_trans; [eapply Hm | eapply Hf]; eassumption.
Qed.

Lemma preserves_get_verified (s : Signature.t) : preserves R (get_verified s).
Proof. intros st b st' H. injection H as _ <-. apply R_refl. Qed.

Lemma preserves_get_revoked (s : Signature.t) : preserves R (get_revoked s).
Proof. intros st b st' H. injection H as _ <-. apply R_refl. Qed.

Lemma preserves_verified_or_verify (s : Signature.t) (key : KeyPacket.t) (data : Data.t) :
  preserves R (verified_or_verify s key data).
Proof.
  intros st b st' H. unfold verified_or_verify in H.
  apply bind_inv in H as (v & st1 & Hv & H). injection Hv as <- <-.
  destruct (verified (st (Signature.id s))) eqn:Hflag.
  - apply ret_inv in H as [_ ->]. apply R_refl.
  - unfold Signature_verify, set_verified in H.
    apply bind_inv in H as (u & st2 & Hs & H). injection Hs as _ <-.
    apply ret_inv in H as [_ ->]. apply R_verify, Hflag.
Qed.

Create HintDb pres.
Hint Resolve preserves_ret preserves_throw preserves_lift preserves_get_verified
  preserves_get_revoked preserves_verified_or_verify : pres.

Ltac pres :=
  repeat match goal with
         | |- preserves _ (bind _ _) => apply preserves_bind; [|intros ?]
         | |- forall _, _ => intros ?
         | |- preserves _ (if ?b then _ else _) => destruct b
         | |- preserves _ (match ?x with _ => _ end) => destruct x
         end;
  auto with pres.

Lemma preserves_revocationKeyIds (key : KeyPacket.t) (data : Data.t) (normDate : option Z)
      (revocations : list Signature.t) :
  preserves R (revocationKeyIds key data normDate revocations).
Proof. induction revocations; simpl; pres. Qed.

Lemma preserves_isDataRevoked (primaryKey : KeyPacket.t) (data : Data.t)
      (revocations : list Signature.t) (signature : option Signature.t)
      (key : option KeyPacket.t) (date : option Z) :
  preserves R (isDataRevoked primaryKey data revocations signature key date).
Proof.
  unfold isDataRevoked. apply preserves_bind; [apply preserves_revocationKeyIds | intros ids].
  destruct signature as [s|]; [|pres].
  intros st b st' H. unfold get_revoked, set_revoked in H.
  apply bind_inv in H as (old & st1 & Ho & H). injection Ho as <- <-.
  apply bind_inv in H as (u & st2 & Hs & H). injection Hs as _ <-.
  apply ret_inv in H as [_ ->].
  destruct (existsb _ ids); [apply R_revoke | apply R_keep].
Qed.

Hint Resolve preserves_revocationKeyIds preserves_isDataRevoked : pres.

Lemma preserves_mergeSignatures_checks (checkFn : option CheckFn)
      (source : list Signature.t) :
  (forall f, checkFn = Some f -> forall s d, preserves R (f s d)) ->
  forall dest, preserves R (mergeSignatures_checks checkFn source dest).
Proof.
  intros Hf. induction source as [|s source IH]; intros dest; simpl.
  - pres.
  - destruct (sig_isExpired s (Some now)); [apply IH|].
    apply preserves_bind.
    + destruct checkFn as [f|]; [eapply Hf; reflexivity | pres].
    + intros [ok dest']. apply preserves_bind; [apply IH | intros r; pres].
Qed.

Lemma preserves_mergeSignatures (source dest : list Signature.t) (checkFn : option CheckFn) :
  (forall f, checkFn = Some f -> forall s d, preserves R (f s d)) ->
  preserves R (mergeSignatures source dest checkFn).
Proof.
  intros Hf. unfold mergeSignatures. destruct dest as [|d0 dest]; [pres|].
  unfold mergeSignatures_each.
  apply preserves_bind; [apply preserves_mergeSignatures_checks, Hf | intros r; pres].
Qed.

Lemma preserves_check (f : Signature.t -> M bool) :
  (forall s, preserves R (f s)) -> forall s d, preserves R (check f s d).
Proof. intros Hf s d. unfold check. pres. Qed.

Lemma preserves_User_isRevoked (this : User.t) (primaryKey : KeyPacket.t)
      (certificate : option Signature.t) (key : option KeyPacket.t) (date : option Z) :
  preserves R (User.isRevoked this primaryKey certificate key date).
Proof. unfold User.isRevoked. pres. Qed.

Lemma preserves_User_update (this user : User.t) (primaryKey : KeyPacket.t) :
  preserves R (User.update this user primaryKey).
Proof.
  unfold User.update.
  repeat (apply preserves_bind;
          [apply preserves_mergeSignatures; intros f Hf; try discriminate Hf;
           injection Hf as <-; apply preserves_check; intros; pres
          | intros ?]).
  pres.
Qed.

Hint Resolve preserves_User_isRevoked preserves_User_update : pres.

Lemma preserves_verify_selfCertification (this : User.t) (primaryKey : KeyPacket.t)
      (data : Data.t) (c : Signature.t) :
  preserves R (User.verify_selfCertification this primaryKey data c).
Proof. unfold User.verify_selfCertification. pres. Qed.

Hint Resolve preserves_verify_selfCertification : pres.

Lemma preserves_verify_selfCertifications (this : User.t) (primaryKey : KeyPacket.t)
      (data : Data.t) (l : list Signature.t) :
  preserves R (User.verify_selfCertifications this primaryKey data l).
Proof. induction l; simpl; pres. Qed.

Hint Resolve preserves_verify_selfCertifications : pres.

Lemma preserves_User_verify (this : User.t) (primaryKey : KeyPacket.t) :
  preserves R (User.verify this primaryKey).
Proof. unfold User.verify. pres. Qed.

Lemma preserves_SubKey_isRevoked (this : SubKey.t) (primaryKey : KeyPacket.t)
      (signature : option Signature.t) (key : option KeyPacket.t) (date : option Z) :
  preserves R (SubKey.isRevoked this primaryKey signature key date).
Proof. unfold SubKey.isRevoked. pres. Qed.

Hint Resolve preserves_SubKey_isRevoked : pres.

Lemma preserves_verify_binding (this : SubKey.t) (primaryKey : KeyPacket.t) (data : Data.t)
      (date : option Z) (b : Signature.t) :
  preserves R (SubKey.verify_binding this primaryKey data date b).
Proof. unfold SubKey.verify_binding. pres. Qed.

Hint Resolve preserves_verify_binding : pres.

Lemma preserves_verify_bindings (this : SubKey.t) (primaryKey : KeyPacket.t) (data : Data.t)
      (date : option Z) (l : list Signature.t) :
  preserves R (SubKey.verify_bindings this primaryKey data date l).
Proof. induction l; simpl; pres. Qed.

Hint Resolve preserves_verify_bindings : pres.

Lemma preserves_SubKey_verify (this : SubKey.t) (primaryKey : KeyPacket.t) (date : option Z) :
  preserves R (SubKey.verify this primaryKey date).
Proof. unfold SubKey.verify. pres. Qed.

Hint Resolve preserves_User_verify preserves_SubKey_verify : pres.

Lemma preserves_SubKey_update (this subKey' : SubKey.t) (primaryKey : KeyPacket.t) :
  preserves R (SubKey.update this subKey' primaryKey).
Proof.
  unfold SubKey.update.
  apply preserves_bind; [pres | intros status].
  destruct (keyStatus_eq status _); [pres|].
  destruct (negb _); [pres|].
  apply preserves_bind.
  - apply preserves_mergeSignatures. intros f Hf. injection Hf as <-. intros s d. pres.
  - intros bindings. apply preserves_bind; [|pres].
    apply preserves_mergeSignatures. intros f Hf. injection Hf as <-.
    apply preserves_check. intros. pres.
Qed.

Hint Resolve preserves_SubKey_update : pres.

Lemma preserves_getPrimaryUser_cert (pk : KeyPacket.t) (date : option Z) (i : nat)
      (u : User.t) (uid : Userid.t) (acc : Key.scan) (c : Signature.t) :
  preserves R (Key.getPrimaryUser_cert pk date i u uid acc c).
Proof. unfold Key.getPrimaryUser_cert. pres. Qed.

Hint Resolve preserves_getPrimaryUser_cert : pres.

Lemma preserves_getPrimaryUser_certs (pk : KeyPacket.t) (date : option Z) (i : nat)
      (u : User.t) (uid : Userid.t) (l : list Signature.t) (acc : Key.scan) :
  preserves R (Key.getPrimaryUser_certs pk date i u uid acc l).
Proof. revert acc. induction l; intros acc; simpl; pres. Qed.

Hint Resolve preserves_getPrimaryUser_certs : pres.

Lemma preserves_getPrimaryUser_users (pk : KeyPacket.t) (date : option Z)
      (l : list User.t) (i : nat) (acc : Key.scan) :
  preserves R (Key.getPrimaryUser_users pk date i acc l).
Proof.
  revert i acc. induction l as [|u l IH]; intros i acc; simpl; [pres|].
  destruct (User.userId u); [|pres].
  apply preserves_bind; [pres | intros acc'; apply IH].
Qed.

Hint Resolve preserves_getPrimaryUser_users : pres.

Lemma preserves_getPrimaryUser (this : Key.t) (date : option Z) :
  preserves R (Key.getPrimaryUser this date).
Proof. unfold Key.getPrimaryUser. pres. Qed.

Hint Resolve preserves_getPrimaryUser : pres.

Lemma preserves_verifyPrimaryKey (this : Key.t) (date : option Z) :
  preserves R (Key.verifyPrimaryKey this date).
Proof. unfold Key.verifyPrimaryKey, Key.isRevoked. pres. Qed.

Hint Resolve preserves_verifyPrimaryKey : pres.

Lemma preserves_isValidSigningKeyPacket (keyPacket : KeyPacket.t) (signature : Signature.t)
      (date : option Z) :
  preserves R (isValidSigningKeyPacket keyPacket signature date).
Proof. unfold isValidSigningKeyPacket, signature_in_force. pres. Qed.

Lemma preserves_isValidEncryptionKeyPacket (keyPacket : KeyPacket.t) (signature : Signature.t)
      (date : option Z) :
  preserves R (isValidEncryptionKeyPacket keyPacket signature date).
Proof. unfold isValidEncryptionKeyPacket, signature_in_force. pres. Qed.

Section Selectors.
Variable isValid : KeyPacket.t -> Signature.t -> option Z -> M bool.
Hypothesis preserves_isValid : forall k s d, preserves R (isValid k s d).

Lemma preserves_primaryKey_serves (this : Key.t) (keyId : option Keyid.t) (date : option Z)
      (primaryUser : option Key.PrimaryUser) :
  preserves R (Key.primaryKey_serves isValid this keyId date primaryUser).
Proof. unfold Key.primaryKey_serves. pres. Qed.

Lemma preserves_some_binding (subKey : KeyPacket.t) (date : option Z)
      (l : list Signature.t) :
  preserves R (Key.some_binding isValid subKey date l).
Proof. induction l; simpl; pres. Qed.

Lemma preserves_first_subKey (primaryKey : KeyPacket.t) (keyId : option Keyid.t)
      (date : option Z) (l : list SubKey.t) :
  preserves R (Key.first_subKey isValid primaryKey keyId date l).
Proof.
  induction l as [|sk l IH]; simpl; [pres|].
  destruct (Key.matches keyId (SubKey.subKey sk)); [|exact IH].
  apply preserves_bind; [pres | intros ?].
  apply preserves_bind; [apply preserves_some_binding | intros found].
  destruct found; pres.
Qed.
End Selectors.

Lemma preserves_getSigningKeyPacket (this : Key.t) (keyId : option Keyid.t) (date : option Z) :
  preserves R (Key.getSigningKeyPacket this keyId date).
Proof.
  unfold Key.getSigningKeyPacket.
  apply preserves_bind; [pres | intros pu].
  apply preserves_bind;
    [apply preserves_primaryKey_serves, preserves_isValidSigningKeyPacket | intros ok].
  destruct ok; [pres|].
  apply preserves_first_subKey, preserves_isValidSigningKeyPacket.
Qed.

Lemma preserves_getEncryptionKeyPacket (this : Key.t) (keyId : option Keyid.t)
      (date : option Z) :
  preserves R (Key.getEncryptionKeyPacket this keyId date).
Proof.
  unfold Key.getEncryptionKeyPacket.
  apply preserves_bind;
    [apply preserves_first_subKey, preserves_isValidEncryptionKeyPacket | intros sub].
  destruct sub; [pres|].
  apply preserves_bind; [pres | intros pu].
  apply preserves_bind;
    [apply preserves_primaryKey_serves, preserves_isValidEncryptionKeyPacket | intros ok].
  destruct ok; pres.
Qed.

Lemma preserves_update_users (primaryKey : KeyPacket.t) (srcUsers dstUsers pushed : list User.t) :
  preserves R (Key.update_users primaryKey srcUsers dstUsers pushed).
Proof.
  assert (Hof : forall srcUser l, preserves R (Key.update_users_of primaryKey srcUser l)).
  { intros srcUser l. induction l; simpl; pres. }
  revert dstUsers pushed. induction srcUsers as [|u srcUsers IH]; intros dstUsers pushed; simpl.
  - pres.
  - apply preserves_bind; [apply Hof | intros r; apply IH].
Qed.

Lemma preserves_update_subKeys (primaryKey : KeyPacket.t)
      (srcSubKeys dstSubKeys pushed : list SubKey.t) :
  preserves R (Key.update_subKeys primaryKey srcSubKeys dstSubKeys pushed).
Proof.
  assert (Hof : forall srcSubKey l, preserves R (Key.update_subKeys_of primaryKey srcSubKey l)).
  { intros srcSubKey l. induction l; simpl; pres. }
  revert dstSubKeys pushed.
  induction srcSubKeys as [|k srcSubKeys IH]; intros dstSubKeys pushed; simpl.
  - pres.
  - apply preserves_bind; [apply Hof | intros r; apply IH].
Qed.

Lemma preserves_Key_update (this key : Key.t) : preserves R (Key.update this key).
Proof.
  unfold Key.update.
  apply preserves_bind; [pres | intros status].
  destruct (keyStatus_eq status _); [pres|].
  destruct (negb _); [pres|].
  apply preserves_bind; [pres | intros pk].
  apply preserves_bind.
  { apply preserves_mergeSignatures. intros f Hf. injection Hf as <-.
    unfold Key.update_checkRevocation. apply preserves_check. intros. pres. }
  intros revs. apply preserves_bind.
  { apply preserves_mergeSignatures. intros f Hf. discriminate Hf. }
  intros directs. apply preserves_bind; [apply preserves_update_users | intros us].
  apply preserves_bind; [apply preserves_update_subKeys | intros ks]. pres.
Qed.

Lemma preserves_getPreferredSymAlgo (l : list Key.t) : preserves R (getPreferredSymAlgo l).
Proof.
  assert (H : forall l m, preserves R (prioMap_of l m)).
  { clear l. intros l. induction l as [|k l IH]; intros m; simpl; [pres|].
    apply preserves_bind; [pres | intros pu].
    destruct pu as [pu|]; [|apply IH].
    destruct (Signature.preferredSymmetricAlgorithms _); apply IH. }
  unfold getPreferredSymAlgo. pres.
Qed.

End Preserved.

(** ** How the operations can end *)

Section Throws.
Variable P : Error -> Prop.

Lemma throws_only_ret {A} (a : A) : throws_only P (ret a).
Proof. intros st e H. discriminate H. Qed.

Lemma throws_only_throw {A} (e : Error) : P e -> throws_only P (@throw A e).
Proof. intros He st e' H. injection H as <-. exact He. Qed.

Lemma throws_only_lift {A} (r : Result A) :
  (forall e, r = Throw e -> P e) -> throws_only P (lift r).
Proof. intros Hr st e H. unfold lift in H. destruct r; [discriminate H|]. injection H as <-. auto. Qed.

Lemma throws_only_bind {A B} (m : M A) (f : A -> M B) :
  throws_only P m -> (forall a, throws_only P (f a)) -> throws_only P (bind m f).
Proof.
  intros Hm Hf st e H. unfold bind in H.
  destruct (m st) as [[a st1]|e1] eqn:Hrun.
  - eapply Hf; eassumption.
  - injection H as <-. eapply Hm; eassumption.
Qed.

Lemma throws_only_get_verified (s : Signature.t) : throws_only P (get_verified s).
Proof. intros st e H. discriminate H. Qed.

Lemma throws_only_get_revoked (s : Signature.t) : throws_only P (get_revoked s).
Proof. intros st e H. discriminate H. Qed.

Lemma throws_only_set_verified (s : Signature.t) (b : bool) : throws_only P (set_verified s b).
Proof. intros st e H. discriminate H. Qed.

Lemma throws_only_set_revoked (s : Signature.t) (r : option bool) :
  throws_only P (set_revoked s r).
Proof. intros st e H. discriminate H. Qed.

End Throws.

Lemma throws_only_never {A} (m : M A) : throws_only nothing m -> never_throws m.
Proof.
  intros H st. destruct (m st) as [[a st']|e] eqn:Hrun; [eauto|].
  destruct (H st e Hrun).
Qed.

Lemma throws_only_weaken {A} (P Q : Error -> Prop) (m : M A) :
  (forall e, P e -> Q e) -> throws_only P m -> throws_only Q m.
Proof. intros HPQ H st e Hrun. eauto. Qed.

Lemma getExpirationTime_Some (keyPacket : KeyPacket.t) (signature : Signature.t) :
  exists t, getExpirationTime keyPacket (Some signature) = Ok t.
Proof.
  unfold getExpirationTime.
  destruct (KeyPacket.version keyPacket =? 4); [|eauto].
  destruct (Signature.keyNeverExpires signature) as [[|]|]; eauto.
Qed.

Lemma isDataExpired_Some {E : Externals} (keyPacket : KeyPacket.t) (signature : Signature.t)
      (date : option Z) :
  exists x, isDataExpired keyPacket (Some signature) date = Ok x.
Proof.
  unfold isDataExpired. destruct (util.normalizeDate date); [|eauto].
  destruct (getExpirationTime_Some keyPacket signature) as [t ->]. eauto.
Qed.

Lemma isDataExpired_version3 {E : Externals} (keyPacket : KeyPacket.t) (date : option Z) :
  (KeyPacket.version keyPacket =? 3) = true ->
  exists x, isDataExpired keyPacket None date = Ok x.
Proof.
  intros H3. unfold isDataExpired, getExpirationTime.
  apply Z.eqb_eq in H3. rewrite H3. simpl.
  destruct (util.normalizeDate date); eauto.
Qed.

Section Total.
Context {E : Externals}.

Create HintDb total.
Hint Resolve throws_only_ret throws_only_get_verified throws_only_get_revoked
  throws_only_set_verified throws_only_set_revoked : total.

Ltac total :=
  repeat match goal with
         | |- throws_only _ (bind _ _) => apply throws_only_bind; [|intros ?]
         | |- forall _, _ => intros ?
         | |- throws_only _ (if ?b then _ else _) => destruct b
         | |- throws_only _ (match ?x with _ => _ end) => destruct x
         end;
  auto with total.

Lemma total_verified_or_verify (s : Signature.t) (key : KeyPacket.t) (data : Data.t) :
  throws_only nothing (verified_or_verify s key data).
Proof. unfold verified_or_verify, Signature_verify. total. Qed.

Hint Resolve total_verified_or_verify : total.

Lemma total_revocationKeyIds (key : KeyPacket.t) (data : Data.t) (normDate : option Z)
      (revocations : list Signature.t) :
  throws_only nothing (revocationKeyIds key data normDate revocations).
Proof. induction revocations; simpl; total. Qed.

Hint Resolve total_revocationKeyIds : total.

Lemma total_isDataRevoked (primaryKey : KeyPacket.t) (data : Data.t)
      (revocations : list Signature.t) (signature : option Signature.t)
      (key : option KeyPacket.t) (date : option Z) :
  throws_only nothing (isDataRevoked primaryKey data revocations signature key date).
Proof. unfold isDataRevoked. total. Qed.

Hint Resolve total_isDataRevoked : total.

Lemma total_isDataExpired_Some (keyPacket : KeyPacket.t) (signature : Signature.t)
      (date : option Z) :
  throws_only nothing (lift (isDataExpired keyPacket (Some signature) date)).
Proof.
  apply throws_only_lift. intros e H.
  destruct (isDataExpired_Some keyPacket signature date) as [x Hx]. congruence.
Qed.

Hint Resolve total_isDataExpired_Some : total.

Lemma total_mergeSignatures_checks (checkFn : option CheckFn) (source : list Signature.t) :
  (forall f, checkFn = Some f -> forall s d, throws_only nothing (f s d)) ->
  forall dest, throws_only nothing (mergeSignatures_checks checkFn source dest).
Proof.
  intros Hf. induction source as [|s source IH]; intros dest; simpl.
  - total.
  - destruct (sig_isExpired s (Some now)); [apply IH|].
    apply throws_only_bind.
    + destruct checkFn as [f|]; [eapply Hf; reflexivity | total].
    + intros [ok dest']. apply throws_only_bind; [apply IH | intros r; total].
Qed.

Lemma total_mergeSignatures (source dest : list Signature.t) (checkFn : option CheckFn) :
  (forall f, checkFn = Some f -> forall s d, throws_only nothing (f s d)) ->
  throws_only nothing (mergeSignatures source dest checkFn).
Proof.
  intros Hf. unfold mergeSignatures. destruct dest as [|d0 dest]; [total|].
  unfold mergeSignatures_each.
  apply throws_only_bind; [apply total_mergeSignatures_checks, Hf | intros r; total].
Qed.

Lemma total_check (f : Signature.t -> M bool) :
  (forall s, throws_only nothing (f s)) -> forall s d, throws_only nothing (check f s d).
Proof. intros Hf s d. unfold check. total. Qed.

Lemma total_User_isRevoked (this : User.t) (primaryKey : KeyPacket.t)
      (certificate : option Signature.t) (key : option KeyPacket.t) (date : option Z) :
  throws_only nothing (User.isRevoked this primaryKey certificate key date).
Proof. unfold User.isRevoked. total. Qed.

Hint Resolve total_User_isRevoked : total.

Lemma total_User_update (this user : User.t) (primaryKey : KeyPacket.t) :
  throws_only nothing (User.update this user primaryKey).
Proof.
  unfold User.update.
  repeat (apply throws_only_bind;
          [apply total_mergeSignatures; intros f Hf; try discriminate Hf;
           injection Hf as <-; apply total_check; intros; total
          | intros ?]).
  total.
Qed.

Lemma total_User_verify (this : User.t) (primaryKey : KeyPacket.t) :
  throws_only nothing (User.verify this primaryKey).
Proof.
  assert (Hc : forall data c, throws_only nothing (User.verify_selfCertification this primaryKey data c)).
  { intros data c. unfold User.verify_selfCertification. total. }
  assert (Hcs : forall data l, throws_only nothing (User.verify_selfCertifications this primaryKey data l)).
  { intros data l. induction l; simpl; total. }
  unfold User.verify. total.
Qed.

Lemma total_SubKey_verify (this : SubKey.t) (primaryKey : KeyPacket.t) (date : option Z) :
  throws_only nothing (SubKey.verify this primaryKey date).
Proof.
  assert (Hb : forall data b, throws_only nothing (SubKey.verify_binding this primaryKey data date b)).
  { intros data b. unfold SubKey.verify_binding, SubKey.isRevoked. total. }
  assert (Hbs : forall data l, throws_only nothing (SubKey.verify_bindings this primaryKey data date l)).
  { intros data l. induction l; simpl; total. }
  unfold SubKey.verify. apply throws_only_bind.
  - destruct (KeyPacket.version (SubKey.subKey this) =? 3) eqn:H3; [|total].
    apply throws_only_lift. intros e He.
    destruct (isDataExpired_version3 (SubKey.subKey this) date H3) as [x Hx]. congruence.
  - total.
Qed.

Hint Resolve total_User_update total_User_verify total_SubKey_verify : total.

Lemma total_getPrimaryUser (this : Key.t) (date : option Z) :
  throws_only nothing (Key.getPrimaryUser this date).
Proof.
  assert (Hc : forall pk i u uid acc c,
             throws_only nothing (Key.getPrimaryUser_cert pk date i u uid acc c)).
  { intros. unfold Key.getPrimaryUser_cert. total. }
  assert (Hcs : forall pk i u uid l acc,
             throws_only nothing (Key.getPrimaryUser_certs pk date i u uid acc l)).
  { intros pk i u uid l. induction l; intros acc; simpl; total. }
  assert (Hus : forall pk l i acc, throws_only nothing (Key.getPrimaryUser_users pk date i acc l)).
  { intros pk l. induction l as [|u l IH]; intros i acc; simpl; [total|].
    destruct (User.userId u); [|total].
    apply throws_only_bind; [apply Hcs | intros acc'; apply IH]. }
  unfold Key.getPrimaryUser. total.
Qed.

Hint Resolve total_getPrimaryUser : total.

Lemma total_verifyPrimaryKey (this : Key.t) (date : option Z) :
  throws_only nothing (Key.verifyPrimaryKey this date).
Proof.
  unfold Key.verifyPrimaryKey, Key.isRevoked.
  apply throws_only_bind; [total | intros r].
  destruct (truthy r); [total|]. destruct (negb _); [total|].
  apply throws_only_bind; [total | intros [pu|]]; [|total].
  apply throws_only_bind; [|total].
  destruct (KeyPacket.version (Key.primaryKey this) =? 3) eqn:H3.
  - apply throws_only_lift. intros e He.
    destruct (isDataExpired_version3 (Key.primaryKey this) date H3) as [x Hx]. congruence.
  - total.
Qed.

Hint Resolve total_verifyPrimaryKey : total.

Lemma total_isValidSigningKeyPacket (keyPacket : KeyPacket.t) (signature : Signature.t)
      (date : option Z) :
  throws_only nothing (isValidSigningKeyPacket keyPacket signature date).
Proof. unfold isValidSigningKeyPacket, signature_in_force. total. Qed.

Lemma total_isValidEncryptionKeyPacket (keyPacket : KeyPacket.t) (signature : Signature.t)
      (date : option Z) :
  throws_only nothing (isValidEncryptionKeyPacket keyPacket signature date).
Proof. unfold isValidEncryptionKeyPacket, signature_in_force. total. Qed.

Section Selectors.
Variable isValid : KeyPacket.t -> Signature.t -> option Z -> M bool.
Hypothesis total_isValid : forall k s d, throws_only nothing (isValid k s d).

Lemma total_primaryKey_serves (this : Key.t) (keyId : option Keyid.t) (date : option Z)
      (primaryUser : option Key.PrimaryUser) :
  throws_only nothing (Key.primaryKey_serves isValid this keyId date primaryUser).
Proof. unfold Key.primaryKey_serves. total. Qed.

Lemma total_some_binding (subKey : KeyPacket.t) (date : option Z) (l : list Signature.t) :
  throws_only nothing (Key.some_binding isValid subKey date l).
Proof. induction l; simpl; total. Qed.

Lemma total_first_subKey (primaryKey : KeyPacket.t) (keyId : option Keyid.t)
      (date : option Z) (l : list SubKey.t) :
  throws_only nothing (Key.first_subKey isValid primaryKey keyId date l).
Proof.
  induction l as [|sk l IH]; simpl; [total|].
  destruct (Key.matches keyId (SubKey.subKey sk)); [|exact IH].
  apply throws_only_bind; [total | intros ?].
  apply throws_only_bind; [apply total_some_binding | intros found].
  destruct found; total.
Qed.
End Selectors.

Lemma total_getSigningKeyPacket (this : Key.t) (keyId : option Keyid.t) (date : option Z) :
  throws_only nothing (Key.getSigningKeyPacket this keyId date).
Proof.
  unfold Key.getSigningKeyPacket.
  apply throws_only_bind; [total | intros pu].
  apply throws_only_bind;
    [apply total_primaryKey_serves, total_isValidSigningKeyPacket | intros ok].
  destruct ok; [total|].
  apply total_first_subKey, total_isValidSigningKeyPacket.
Qed.

Lemma total_getEncryptionKeyPacket (this : Key.t) (keyId : option Keyid.t)
      (date : option Z) :
  throws_only nothing (Key.getEncryptionKeyPacket this keyId date).
Proof.
  unfold Key.getEncryptionKeyPacket.
  apply throws_only_bind;
    [apply total_first_subKey, total_isValidEncryptionKeyPacket | intros sub].
  destruct sub; [total|].
  apply throws_only_bind; [total | intros pu].
  apply throws_only_bind;
    [apply total_primaryKey_serves, total_isValidEncryptionKeyPacket | intros ok].
  destruct ok; total.
Qed.

Lemma total_getPreferredSymAlgo (l : list Key.t) : throws_only nothing (getPreferredSymAlgo l).
Proof.
  assert (H : forall l m, throws_only nothing (prioMap_of l m)).
  { clear l. intros l. induction l as [|k l IH]; intros m; simpl; [total|].
    apply throws_only_bind; [total | intros pu].
    destruct pu as [pu|]; [|apply IH].
    destruct (Signature.preferredSymmetricAlgorithms _); apply IH. }
  unfold getPreferredSymAlgo. total.
Qed.

End Total.

(** ** The flags only grow *)

Lemma verified_le_update_verified (st : Store) (i : nat) (b : bool) :
  verified (st i) = false ->
  verified_le st (update st i {| verified := b; revoked := revoked (st i) |}).
Proof.
  intros Hi j Hj. unfold update. destruct (Nat.eqb_spec j i) as [->|_]; [congruence | exact Hj].
Qed.

Lemma verified_le_update_revoked (st : Store) (i : nat) (r : option bool) :
  verified_le st (update st i {| verified := verified (st i); revoked := r |}).
Proof.
  intros j Hj. unfold update. destruct (Nat.eqb_spec j i) as [->|_]; exact Hj.
Qed.

Lemma revoked_le_refl (st : Store) : revoked_le st st.
Proof. intros i H. exact H. Qed.

Lemma revoked_le_trans (st1 st2 st3 : Store) :
  revoked_le st1 st2 -> revoked_le st2 st3 -> revoked_le st1 st3.
Proof. intros H12 H23 i H. auto. Qed.

Lemma revoked_le_update_verified (st : Store) (i : nat) (b : bool) :
  revoked_le st (update st i {| verified := b; revoked := revoked (st i) |}).
Proof.
  intros j Hj. unfold update. destruct (Nat.eqb_spec j i) as [->|_]; exact Hj.
Qed.

Lemma revoked_le_update_revoked (st : Store) (i : nat) :
  revoked_le st (update st i {| verified := verified (st i); revoked := Some true |}).
Proof.
  intros j Hj. unfold update. destruct (Nat.eqb_spec j i) as [->|_]; [reflexivity | exact Hj].
Qed.

Lemma revoked_le_update_keep (st : Store) (i : nat) :
  revoked_le st (update st i {| verified := verified (st i); revoked := revoked (st i) |}).
Proof.
  intros j Hj. unfold update. destruct (Nat.eqb_spec j i) as [->|_]; exact Hj.
Qed.

Ltac verified_steps :=
  first [ exact verified_le_refl | exact verified_le_trans
        | exact verified_le_update_verified
        | exact (fun st i => verified_le_update_revoked st i (Some true))
        | exact (fun st i => verified_le_update_revoked st i (revoked (st i))) ].

Ltac revoked_steps :=
  first [ exact revoked_le_refl | exact revoked_le_trans
        | exact (fun st i b (_ : verified (st i) = false) => revoked_le_update_verified st i b)
        | exact revoked_le_update_revoked | exact revoked_le_update_keep ].

Section Flags.
Context {E : Externals}.

(** X1. No operation on keys clears the [verified] flag of a signature. *)
Theorem verified_flags_are_never_cleared (this key : Key.t) (user : User.t) (subKey : SubKey.t)
        (keyId : option Keyid.t) (date : option Z) (keys : list Key.t) :
  monotone (Key.verifyPrimaryKey this date)
  /\ monotone (Key.getPrimaryUser this date)
  /\ monotone (Key.getSigningKeyPacket this keyId date)
  /\ monotone (Key.getEncryptionKeyPacket this keyId date)
  /\ monotone (Key.update this key)
  /\ monotone (User.verify user (Key.primaryKey this))
  /\ monotone (SubKey.verify subKey (Key.primaryKey this) date)
  /\ monotone (getPreferredSymAlgo keys).
Proof.
  repeat split.
  - apply (preserves_verifyPrimaryKey verified_le); verified_steps.
  - apply (preserves_getPrimaryUser verified_le); verified_steps.
  - apply (preserves_getSigningKeyPacket verified_le); verified_steps.
  - apply (preserves_getEncryptionKeyPacket verified_le); verified_steps.
  - apply (preserves_Key_update verified_le); verified_steps.
  - apply (preserves_User_verify verified_le); verified_steps.
  - apply (preserves_SubKey_verify verified_le); verified_steps.
  - apply (preserves_getPreferredSymAlgo verified_le); verified_steps.
Qed.

(** X2. No operation on keys clears the [revoked] flag of a signature. *)
Theorem revoked_flags_are_never_cleared (this key : Key.t) (user : User.t) (subKey : SubKey.t)
        (keyId : option Keyid.t) (date : option Z) (keys : list Key.t) :
  keeps_revoked (Key.verifyPrimaryKey this date)
  /\ keeps_revoked (Key.getPrimaryUser this date)
  /\ keeps_revoked (Key.getSigningKeyPacket this keyId date)
  /\ keeps_revoked (Key.getEncryptionKeyPacket this keyId date)
  /\ keeps_revoked (Key.update this key)
  /\ keeps_revoked (User.verify user (Key.primaryKey this))
  /\ keeps_revoked (SubKey.verify subKey (Key.primaryKey this) date)
  /\ keeps_revoked (getPreferredSymAlgo keys).
Proof.
  repeat split.
  - apply (preserves_verifyPrimaryKey revoked_le); revoked_steps.
  - apply (preserves_getPrimaryUser revoked_le); revoked_steps.
  - apply (preserves_getSigningKeyPacket revoked_le); revoked_steps.
  - apply (preserves_getEncryptionKeyPacket revoked_le); revoked_steps.
  - apply (preserves_Key_update revoked_le); revoked_steps.
  - apply (preserves_User_verify revoked_le); revoked_steps.
  - apply (preserves_SubKey_verify revoked_le); revoked_steps.
  - apply (preserves_getPreferredSymAlgo revoked_le); revoked_steps.
Qed.

(** X3. The validation and selection operations never throw. *)
Theorem validation_never_throws (this : Key.t) (user : User.t) (subKey : SubKey.t)
        (keyId : option Keyid.t) (date : option Z) (keys : list Key.t) :
  never_throws (Key.verifyPrimaryKey this date)
  /\ never_throws (Key.getPrimaryUser this date)
  /\ never_throws (Key.getSigningKeyPacket this keyId date)
  /\ never_throws (Key.getEncryptionKeyPacket this keyId date)
  /\ never_throws (User.verify user (Key.primaryKey this))
  /\ never_throws (SubKey.verify subKey (Key.primaryKey this) date)
  /\ never_throws (getPreferredSymAlgo keys).
Proof.
  repeat split; apply throws_only_never.
  - apply total_verifyPrimaryKey.
  - apply total_getPrimaryUser.
  - apply total_getSigningKeyPacket.
  - apply total_getEncryptionKeyPacket.
  - apply total_User_verify.
  - apply total_SubKey_verify.
  - apply total_getPreferredSymAlgo.
Qed.

End Flags.

(** ** Validation *)

Lemma pop_In {A} (l : list A) (x : A) : pop l = Some x -> In x l.
Proof.
  induction l as [|a l IH]; simpl; [discriminate|].
  destruct l as [|b l]; [intros H; injection H as <-; left; reflexivity|].
  intros H. right. apply IH, H.
Qed.

Lemma insert_In {A} (compareFn : A -> A -> Z) (a x : A) (l : list A) :
  In x (Key.insert compareFn a l) -> x = a \/ In x l.
Proof.
  induction l as [|b l IH]; simpl.
  - intros [<-|[]]. left; reflexivity.
  - destruct (0 <? compareFn a b); simpl.
    + intros [<-|H]; [right; left; reflexivity|].
      destruct (IH H) as [->|H']; [left | right; right]; auto.
    + intros [<-|H]; [left | right]; auto.
Qed.

Lemma sort_In {A} (compareFn : A -> A -> Z) (x : A) (l : list A) :
  In x (Key.sort compareFn l) -> In x l.
Proof.
  unfold Key.sort. induction l as [|a l IH]; simpl; [auto|].
  intros H. destruct (insert_In _ _ _ _ H) as [->|H']; [left | right]; auto.
Qed.

Section Validation.
Context {E : Externals}.

Lemma verified_or_verify_eq (s : Signature.t) (key : KeyPacket.t) (data : Data.t) (st : Store) :
  verified_or_verify s key data st
  = if verified (st (Signature.id s)) then Ok (true, st)
    else Ok (sig_verify key data s,
             update st (Signature.id s)
                    {| verified := sig_verify key data s;
                       revoked := revoked (st (Signature.id s)) |}).
Proof.
  unfold verified_or_verify, bind, get_verified. destruct (verified _); reflexivity.
Qed.

Lemma verified_or_verify_le (s : Signature.t) (key : KeyPacket.t) (data : Data.t)
      (st st' : Store) (b : bool) :
  verified_or_verify s key data st = Ok (b, st') -> verified_le st st'.
Proof.
  apply (preserves_verified_or_verify verified_le); verified_steps.
Qed.

Lemma verified_or_verify_flag (s : Signature.t) (key : KeyPacket.t) (data : Data.t)
      (st st' : Store) :
  verified_or_verify s key data st = Ok (true, st') ->
  verified (st' (Signature.id s)) = true.
Proof.
  rewrite verified_or_verify_eq. destruct (verified (st (Signature.id s))) eqn:Hv.
  - intros H. injection H as <-. exact Hv.
  - intros H. injection H as Hs <-. unfold update. rewrite Nat.eqb_refl. exact Hs.
Qed.

(** A revocation signature that is flagged verified, or that verifies,
    contributes its issuer. *)
Lemma revocationKeyIds_In (key : KeyPacket.t) (data : Data.t) (normDate : option Z)
      (s : Signature.t) (revocations : list Signature.t) :
  forall st ids st',
    revocationKeyIds key data normDate revocations st = Ok (ids, st') ->
    In s revocations ->
    verified (st (Signature.id s)) = true \/ sig_verify key data s = true ->
    In (Signature.issuerKeyId s) ids.
Proof.
  induction revocations as [|r revocations IH]; intros st ids st' H Hin Hs; [destruct Hin|].
  simpl in H.
  apply bind_inv in H as (ok & st1 & Hok & H).
  apply bind_inv in H as (ids' & st2 & Hids & H).
  apply ret_inv in H as [-> ->].
  change (config.revocations_expire && sig_isExpired r normDate) with false in Hok.
  cbv iota in Hok.
  pose proof (verified_or_verify_le _ _ _ _ _ _ Hok) as Hle.
  rewrite verified_or_verify_eq in Hok.
  destruct Hin as [->|Hin].
  - destruct Hs as [Hs|Hs].
    + rewrite Hs in Hok. injection Hok as <- _. left; reflexivity.
    + destruct (verified (st (Signature.id s))); injection Hok as <- _;
        [|rewrite Hs]; left; reflexivity.
  - assert (Hin' : In (Signature.issuerKeyId s) ids').
    { eapply IH; [eassumption | assumption |].
      destruct Hs as [Hs|Hs]; [left; apply Hle, Hs | right; exact Hs]. }
    destruct ok; [right|]; exact Hin'.
Qed.

(** X4. A key that carries a revocation signature which is flagged
    verified, or which verifies over the primary key, is reported as
    revoked, for every date. *)
Theorem verifyPrimaryKey_revoked (this : Key.t) (date : option Z) (s : Signature.t)
        (st : Store) :
  In s (Key.revocationSignatures this) ->
  verified (st (Signature.id s)) = true
  \/ sig_verify (Key.primaryKey this)
                {| Data.key := Some (Key.primaryKey this); Data.userid := None;
                   Data.bind := None |} s = true ->
  exists st', Key.verifyPrimaryKey this date st = Ok (enums.keyStatus.revoked, st').
Proof.
  intros Hin Hs.
  unfold Key.verifyPrimaryKey, Key.isRevoked, isDataRevoked.
  set (data := {| Data.key := Some (Key.primaryKey this); Data.userid := None;
                  Data.bind := None |}) in *.
  destruct (revocationKeyIds_runs (Key.primaryKey this) data (util.normalizeDate date)
              (Key.revocationSignatures this) st) as (ids & st1 & Hrun & _).
  pose proof (revocationKeyIds_In _ _ _ _ _ _ _ _ Hrun Hin Hs) as Hids.
  exists st1. unfold bind at 1. unfold bind at 1. rewrite Hrun.
  destruct ids as [|i ids]; [destruct Hids|]. reflexivity.
Qed.

(** *** getPrimaryUser *)

Lemma candidate_le (users : list User.t) (date : option Z) (st st' : Store)
      (pu : Key.PrimaryUser) :
  verified_le st st' -> candidate users date st pu -> candidate users date st' pu.
Proof.
  intros Hle (H1 & H2 & H3 & H4 & H5). repeat split; auto.
Qed.

Lemma getPrimaryUser_cert_candidates (users : list User.t) (pk : KeyPacket.t)
      (date : option Z) (i : nat) (u : User.t) (uid : Userid.t) (acc acc' : Key.scan)
      (c : Signature.t) (st st' : Store) :
  nth_error users i = Some u ->
  User.userId u = Some uid ->
  In c (User.selfCertifications u) ->
  Forall (candidate users date st) (Key.primaryUsers acc) ->
  Key.getPrimaryUser_cert pk date i u uid acc c st = Ok (acc', st') ->
  Forall (candidate users date st') (Key.primaryUsers acc').
Proof.
  intros Hnth Huid Hc Hacc H.
  assert (Hle : verified_le st st').
  { eapply (preserves_getPrimaryUser_cert verified_le); [verified_steps .. | exact H]. }
  assert (Hold : Forall (candidate users date st') (Key.primaryUsers acc)).
  { eapply Forall_impl; [|exact Hacc]. intros pu. apply candidate_le, Hle. }
  unfold Key.getPrimaryUser_cert in H.
  destruct (_ || _); [apply ret_inv in H as [-> _]; exact Hold|].
  apply bind_inv in H as (v & st1 & Hv & H).
  destruct v; simpl in H; [|apply ret_inv in H as [-> _]; exact Hold].
  apply verified_or_verify_flag in Hv.
  apply bind_inv in H as (r & st2 & Hr & H). injection Hr as <- <-.
  apply bind_inv in H as (r2 & st3 & Hr2 & H).
  assert (Hle3 : verified_le st1 st3).
  { destruct (truthy _).
    - apply ret_inv in Hr2 as [_ ->]. apply verified_le_refl.
    - apply bind_inv in Hr2 as (r' & st4 & Hr' & Hr2). apply ret_inv in Hr2 as [_ ->].
      eapply (preserves_User_isRevoked verified_le); [verified_steps .. | exact Hr']. }
  destruct r2; [apply ret_inv in H as [-> _]; exact Hold|].
  destruct (sig_isExpired c date) eqn:Hexp; [apply ret_inv in H as [-> _]; exact Hold|].
  apply ret_inv in H as [-> ->]. simpl.
  apply Forall_app. split; [exact Hold|].
  constructor; [|constructor].
  repeat split; simpl; auto. rewrite Huid. discriminate.
Qed.

Lemma getPrimaryUser_certs_candidates (users : list User.t) (pk : KeyPacket.t)
      (date : option Z) (i : nat) (u : User.t) (uid : Userid.t) (l : list Signature.t) :
  nth_error users i = Some u ->
  User.userId u = Some uid ->
  incl l (User.selfCertifications u) ->
  forall acc acc' st st',
    Forall (candidate users date st) (Key.primaryUsers acc) ->
    Key.getPrimaryUser_certs pk date i u uid acc l st = Ok (acc', st') ->
    Forall (candidate users date st') (Key.primaryUsers acc').
Proof.
  intros Hnth Huid. induction l as [|c l IH]; intros Hincl acc acc' st st' Hacc H; simpl in H.
  - apply ret_inv in H as [-> ->]. exact Hacc.
  - apply bind_inv in H as (acc1 & st1 & Hc & H).
    eapply IH; [intros x Hx; apply Hincl; right; exact Hx | | exact H].
    eapply getPrimaryUser_cert_candidates; eauto. apply Hincl. left; reflexivity.
Qed.

Lemma getPrimaryUser_users_candidates (users : list User.t) (pk : KeyPacket.t)
      (date : option Z) (l : list User.t) :
  forall pre acc acc' st st',
    users = pre ++ l ->
    Forall (candidate users date st) (Key.primaryUsers acc) ->
    Key.getPrimaryUser_users pk date (List.length pre) acc l st = Ok (Some acc', st') ->
    Forall (candidate users date st') (Key.primaryUsers acc').
Proof.
  induction l as [|u l IH]; intros pre acc acc' st st' Husers Hacc H; simpl in H.
  - apply ret_inv in H as [H ->]. injection H as <-. exact Hacc.
  - destruct (User.userId u) as [uid|] eqn:Huid; [|apply ret_inv in H as [H _]; discriminate H].
    apply bind_inv in H as (acc1 & st1 & Hc & H).
    apply (IH (pre ++ [u]) acc1 acc' st1 st').
    + rewrite <- app_assoc. exact Husers.
    + eapply getPrimaryUser_certs_candidates; [| exact Huid | apply incl_refl | exact Hacc | exact Hc].
      rewrite Husers, nth_error_app2, Nat.sub_diag; [reflexivity | lia].
    + rewrite length_app, Nat.add_1_r. exact H.
Qed.

Lemma getPrimaryUser_candidate (this : Key.t) (date : option Z) (st st' : Store)
      (pu : Key.PrimaryUser) :
  Key.getPrimaryUser this date st = Ok (Some pu, st') ->
  candidate (Key.users this) date st' pu.
Proof.
  intros H. unfold Key.getPrimaryUser in H.
  apply bind_inv in H as (r & st1 & Hr & H).
  destruct r as [acc|]; apply ret_inv in H as [H ->]; [|discriminate H].
  symmetry in H. apply pop_In, sort_In in H.
  pose proof (getPrimaryUser_users_candidates (Key.users this) (Key.primaryKey this) date
                (Key.users this) [] (Key.mkScan None None []) acc st st1 eq_refl
                (Forall_nil _) Hr) as Hall.
  rewrite Forall_forall in Hall. apply Hall, H.
Qed.

(** X5. What getPrimaryUser returns is a UserID user of the key, at the
    index it reports, together with one of that user's
    self-certifications, which is flagged verified and is not expired at
    the date asked for. *)
Theorem getPrimaryUser_returns_certified_user (this : Key.t) (date : option Z)
        (st st' : Store) (pu : Key.PrimaryUser) :
  Key.getPrimaryUser this date st = Ok (Some pu, st') ->
  nth_error (Key.users this) (Key.index pu) = Some (Key.user pu)
  /\ User.userId (Key.user pu) <> None
  /\ In (Key.selfCertification pu) (User.selfCertifications (Key.user pu))
  /\ verified (st' (Signature.id (Key.selfCertification pu))) = true
  /\ sig_isExpired (Key.selfCertification pu) date = false.
Proof. intros H. exact (getPrimaryUser_candidate this date st st' pu H). Qed.

Lemma getPrimaryUser_users_attribute (pk : KeyPacket.t) (date : option Z) (u : User.t)
      (l : list User.t) :
  In u l -> User.userId u = None ->
  forall i acc st r st',
    Key.getPrimaryUser_users pk date i acc l st = Ok (r, st') -> r = None.
Proof.
  intros Hin Hu. induction l as [|x l IH]; intros i acc st r st' H; [destruct Hin|].
  simpl in H. destruct Hin as [->|Hin].
  - rewrite Hu in H. apply ret_inv in H as [-> _]. reflexivity.
  - destruct (User.userId x); [|apply ret_inv in H as [-> _]; reflexivity].
    apply bind_inv in H as (acc1 & st1 & _ & H). eapply IH; eauto.
Qed.

Lemma getPrimaryUser_attribute (this : Key.t) (date : option Z) (u : User.t)
      (st st' : Store) (r : option Key.PrimaryUser) :
  In u (Key.users this) -> User.userId u = None ->
  Key.getPrimaryUser this date st = Ok (r, st') -> r = None.
Proof.
  intros Hin Hu H. unfold Key.getPrimaryUser in H.
  apply bind_inv in H as (r1 & st1 & Hr & H).
  rewrite (getPrimaryUser_users_attribute _ _ u _ Hin Hu _ _ _ _ _ Hr) in H.
  apply ret_inv in H as [-> _]. reflexivity.
Qed.

(** X6. A key one of whose users is a UserAttribute has no primary user,
    and its primary key is never reported as valid: the status is revoked,
    no_self_cert or invalid. *)
Theorem attribute_user_invalidates_key (this : Key.t) (date : option Z) (u : User.t)
        (st : Store) :
  In u (Key.users this) ->
  User.userId u = None ->
  (exists st', Key.getPrimaryUser this date st = Ok (None, st'))
  /\ exists status st',
      Key.verifyPrimaryKey this date st = Ok (status, st')
      /\ (status = enums.keyStatus.revoked \/ status = enums.keyStatus.no_self_cert
          \/ status = enums.keyStatus.invalid).
Proof.
  intros Hin Hu. split.
  - destruct (throws_only_never _ (total_getPrimaryUser this date) st) as (r & st' & H).
    rewrite (getPrimaryUser_attribute this date u st st' r Hin Hu H) in H. eauto.
  - destruct (throws_only_never _ (total_verifyPrimaryKey this date) st) as (status & st' & H).
    exists status, st'. split; [exact H|].
    unfold Key.verifyPrimaryKey in H.
    apply bind_inv in H as (r & st1 & _ & H).
    destruct (truthy r); [apply ret_inv in H as [-> _]; auto|].
    destruct (negb _); [apply ret_inv in H as [-> _]; auto|].
    apply bind_inv in H as (pu & st2 & Hpu & H).
    rewrite (getPrimaryUser_attribute this date u _ _ pu Hin Hu Hpu) in H.
    apply ret_inv in H as [-> _]. auto.
Qed.

End Validation.

Section Statuses.
Context {E : Externals}.

(** When the verdict over [invalid :: statuses] is [valid], one of the
    statuses is. *)
Lemma verdict_valid (statuses : list enums.keyStatus.t) :
  valid_is_distinct ->
  (if existsb (fun status => keyStatus_eq status enums.keyStatus.valid)
              (enums.keyStatus.invalid :: statuses)
   then enums.keyStatus.valid
   else match pop (enums.keyStatus.invalid :: statuses) with
        | Some s => s
        | None => enums.keyStatus.invalid
        end) = enums.keyStatus.valid ->
  In enums.keyStatus.valid statuses.
Proof.
  intros Hd H.
  destruct (existsb _ _) eqn:Hex.
  - apply existsb_exists in Hex as (s & Hin & Hs). apply Hd in Hs. subst s.
    destruct Hin as [Hin|Hin]; [discriminate Hin | exact Hin].
  - destruct (pop _) as [s|] eqn:Hpop; [|discriminate H]. subst s.
    apply pop_In in Hpop. destruct Hpop as [Hin|Hin]; [discriminate Hin | exact Hin].
Qed.

Lemma verify_binding_valid (this : SubKey.t) (pk : KeyPacket.t) (data : Data.t)
      (date : option Z) (b : Signature.t) (st st' : Store) :
  SubKey.verify_binding this pk data date b st = Ok (enums.keyStatus.valid, st') ->
  verified (st' (Signature.id b)) = true /\ sig_isExpired b date = false.
Proof.
  intros H. unfold SubKey.verify_binding in H.
  apply bind_inv in H as (v & st1 & Hv & H).
  destruct v; simpl in H; [|apply ret_inv in H as [H _]; discriminate H].
  apply verified_or_verify_flag in Hv.
  apply bind_inv in H as (r & st2 & Hr & H). injection Hr as <- <-.
  apply bind_inv in H as (r2 & st3 & Hr2 & H).
  assert (Hle : verified_le st1 st3).
  { destruct (truthy _).
    - apply ret_inv in Hr2 as [_ ->]. apply verified_le_refl.
    - apply bind_inv in Hr2 as (r' & st4 & Hr' & Hr2). apply ret_inv in Hr2 as [_ ->].
      eapply (preserves_SubKey_isRevoked verified_le); [verified_steps .. | exact Hr']. }
  destruct r2; [apply ret_inv in H as [H _]; discriminate H|].
  destruct (sig_isExpired b date); apply ret_inv in H as [H ->]; [discriminate H|].
  split; [apply Hle, Hv | reflexivity].
Qed.

Lemma verify_bindings_valid (this : SubKey.t) (pk : KeyPacket.t) (data : Data.t)
      (date : option Z) (l : list Signature.t) :
  forall st statuses st',
    SubKey.verify_bindings this pk data date l st = Ok (statuses, st') ->
    In enums.keyStatus.valid statuses ->
    exists b, In b l /\ verified (st' (Signature.id b)) = true
              /\ sig_isExpired b date = false.
Proof.
  induction l as [|b l IH]; intros st statuses st' H Hin; simpl in H.
  - apply ret_inv in H as [-> _]. destruct Hin.
  - apply bind_inv in H as (s & st1 & Hs & H).
    apply bind_inv in H as (ss & st2 & Hss & H).
    apply ret_inv in H as [-> ->].
    destruct Hin as [->|Hin].
    + apply verify_binding_valid in Hs as [Hv Hx].
      exists b. split; [left; reflexivity|]. split; [|exact Hx].
      eapply (preserves_verify_bindings verified_le); [verified_steps .. | exact Hss |].
      exact Hv.
    + destruct (IH _ _ _ Hss Hin) as (b' & Hb' & Hv & Hx).
      exists b'. split; [right; exact Hb'|]. split; assumption.
Qed.

(** X7. SubKey.verify reports [valid] only for a subkey one of whose
    binding signatures is flagged verified and is not expired at the date
    asked for; for a version 3 subkey the key itself is not expired. *)
Theorem SubKey_verify_valid (this : SubKey.t) (primaryKey : KeyPacket.t) (date : option Z)
        (st st' : Store) :
  valid_is_distinct ->
  SubKey.verify this primaryKey date st = Ok (enums.keyStatus.valid, st') ->
  (exists b, In b (SubKey.bindingSignatures this)
             /\ verified (st' (Signature.id b)) = true
             /\ sig_isExpired b date = false)
  /\ (KeyPacket.version (SubKey.subKey this) = 3 ->
      isDataExpired (SubKey.subKey this) None date = Ok false).
Proof.
  intros Hd H. unfold SubKey.verify in H.
  apply bind_inv in H as (x & st1 & Hx & H).
  destruct x; [apply ret_inv in H as [H _]; discriminate H|].
  apply bind_inv in H as (statuses & st2 & Hs & H).
  assert (Hvalid : In enums.keyStatus.valid statuses).
  { apply verdict_valid; [exact Hd|].
    destruct (existsb _ _); apply ret_inv in H as [H _]; symmetry; exact H. }
  assert (st' = st2) as ->.
  { destruct (existsb _ _); apply ret_inv in H as [_ H]; exact H. }
  split.
  - eapply verify_bindings_valid; eassumption.
  - intros H3. rewrite H3 in Hx. simpl in Hx. apply lift_inv in Hx as [Hx _]. exact Hx.
Qed.

Lemma verify_selfCertification_valid (this : User.t) (pk : KeyPacket.t) (data : Data.t)
      (c : Signature.t) (st st' : Store) :
  User.verify_selfCertification this pk data c st = Ok (enums.keyStatus.valid, st') ->
  verified (st' (Signature.id c)) = true /\ sig_isExpired c (Some now) = false.
Proof.
  intros H. unfold User.verify_selfCertification in H.
  apply bind_inv in H as (r & st1 & Hr & H). injection Hr as <- <-.
  apply bind_inv in H as (r2 & st2 & Hr2 & H).
  destruct r2; [apply ret_inv in H as [H _]; discriminate H|].
  apply bind_inv in H as (v & st3 & Hv & H).
  destruct v; simpl in H; [|apply ret_inv in H as [H _]; discriminate H].
  apply verified_or_verify_flag in Hv.
  destruct (sig_isExpired c (Some now)); apply ret_inv in H as [H ->]; [discriminate H|].
  split; [exact Hv | reflexivity].
Qed.

Lemma verify_selfCertifications_valid (this : User.t) (pk : KeyPacket.t) (data : Data.t)
      (l : list Signature.t) :
  forall st statuses st',
    User.verify_selfCertifications this pk data l st = Ok (statuses, st') ->
    In enums.keyStatus.valid statuses ->
    exists c, In c l /\ verified (st' (Signature.id c)) = true
              /\ sig_isExpired c (Some now) = false.
Proof.
  induction l as [|c l IH]; intros st statuses st' H Hin; simpl in H.
  - apply ret_inv in H as [-> _]. destruct Hin.
  - apply bind_inv in H as (s & st1 & Hs & H).
    apply bind_inv in H as (ss & st2 & Hss & H).
    apply ret_inv in H as [-> ->].
    destruct Hin as [->|Hin].
    + apply verify_selfCertification_valid in Hs as [Hv Hx].
      exists c. split; [left; reflexivity|]. split; [|exact Hx].
      eapply (preserves_verify_selfCertifications verified_le);
        [verified_steps .. | exact Hss |].
      exact Hv.
    + destruct (IH _ _ _ Hss Hin) as (c' & Hc' & Hv & Hx).
      exists c'. split; [right; exact Hc'|]. split; assumption.
Qed.

(** X8. User.verify reports [valid] only for a user one of whose
    self-certifications is flagged verified and is not expired now. *)
Theorem User_verify_valid (this : User.t) (primaryKey : KeyPacket.t) (st st' : Store) :
  valid_is_distinct ->
  User.verify this primaryKey st = Ok (enums.keyStatus.valid, st') ->
  exists c, In c (User.selfCertifications this)
            /\ verified (st' (Signature.id c)) = true
            /\ sig_isExpired c (Some now) = false.
Proof.
  intros Hd H. unfold User.verify in H.
  destruct (User.selfCertifications this) as [|c0 l] eqn:Hl;
    [apply ret_inv in H as [H _]; discriminate H|].
  apply bind_inv in H as (statuses & st2 & Hs & H).
  assert (Hvalid : In enums.keyStatus.valid statuses).
  { apply verdict_valid; [exact Hd|].
    destruct (existsb _ _); apply ret_inv in H as [H _]; symmetry; exact H. }
  assert (st' = st2) as ->.
  { destruct (existsb _ _); apply ret_inv in H as [_ H]; exact H. }
  eapply verify_selfCertifications_valid; eassumption.
Qed.

End Statuses.

(** ** The signature behind a selected key packet *)

Section Governed.
Context {E : Externals}.

Lemma signature_in_force_true (keyPacket : KeyPacket.t) (signature : Signature.t)
      (date : option Z) (st st' : Store) :
  signature_in_force keyPacket signature date st = Ok (true, st') ->
  st' = st
  /\ verified (st (Signature.id signature)) = true
  /\ sig_isExpired signature date = false
  /\ isDataExpired keyPacket (Some signature) date = Ok false.
Proof.
  intros H. unfold signature_in_force in H.
  apply bind_inv in H as (v & st1 & Hv & H). injection Hv as <- <-.
  destruct (verified (st (Signature.id signature))); simpl in H;
    [|apply ret_inv in H as [H _]; discriminate H].
  apply bind_inv in H as (r & st1 & Hr & H). injection Hr as <- <-.
  destruct (truthy _); [apply ret_inv in H as [H _]; discriminate H|].
  destruct (sig_isExpired signature date); [apply ret_inv in H as [H _]; discriminate H|].
  apply bind_inv in H as (x & st1 & Hx & H). apply lift_inv in Hx as [Hx ->].
  apply ret_inv in H as [H ->]. destruct x; [discriminate H|].
  repeat split; assumption.
Qed.

Section Selected.
Variable isValid : KeyPacket.t -> Signature.t -> option Z -> M bool.
Variable flags : list Z.
Hypothesis isValid_true : forall k s date st st',
    isValid k s date st = Ok (true, st') ->
    st' = st
    /\ verified (st (Signature.id s)) = true
    /\ sig_isExpired s date = false
    /\ isDataExpired k (Some s) date = Ok false
    /\ keyFlags_allow s flags = true.

Lemma some_binding_governed (subKey : KeyPacket.t) (date : option Z) (l : list Signature.t) :
  forall st st',
    Key.some_binding isValid subKey date l st = Ok (true, st') ->
    exists s, In s l
              /\ verified (st' (Signature.id s)) = true
              /\ sig_isExpired s date = false
              /\ isDataExpired subKey (Some s) date = Ok false
              /\ keyFlags_allow s flags = true.
Proof.
  induction l as [|b l IH]; intros st st' H; simpl in H.
  - apply ret_inv in H as [H _]. discriminate H.
  - apply bind_inv in H as (v & st1 & Hv & H). destruct v.
    + apply ret_inv in H as [_ ->].
      apply isValid_true in Hv as (-> & H1 & H2 & H3 & H4).
      exists b. split; [left; reflexivity | auto].
    + destruct (IH _ _ H) as (s & Hs & Hrest). exists s. split; [right; exact Hs | exact Hrest].
Qed.

Lemma first_subKey_governed (this : Key.t) (keyId : option Keyid.t) (date : option Z)
      (l : list SubKey.t) :
  incl l (Key.subKeys this) ->
  forall st st' p,
    Key.first_subKey isValid (Key.primaryKey this) keyId date l st = Ok (Some p, st') ->
    Key.matches keyId p = true
    /\ exists s, governs this p s
                 /\ verified (st' (Signature.id s)) = true
                 /\ sig_isExpired s date = false
                 /\ isDataExpired p (Some s) date = Ok false
                 /\ keyFlags_allow s flags = true.
Proof.
  induction l as [|sk l IH]; intros Hincl st st' p H; simpl in H.
  - apply ret_inv in H as [H _]. discriminate H.
  - assert (Hl : incl l (Key.subKeys this)) by (intros x Hx; apply Hincl; right; exact Hx).
    destruct (Key.matches keyId (SubKey.subKey sk)) eqn:Hm; [|eapply IH; eassumption].
    apply bind_inv in H as (status & st1 & _ & H).
    apply bind_inv in H as (found & st2 & Hf & H).
    destruct found; [|eapply IH; eassumption].
    apply ret_inv in H as [H ->]. injection H as ->.
    split; [exact Hm|].
    destruct (some_binding_governed _ _ _ _ _ Hf) as (s & Hs & Hrest).
    exists s. split; [|exact Hrest].
    right. exists sk. split; [apply Hincl; left; reflexivity|]. split; [reflexivity | exact Hs].
Qed.

Lemma primaryKey_serves_governed (this : Key.t) (keyId : option Keyid.t) (date : option Z)
      (primaryUser : option Key.PrimaryUser) (st0 st st' : Store) :
  (forall pu, primaryUser = Some pu -> candidate (Key.users this) date st0 pu) ->
  Key.primaryKey_serves isValid this keyId date primaryUser st = Ok (true, st') ->
  Key.matches keyId (Key.primaryKey this) = true
  /\ exists s, governs this (Key.primaryKey this) s
               /\ verified (st' (Signature.id s)) = true
               /\ sig_isExpired s date = false
               /\ isDataExpired (Key.primaryKey this) (Some s) date = Ok false
               /\ keyFlags_allow s flags = true.
Proof.
  intros Hpu H. unfold Key.primaryKey_serves in H.
  destruct primaryUser as [pu|]; [|apply ret_inv in H as [H _]; discriminate H].
  destruct (Key.matches keyId (Key.primaryKey this)) eqn:Hm; simpl in H;
    [|apply ret_inv in H as [H _]; discriminate H].
  apply bind_inv in H as (v & st1 & Hv & H).
  destruct v; simpl in H; [|apply ret_inv in H as [H _]; discriminate H].
  apply bind_inv in H as (status & st2 & Hstatus & H). apply ret_inv in H as [_ ->].
  apply isValid_true in Hv as (-> & H1 & H2 & H3 & H4).
  split; [reflexivity|].
  exists (Key.selfCertification pu).
  destruct (Hpu pu eq_refl) as (Hnth & Huid & Hin & _ & _).
  split; [|split; [|auto]].
  - left. split; [reflexivity|]. exists (Key.user pu).
    split; [eapply nth_error_In; exact Hnth | auto].
  - eapply (preserves_verifyPrimaryKey verified_le); [verified_steps .. | exact Hstatus |].
    exact H1.
Qed.

End Selected.

Lemma isValidSigningKeyPacket_true (k : KeyPacket.t) (s : Signature.t) (date : option Z)
      (st st' : Store) :
  isValidSigningKeyPacket k s date st = Ok (true, st') ->
  st' = st
  /\ verified (st (Signature.id s)) = true
  /\ sig_isExpired s date = false
  /\ isDataExpired k (Some s) date = Ok false
  /\ keyFlags_allow s [keyFlags_sign_data] = true.
Proof.
  intros H. unfold isValidSigningKeyPacket in H.
  destruct (keyFlags_allow s [keyFlags_sign_data]);
    [|rewrite andb_false_r in H; apply ret_inv in H as [H _]; discriminate H].
  destruct (_ && _); [|apply ret_inv in H as [H _]; discriminate H].
  apply signature_in_force_true in H as (H0 & H1 & H2 & H3). auto.
Qed.

Lemma isValidEncryptionKeyPacket_true (k : KeyPacket.t) (s : Signature.t) (date : option Z)
      (st st' : Store) :
  isValidEncryptionKeyPacket k s date st = Ok (true, st') ->
  st' = st
  /\ verified (st (Signature.id s)) = true
  /\ sig_isExpired s date = false
  /\ isDataExpired k (Some s) date = Ok false
  /\ keyFlags_allow s [keyFlags_encrypt_communication; keyFlags_encrypt_storage] = true.
Proof.
  intros H. unfold isValidEncryptionKeyPacket in H.
  destruct (keyFlags_allow s _);
    [|rewrite andb_false_r in H; apply ret_inv in H as [H _]; discriminate H].
  destruct (_ && _); [|apply ret_inv in H as [H _]; discriminate H].
  apply signature_in_force_true in H as (H0 & H1 & H2 & H3). auto.
Qed.

(** X9. The packet that getSigningKeyPacket returns matches the key ID
    asked for, and it is the primary key or the packet of a subkey of the
    key; a self-certification of a UserID user, or a binding signature of
    that subkey, is flagged verified, is not expired at the date, leaves the
    packet unexpired and allows signing by its key flags. *)
Theorem getSigningKeyPacket_is_governed (this : Key.t) (keyId : option Keyid.t)
        (date : option Z) (st st' : Store) (p : KeyPacket.t) :
  Key.getSigningKeyPacket this keyId date st = Ok (Some p, st') ->
  Key.matches keyId p = true
  /\ exists s, governs this p s
               /\ verified (st' (Signature.id s)) = true
               /\ sig_isExpired s date = false
               /\ isDataExpired p (Some s) date = Ok false
               /\ keyFlags_allow s [keyFlags_sign_data] = true.
Proof.
  intros H. unfold Key.getSigningKeyPacket in H.
  apply bind_inv in H as (pu & st1 & Hpu & H).
  apply bind_inv in H as (ok & st2 & Hok & H).
  destruct ok.
  - apply ret_inv in H as [H ->]. injection H as ->.
    eapply (primaryKey_serves_governed isValidSigningKeyPacket);
      [exact isValidSigningKeyPacket_true | | exact Hok].
    intros pu' ->. eapply getPrimaryUser_candidate. exact Hpu.
  - eapply (first_subKey_governed isValidSigningKeyPacket);
      [exact isValidSigningKeyPacket_true | apply incl_refl | exact H].
Qed.

(** X10. The packet that getEncryptionKeyPacket returns matches the key
    ID asked for, and it is the primary key or the packet of a subkey of
    the key; a self-certification of a UserID user, or a binding signature
    of that subkey, is flagged verified, is not expired at the date, leaves
    the packet unexpired and allows encryption of communication or of
    storage by its key flags. *)
Theorem getEncryptionKeyPacket_is_governed (this : Key.t) (keyId : option Keyid.t)
        (date : option Z) (st st' : Store) (p : KeyPacket.t) :
  Key.getEncryptionKeyPacket this keyId date st = Ok (Some p, st') ->
  Key.matches keyId p = true
  /\ exists s, governs this p s
               /\ verified (st' (Signature.id s)) = true
               /\ sig_isExpired s date = false
               /\ isDataExpired p (Some s) date = Ok false
               /\ keyFlags_allow s [keyFlags_encrypt_communication; keyFlags_encrypt_storage]
                  = true.
Proof.
  intros H. unfold Key.getEncryptionKeyPacket in H.
  apply bind_inv in H as (sub & st1 & Hsub & H).
  destruct sub as [packet|].
  - apply ret_inv in H as [H ->]. injection H as ->.
    eapply (first_subKey_governed isValidEncryptionKeyPacket);
      [exact isValidEncryptionKeyPacket_true | apply incl_refl | exact Hsub].
  - apply bind_inv in H as (pu & st2 & Hpu & H).
    apply bind_inv in H as (ok & st3 & Hok & H).
    destruct ok; apply ret_inv in H as [H ->]; [|discriminate H]. injection H as ->.
    eapply (primaryKey_serves_governed isValidEncryptionKeyPacket);
      [exact isValidEncryptionKeyPacket_true | | exact Hok].
    intros pu' ->. eapply getPrimaryUser_candidate. exact Hpu.
Qed.

End Governed.

(** ** Merging *)

Lemma prefix_refl {A} (l : list A) : prefix l l.
Proof. exists []. symmetry. apply app_nil_r. Qed.

Lemma prefix_trans {A} (l1 l2 l3 : list A) : prefix l1 l2 -> prefix l2 l3 -> prefix l1 l3.
Proof. intros [a ->] [b ->]. exists (a ++ b). symmetry. apply app_assoc. Qed.

Lemma prefix_nil {A} (l : list A) : prefix [] l.
Proof. exists l. reflexivity. Qed.

Lemma user_extends_refl (u : User.t) : user_extends u u.
Proof. repeat split; apply prefix_refl. Qed.

Lemma user_extends_trans (u1 u2 u3 : User.t) :
  user_extends u1 u2 -> user_extends u2 u3 -> user_extends u1 u3.
Proof.
  intros (A1 & A2 & A3 & A4 & A5) (B1 & B2 & B3 & B4 & B5).
  repeat split; try congruence; eapply prefix_trans; eassumption.
Qed.

Lemma subKey_extends_refl (k : SubKey.t) : subKey_extends k k.
Proof. repeat split; [lia | apply prefix_refl]. Qed.

Lemma subKey_extends_trans (k1 k2 k3 : SubKey.t) :
  subKey_extends k1 k2 -> subKey_extends k2 k3 -> subKey_extends k1 k3.
Proof.
  intros (A1 & A2 & A3) (B1 & B2 & B3).
  repeat split; [congruence | lia | eapply prefix_trans; eassumption].
Qed.

Lemma Forall2_refl {A} (R : A -> A -> Prop) (l : list A) :
  (forall x, R x x) -> Forall2 R l l.
Proof. intros HR. induction l; constructor; auto. Qed.

Lemma Forall2_trans {A} (R : A -> A -> Prop) (l1 l2 l3 : list A) :
  (forall x y z, R x y -> R y z -> R x z) ->
  Forall2 R l1 l2 -> Forall2 R l2 l3 -> Forall2 R l1 l3.
Proof.
  intros HR H12. revert l3. induction H12; intros l3 H23; inversion H23; subst;
    constructor; eauto.
Qed.

Lemma equalsUint8Array_eq (a b : list byte) :
  util.equalsUint8Array a b = true <-> a = b.
Proof.
  revert b. induction a as [|x a IH]; intros [|y b]; simpl; split; intros H;
    try reflexivity; try discriminate H.
  - apply andb_prop in H as [Hx Ha]. apply Byte.byte_dec_bl in Hx. apply IH in Ha.
    congruence.
  - injection H as -> ->. rewrite (Byte.byte_dec_lb eq_refl). simpl. apply IH. reflexivity.
Qed.

Lemma sameIssuer_length (s : Signature.t) (l : list Signature.t) :
  List.length (snd (SubKey.sameIssuer s l)) = List.length l.
Proof.
  induction l as [|b l IH]; simpl; [reflexivity|].
  destruct (_ && _); simpl; [reflexivity|].
  destruct (SubKey.sameIssuer s l) as [r rest]. simpl in *. congruence.
Qed.

Lemma leaves_dest_None : leaves_dest None.
Proof. intros f Hf. discriminate Hf. Qed.

Lemma leaves_dest_check (f : Signature.t -> M bool) : leaves_dest (Some (check f)).
Proof.
  intros g Hg s d st b d' st' H. injection Hg as <-. unfold check in H.
  apply bind_inv in H as (x & st1 & _ & H). apply ret_inv in H as [H _].
  injection H as _ ->. reflexivity.
Qed.

Section Merge.
Context {E : Externals}.

(** The check functions maintain every property of [dest[attr]] that
    each of them maintains, and the signatures they pass on are signatures
    of the source. *)
Lemma mergeSignatures_checks_invariant (I : list Signature.t -> Prop)
      (checkFn : option CheckFn) (source : list Signature.t) :
  (forall f, checkFn = Some f ->
             forall s d st b d' st', f s d st = Ok ((b, d'), st') -> I d -> I d') ->
  forall dest st r st',
    I dest ->
    mergeSignatures_checks checkFn source dest st = Ok (r, st') ->
    I (snd r) /\ incl (map fst (fst r)) source.
Proof.
  intros Hf. induction source as [|s source IH]; intros dest st r st' HI H; simpl in H.
  - apply ret_inv in H as [-> _]. split; [exact HI | intros x []].
  - destruct (sig_isExpired s (Some now)).
    + destruct (IH _ _ _ _ HI H) as [H1 H2]. split; [exact H1|].
      intros x Hx. right. apply H2, Hx.
    + apply bind_inv in H as ([ok dest1] & st1 & Hc & H).
      assert (HI1 : I dest1).
      { destruct checkFn as [f|].
        - eapply Hf; [reflexivity | exact Hc | exact HI].
        - apply ret_inv in Hc as [Hc _]. injection Hc as _ ->. exact HI. }
      apply bind_inv in H as (r' & st2 & Hr' & H). apply ret_inv in H as [-> _].
      destruct (IH _ _ _ _ HI1 Hr') as [H1 H2]. split; [exact H1|]. simpl.
      intros x [<-|Hx]; [left; reflexivity | right; apply H2, Hx].
Qed.

Lemma mergeSignatures_pushes_invariant (I : list Signature.t -> Prop)
      (checked : list (Signature.t * bool)) :
  (forall s d, In s (map fst checked) ->
               existsb (fun destSig => util.equalsUint8Array (Signature.signature destSig)
                                                             (Signature.signature s)) d = false ->
               I d -> I (d ++ [s])) ->
  forall dest, I dest -> I (mergeSignatures_pushes checked dest).
Proof.
  induction checked as [|[s ok] checked IH]; intros Hpush dest HI; simpl; [exact HI|].
  assert (Hpush' : forall s0 d, In s0 (map fst checked) ->
             existsb (fun destSig => util.equalsUint8Array (Signature.signature destSig)
                                                           (Signature.signature s0)) d = false ->
             I d -> I (d ++ [s0])).
  { intros s0 d Hs0. apply Hpush. right. exact Hs0. }
  destruct ok; simpl; [|apply IH; assumption].
  destruct (existsb _ dest) eqn:Hex; simpl; [apply IH; assumption|].
  apply IH; [exact Hpush'|]. apply Hpush; [left; reflexivity | exact Hex | exact HI].
Qed.

(** What mergeSignatures does on a destination that is not empty, stated
    for any property of the list that the [checkFn] and a push maintain. *)
Lemma mergeSignatures_each_invariant (I : list Signature.t -> Prop)
      (checkFn : option CheckFn) (source : list Signature.t) :
  (forall f, checkFn = Some f ->
             forall s d st b d' st', f s d st = Ok ((b, d'), st') -> I d -> I d') ->
  (forall s d, In s source ->
               existsb (fun destSig => util.equalsUint8Array (Signature.signature destSig)
                                                             (Signature.signature s)) d = false ->
               I d -> I (d ++ [s])) ->
  forall dest st r st',
    I dest ->
    mergeSignatures_each checkFn source dest st = Ok (r, st') -> I r.
Proof.
  intros Hf Hpush dest st r st' HI H. unfold mergeSignatures_each in H.
  apply bind_inv in H as (c & st1 & Hc & H). apply ret_inv in H as [-> _].
  destruct (mergeSignatures_checks_invariant I checkFn source Hf _ _ _ _ HI Hc) as [H1 H2].
  apply mergeSignatures_pushes_invariant; [|exact H1].
  intros s d Hs. apply Hpush, H2, Hs.
Qed.

Lemma mergeSignatures_prefix (source dest : list Signature.t) (checkFn : option CheckFn)
      (st st' : Store) (r : list Signature.t) :
  leaves_dest checkFn ->
  mergeSignatures source dest checkFn st = Ok (r, st') -> prefix dest r.
Proof.
  intros Hleave H. unfold mergeSignatures in H.
  destruct dest as [|d0 dest]; [apply prefix_nil|].
  eapply (mergeSignatures_each_invariant (prefix (d0 :: dest))); [| | apply prefix_refl | exact H].
  - intros f Hf s d st0 b d' st0' Hrun Hd. rewrite (Hleave f Hf _ _ _ _ _ _ Hrun). exact Hd.
  - intros s d _ _ [a ->]. exists (a ++ [s]). symmetry. apply app_assoc.
Qed.

Lemma mergeSignatures_length (source dest : list Signature.t) (checkFn : option CheckFn)
      (st st' : Store) (r : list Signature.t) :
  (forall f, checkFn = Some f ->
             forall s d st b d' st', f s d st = Ok ((b, d'), st') ->
                                     List.length d' = List.length d) ->
  mergeSignatures source dest checkFn st = Ok (r, st') ->
  (List.length dest <= List.length r)%nat.
Proof.
  intros Hlen H. unfold mergeSignatures in H.
  destruct dest as [|d0 dest]; [simpl; lia|].
  eapply (mergeSignatures_each_invariant
            (fun l => (List.length (d0 :: dest) <= List.length l)%nat));
    [| | apply Nat.le_refl | exact H].
  - intros f Hf s d st0 b d' st0' Hrun Hd. rewrite (Hlen f Hf _ _ _ _ _ _ Hrun). exact Hd.
  - intros s d _ _ Hd. rewrite length_app. simpl in *. lia.
Qed.


(** A source all of whose signatures the destination has, by their raw
    bytes, adds nothing. *)
Lemma mergeSignatures_nothing_new (source dest : list Signature.t) (checkFn : option CheckFn)
      (st st' : Store) (r : list Signature.t) :
  leaves_dest checkFn ->
  (dest = [] -> source = []) ->
  (forall s, In s source -> exists d, In d dest /\ Signature.signature d = Signature.signature s) ->
  mergeSignatures source dest checkFn st = Ok (r, st') ->
  r = dest.
Proof.
  intros Hleave Hnil Hall H. unfold mergeSignatures in H.
  destruct dest as [|d0 dest].
  - apply ret_inv in H as [-> _]. apply Hnil. reflexivity.
  - eapply (mergeSignatures_each_invariant (fun l => l = d0 :: dest));
      [| | reflexivity | exact H].
    + intros f Hf s d st0 b d' st0' Hrun HI. rewrite (Hleave f Hf _ _ _ _ _ _ Hrun). exact HI.
    + intros s d Hs Hex ->. exfalso.
      destruct (Hall s Hs) as (x & Hx & Hbytes).
      assert (Hc : existsb (fun destSig =>
                              util.equalsUint8Array (Signature.signature destSig)
                                                    (Signature.signature s)) (d0 :: dest) = true).
      { apply existsb_exists. exists x. split; [exact Hx|]. apply equalsUint8Array_eq, Hbytes. }
      congruence.
Qed.

Lemma User_update_extends (this user : User.t) (primaryKey : KeyPacket.t) (st st' : Store)
      (this' : User.t) :
  User.update this user primaryKey st = Ok (this', st') -> user_extends this this'.
Proof.
  intros H. unfold User.update in H.
  apply bind_inv in H as (selfs & st1 & H1 & H).
  apply bind_inv in H as (others & st2 & H2 & H).
  apply bind_inv in H as (revs & st3 & H3 & H).
  apply ret_inv in H as [-> _].
  apply mergeSignatures_prefix in H1; [|apply leaves_dest_check].
  apply mergeSignatures_prefix in H2; [|apply leaves_dest_None].
  apply mergeSignatures_prefix in H3; [|apply leaves_dest_check].
  repeat split; assumption.
Qed.

(** X12. Updating a user from itself returns, and changes nothing. *)
Theorem User_update_from_itself (this : User.t) (primaryKey : KeyPacket.t) (st : Store) :
  exists st', User.update this this primaryKey st = Ok (this, st').
Proof.
  destruct (throws_only_never _ (total_User_update this this primaryKey) st)
    as (this' & st' & H).
  exists st'. rewrite H. f_equal. f_equal.
  unfold User.update in H.
  apply bind_inv in H as (selfs & st1 & H1 & H).
  apply bind_inv in H as (others & st2 & H2 & H).
  apply bind_inv in H as (revs & st3 & H3 & H).
  apply ret_inv in H as [-> _].
  apply mergeSignatures_nothing_new in H1; [|apply leaves_dest_check | auto | eauto].
  apply mergeSignatures_nothing_new in H2; [|apply leaves_dest_None | auto | eauto].
  apply mergeSignatures_nothing_new in H3; [|apply leaves_dest_check | auto | eauto].
  subst. destruct this; reflexivity.
Qed.

Lemma SubKey_update_extends (this subKey' : SubKey.t) (primaryKey : KeyPacket.t)
      (st st' : Store) (this' : SubKey.t) :
  SubKey.update this subKey' primaryKey st = Ok (this', st') -> subKey_extends this this'.
Proof.
  intros H. unfold SubKey.update in H.
  apply bind_inv in H as (status & st1 & _ & H).
  destruct (keyStatus_eq status enums.keyStatus.invalid);
    [apply ret_inv in H as [-> _]; apply subKey_extends_refl|].
  destruct (String.eqb _ _) eqn:Hfp; simpl in H; [|apply throw_inv in H; contradiction].
  apply String.eqb_eq in Hfp.
  apply bind_inv in H as (bindings & st2 & H2 & H).
  apply bind_inv in H as (revs & st3 & H3 & H).
  apply ret_inv in H as [-> _].
  apply mergeSignatures_prefix in H3; [|apply leaves_dest_check].
  apply mergeSignatures_length in H2.
  - repeat split; simpl; [|exact H2 | exact H3].
    destruct (KeyPacket.proto (SubKey.subKey this)), (KeyPacket.proto (SubKey.subKey subKey'));
      auto.
  - intros f Hf s d st0 b d' st0' Hrun. injection Hf as <-.
    apply bind_inv in Hrun as (v & st4 & _ & Hrun).
    destruct (negb v); apply ret_inv in Hrun as [Hrun _].
    + injection Hrun as _ ->. reflexivity.
    + rewrite <- (sameIssuer_length s d). rewrite <- Hrun. reflexivity.
Qed.

Lemma update_users_of_extends (primaryKey : KeyPacket.t) (srcUser : User.t)
      (dstUsers : list User.t) :
  forall st r st',
    Key.update_users_of primaryKey srcUser dstUsers st = Ok (r, st') ->
    Forall2 user_extends dstUsers (snd r).
Proof.
  induction dstUsers as [|d l IH]; intros st r st' H; simpl in H.
  - apply ret_inv in H as [-> _]. constructor.
  - apply bind_inv in H as (same & st1 & _ & H).
    apply bind_inv in H as (d' & st2 & Hd & H).
    apply bind_inv in H as (r' & st3 & Hr & H).
    apply ret_inv in H as [-> _]. simpl. constructor; [|eapply IH; exact Hr].
    destruct same; [eapply User_update_extends; exact Hd|].
    apply ret_inv in Hd as [-> _]. apply user_extends_refl.
Qed.

Lemma update_users_extends (primaryKey : KeyPacket.t) (srcUsers : list User.t) :
  forall dstUsers pushed st r st',
    Key.update_users primaryKey srcUsers dstUsers pushed st = Ok (r, st') ->
    exists us added,
      r = us ++ pushed ++ added
      /\ Forall2 user_extends dstUsers us
      /\ incl added srcUsers.
Proof.
  induction srcUsers as [|s l IH]; intros dstUsers pushed st r st' H; simpl in H.
  - apply ret_inv in H as [-> _]. exists dstUsers, [].
    rewrite app_nil_r. split; [reflexivity|]. split; [|apply incl_refl].
    apply Forall2_refl, user_extends_refl.
  - apply bind_inv in H as (r1 & st1 & H1 & H).
    apply update_users_of_extends in H1.
    destruct (IH _ _ _ _ _ H) as (us & added & -> & Hus & Hadded).
    destruct (fst r1).
    + exists us, added. split; [reflexivity|]. split.
      * eapply Forall2_trans; [exact user_extends_trans | exact H1 | exact Hus].
      * intros x Hx. right. apply Hadded, Hx.
    + exists us, (s :: added). split; [rewrite <- app_assoc; reflexivity|]. split.
      * eapply Forall2_trans; [exact user_extends_trans | exact H1 | exact Hus].
      * intros x [<-|Hx]; [left; reflexivity | right; apply Hadded, Hx].
Qed.

Lemma update_subKeys_of_extends (primaryKey : KeyPacket.t) (srcSubKey : SubKey.t)
      (dstSubKeys : list SubKey.t) :
  forall st r st',
    Key.update_subKeys_of primaryKey srcSubKey dstSubKeys st = Ok (r, st') ->
    Forall2 subKey_extends dstSubKeys (snd r).
Proof.
  induction dstSubKeys as [|d l IH]; intros st r st' H; simpl in H.
  - apply ret_inv in H as [-> _]. constructor.
  - apply bind_inv in H as (d' & st2 & Hd & H).
    apply bind_inv in H as (r' & st3 & Hr & H).
    apply ret_inv in H as [-> _]. simpl. constructor; [|eapply IH; exact Hr].
    destruct (String.eqb _ _); [eapply SubKey_update_extends; exact Hd|].
    apply ret_inv in Hd as [-> _]. apply subKey_extends_refl.
Qed.

Lemma update_subKeys_extends (primaryKey : KeyPacket.t) (srcSubKeys : list SubKey.t) :
  forall dstSubKeys pushed st r st',
    Key.update_subKeys primaryKey srcSubKeys dstSubKeys pushed st = Ok (r, st') ->
    exists ks added,
      r = ks ++ pushed ++ added
      /\ Forall2 subKey_extends dstSubKeys ks
      /\ incl added srcSubKeys.
Proof.
  induction srcSubKeys as [|s l IH]; intros dstSubKeys pushed st r st' H; simpl in H.
  - apply ret_inv in H as [-> _]. exists dstSubKeys, [].
    rewrite app_nil_r. split; [reflexivity|]. split; [|apply incl_refl].
    apply Forall2_refl, subKey_extends_refl.
  - apply bind_inv in H as (r1 & st1 & H1 & H).
    apply update_subKeys_of_extends in H1.
    destruct (IH _ _ _ _ _ H) as (ks & added & -> & Hks & Hadded).
    destruct (fst r1).
    + exists ks, added. split; [reflexivity|]. split.
      * eapply Forall2_trans; [exact subKey_extends_trans | exact H1 | exact Hks].
      * intros x Hx. right. apply Hadded, Hx.
    + exists ks, (s :: added). split; [rewrite <- app_assoc; reflexivity|]. split.
      * eapply Forall2_trans; [exact subKey_extends_trans | exact H1 | exact Hks].
      * intros x [<-|Hx]; [left; reflexivity | right; apply Hadded, Hx].
Qed.

(** X13. Key.update removes nothing from the destination: the primary key
    keeps its fingerprint; the key's revocation and direct signatures are
    extended at their end; the users the destination had are still there,
    in their order, each with its containers extended at their end, and the
    users pushed after them come from the source; likewise the subkeys,
    which keep their fingerprints and lose no binding signature by number. *)
Theorem update_keeps_destination (this key this' : Key.t) (st st' : Store) :
  Key.update this key st = Ok (this', st') ->
  KeyPacket.getFingerprint (Key.primaryKey this')
  = KeyPacket.getFingerprint (Key.primaryKey this)
  /\ prefix (Key.revocationSignatures this) (Key.revocationSignatures this')
  /\ prefix (Key.directSignatures this) (Key.directSignatures this')
  /\ (exists us added,
         Key.users this' = us ++ added
         /\ Forall2 user_extends (Key.users this) us
         /\ incl added (Key.users key))
  /\ (exists ks added,
         Key.subKeys this' = ks ++ added
         /\ Forall2 subKey_extends (Key.subKeys this) ks
         /\ incl added (Key.subKeys key)).
Proof.
  intros H. unfold Key.update in H.
  apply bind_inv in H as (status & st1 & _ & H).
  destruct (keyStatus_eq status enums.keyStatus.invalid).
  { apply ret_inv in H as [-> _].
    split; [reflexivity|]. split; [apply prefix_refl|]. split; [apply prefix_refl|]. split.
    - exists (Key.users this), []. rewrite app_nil_r. split; [reflexivity|].
      split; [apply Forall2_refl, user_extends_refl | intros x []].
    - exists (Key.subKeys this), []. rewrite app_nil_r. split; [reflexivity|].
      split; [apply Forall2_refl, subKey_extends_refl | intros x []]. }
  destruct (String.eqb _ _) eqn:Hfp; simpl in H; [|apply throw_inv in H; contradiction].
  apply String.eqb_eq in Hfp.
  apply bind_inv in H as (pk & st2 & Hpk & H). apply lift_inv in Hpk as [Hpk ->].
  apply bind_inv in H as (revs & st3 & H3 & H).
  apply bind_inv in H as (directs & st4 & H4 & H).
  apply bind_inv in H as (us & st5 & H5 & H).
  apply bind_inv in H as (ks & st6 & H6 & H).
  apply ret_inv in H as [-> _]. simpl.
  apply mergeSignatures_prefix in H3; [|apply leaves_dest_check].
  apply mergeSignatures_prefix in H4; [|apply leaves_dest_None].
  apply update_users_extends in H5. apply update_subKeys_extends in H6.
  split; [|split; [exact H3 | split; [exact H4 | split; [exact H5 | exact H6]]]].
  unfold Key.update_primaryKey in Hpk.
  destruct (_ && _); [|injection Hpk as <-; reflexivity].
  destruct (negb _); [discriminate Hpk|]. injection Hpk as <-. symmetry. exact Hfp.
Qed.

(** X14. When the fingerprints of the two primary keys differ, Key.update
    throws the fingerprint error, unless the source key is invalid: then it
    returns the destination as it is. *)
Theorem update_fingerprint_mismatch (this key : Key.t) (st : Store) :
  String.eqb (KeyPacket.getFingerprint (Key.primaryKey this))
             (KeyPacket.getFingerprint (Key.primaryKey key)) = false ->
  exists status st1,
    Key.verifyPrimaryKey key (Some now) st = Ok (status, st1)
    /\ Key.update this key st
       = if keyStatus_eq status enums.keyStatus.invalid then Ok (this, st1)
         else Throw FingerprintMismatch.
Proof.
  intros Hfp.
  destruct (throws_only_never _ (total_verifyPrimaryKey key (Some now)) st)
    as (status & st1 & Hrun).
  exists status, st1. split; [exact Hrun|].
  unfold Key.update. rewrite (bind_ok _ _ _ _ _ Hrun).
  destruct (keyStatus_eq status enums.keyStatus.invalid); [reflexivity|].
  rewrite Hfp. reflexivity.
Qed.

Lemma total_SubKey_update (this subKey' : SubKey.t) (primaryKey : KeyPacket.t) :
  String.eqb (KeyPacket.getFingerprint (SubKey.subKey subKey'))
             (KeyPacket.getFingerprint (SubKey.subKey this)) = true ->
  throws_only nothing (SubKey.update this subKey' primaryKey).
Proof.
  intros Hfp. apply String.eqb_eq in Hfp. unfold SubKey.update.
  apply throws_only_bind; [apply total_SubKey_verify | intros status].
  destruct (keyStatus_eq status _); [apply throws_only_ret|].
  rewrite Hfp, String.eqb_refl. simpl.
  apply throws_only_bind.
  - apply total_mergeSignatures. intros f Hf s d. injection Hf as <-.
    apply throws_only_bind; [apply total_verified_or_verify | intros v].
    destruct (negb v); apply throws_only_ret.
  - intros bindings. apply throws_only_bind; [|intros revs; apply throws_only_ret].
    apply total_mergeSignatures. intros f Hf. injection Hf as <-.
    apply total_check. intros s.
    apply throws_only_bind; [apply total_isDataRevoked | intros r; apply throws_only_ret].
Qed.

Lemma nothing_update_error {A} (m : M A) : throws_only nothing m -> throws_only update_error m.
Proof. apply throws_only_weaken. intros e []. Qed.

(** X15. Key.update throws nothing but the fingerprint error, the subkey
    mismatch error and a TypeError; the fingerprint error of SubKey.update
    never comes out of it. *)
Theorem update_throws_only (this key : Key.t) : throws_only update_error (Key.update this key).
Proof.
  unfold Key.update.
  apply throws_only_bind; [apply nothing_update_error, total_verifyPrimaryKey | intros status].
  destruct (keyStatus_eq status _); [apply throws_only_ret|].
  destruct (negb _); [apply throws_only_throw; left; reflexivity|].
  apply throws_only_bind.
  { apply throws_only_lift. intros e He. unfold Key.update_primaryKey in He.
    destruct (_ && _); [|discriminate He].
    destruct (negb _); [|discriminate He]. injection He as <-. right; left; reflexivity. }
  intros pk. apply throws_only_bind.
  { apply nothing_update_error, total_mergeSignatures. intros f Hf. injection Hf as <-.
    unfold Key.update_checkRevocation. apply total_check. intros s.
    apply throws_only_bind; [apply total_isDataRevoked | intros r; apply throws_only_ret]. }
  intros revs. apply throws_only_bind.
  { apply nothing_update_error, total_mergeSignatures. intros f Hf. discriminate Hf. }
  intros directs. apply throws_only_bind.
  { generalize (Key.users this) (@nil User.t).
    induction (Key.users key) as [|s l IH]; intros dst pushed; simpl; [apply throws_only_ret|].
    apply throws_only_bind; [|intros r; apply IH].
    clear IH. induction dst as [|d dst IH]; simpl; [apply throws_only_ret|].
    apply throws_only_bind.
    { apply throws_only_lift. intros e He. unfold Key.same_user in He.
      destruct (User.userId s); [|discriminate He].
      destruct (User.userId d); [|injection He as <-; right; right; reflexivity].
      destruct (String.eqb _ _); discriminate He. }
    intros same. apply throws_only_bind.
    { destruct same; [apply nothing_update_error, total_User_update | apply throws_only_ret]. }
    intros d'. apply throws_only_bind; [exact IH | intros r; apply throws_only_ret]. }
  intros us. apply throws_only_bind; [|intros ks; apply throws_only_ret].
  generalize (Key.subKeys this) (@nil SubKey.t).
  induction (Key.subKeys key) as [|s l IH]; intros dst pushed; simpl; [apply throws_only_ret|].
  apply throws_only_bind; [|intros r; apply IH].
  clear IH. induction dst as [|d dst IH]; simpl; [apply throws_only_ret|].
  apply throws_only_bind.
  { destruct (String.eqb _ _) eqn:Hfp; [|apply throws_only_ret].
    apply nothing_update_error, total_SubKey_update, Hfp. }
  intros d'. apply throws_only_bind; [exact IH | intros r; apply throws_only_ret].
Qed.

End Merge.

(** ** Building a key from its own serialization *)

Lemma build_user (pk : option KeyPacket.t) (R D : list Signature.t) (id : Keyid.t)
      (usr : User.t) :
  user_ok id usr ->
  forall U S u s rest,
    Key.packetlist2structure (Key.mkBuilding pk R D U S u (Some id) s)
                             (User.toPacketlist usr ++ rest)
    = Key.packetlist2structure (Key.mkBuilding pk R D (U ++ [usr]) S true (Some id) s) rest.
Proof.
  intros (Hone & Hr & Hs & Ho) U S u s rest.
  destruct usr as [uid uattr selfs others revs]. simpl in Hone, Hr, Hs, Ho.
  assert (Hpacket : exists up,
             uid = match up with IsUserid p => Some p | _ => None end
             /\ uattr = match up with IsUserAttribute p => Some p | _ => None end).
  { destruct uid as [p|], uattr as [a|].
    - exfalso. assert (H : Some p = None) by (apply Hone; discriminate). discriminate H.
    - exists (IsUserid p). split; reflexivity.
    - exists (IsUserAttribute a). split; reflexivity.
    - exfalso. apply (proj1 Hone); reflexivity. }
  destruct Hpacket as (up & -> & ->).
  transitivity
    (Key.packetlist2structure
       (Key.mkBuilding pk R D (U ++ [User.new up]) S true (Some id) s)
       (map SigPkt revs ++ map SigPkt selfs ++ map SigPkt others ++ rest)).
  { unfold User.toPacketlist, User.userPacket. destruct up; simpl;
      rewrite <- !app_assoc; reflexivity. }
  unfold User.new.
  rewrite (build_user_revocations pk R D revs Hr).
  rewrite (build_selfCertifications pk R D id selfs Hs).
  rewrite (build_otherCertifications pk R D id others Ho).
  reflexivity.
Qed.

Lemma build_users (pk : option KeyPacket.t) (R D : list Signature.t) (id : Keyid.t)
      (usrs : list User.t) :
  Forall (user_ok id) usrs ->
  forall U S u s rest, exists u',
    Key.packetlist2structure (Key.mkBuilding pk R D U S u (Some id) s)
                             (List.concat (map User.toPacketlist usrs) ++ rest)
    = Key.packetlist2structure (Key.mkBuilding pk R D (U ++ usrs) S u' (Some id) s) rest.
Proof.
  induction 1 as [|usr usrs Hu _ IH]; intros U S u s rest.
  - exists u. rewrite app_nil_r. reflexivity.
  - cbn [map List.concat]. rewrite <- app_assoc, (build_user pk R D id usr Hu).
    destruct (IH (U ++ [usr]) S true s rest) as (u' & ->).
    exists u'. rewrite <- app_assoc. reflexivity.
Qed.

Lemma build_subKey (pk : option KeyPacket.t) (R D : list Signature.t) (sk : SubKey.t) :
  subKey_ok sk ->
  forall U S u id s rest,
    Key.packetlist2structure (Key.mkBuilding pk R D U S u id s)
                             (SubKey.toPacketlist sk ++ rest)
    = Key.packetlist2structure (Key.mkBuilding pk R D U (S ++ [sk]) false id true) rest.
Proof.
  intros (Hk & Hr & Hb) U S u id s rest.
  destruct sk as [k bindings revs]. simpl in Hk, Hr, Hb.
  transitivity
    (Key.packetlist2structure
       (Key.mkBuilding pk R D U (S ++ [SubKey.new k]) false id true)
       (map SigPkt revs ++ map SigPkt bindings ++ rest)).
  { unfold SubKey.toPacketlist. simpl. rewrite <- app_assoc.
    unfold is_subkey in Hk. unfold KeyPacket.tag.
    destruct (KeyPacket.proto k); try discriminate Hk; reflexivity. }
  unfold SubKey.new.
  rewrite (build_subkey_revocations pk R D revs Hr), (build_bindingSignatures pk R D bindings Hb).
  reflexivity.
Qed.

Lemma build_subKeys (pk : option KeyPacket.t) (R D : list Signature.t) (sks : list SubKey.t) :
  Forall subKey_ok sks ->
  forall U S u id s rest, exists u' s',
    Key.packetlist2structure (Key.mkBuilding pk R D U S u id s)
                             (List.concat (map SubKey.toPacketlist sks) ++ rest)
    = Key.packetlist2structure (Key.mkBuilding pk R D U (S ++ sks) u' id s') rest.
Proof.
  induction 1 as [|sk sks Hk _ IH]; intros U S u id s rest.
  - exists u, s. rewrite app_nil_r. reflexivity.
  - cbn [map List.concat]. rewrite <- app_assoc, (build_subKey pk R D sk Hk).
    destruct (IH U (S ++ [sk]) false id true rest) as (u' & s' & ->).
    exists u', s'. rewrite <- app_assoc. reflexivity.
Qed.

Lemma new_toPacketlist (key : Key.t) : key_ok key -> Key.new (Key.toPacketlist key) = Ok key.
Proof.
  intros (Hk & Hr & Hd & Hne & Hu & Hs).
  destruct key as [k revs directs usrs sks]. simpl in Hk, Hr, Hd, Hne, Hu, Hs.
  assert (Hstart : forall rest,
             Key.packetlist2structure Key.empty (KeyPkt k :: rest)
             = Key.packetlist2structure
                 (Key.mkBuilding (Some k) [] [] [] [] false (Some (KeyPacket.getKeyId k)) false)
                 rest).
  { intros rest. unfold is_primary in Hk. simpl. unfold KeyPacket.tag.
    destruct (KeyPacket.proto k); try discriminate Hk; reflexivity. }
  destruct (build_users (Some k) revs directs (KeyPacket.getKeyId k) usrs Hu
              [] [] false false (List.concat (map SubKey.toPacketlist sks))) as (u1 & Hrun1).
  destruct (build_subKeys (Some k) revs directs sks Hs
              ([] ++ usrs) [] u1 (Some (KeyPacket.getKeyId k)) false []) as (u2 & s2 & Hrun2).
  rewrite app_nil_r in Hrun2.
  unfold Key.new, Key.toPacketlist. simpl Key.primaryKey. simpl Key.revocationSignatures.
  simpl Key.directSignatures. simpl Key.users. simpl Key.subKeys.
  rewrite Hstart.
  rewrite (build_key_revocations (Some k) [] revs Hr).
  rewrite (build_direct_signatures (Some k) revs directs Hd).
  simpl app. rewrite Hrun1, Hrun2. simpl.
  destruct usrs; [contradiction | reflexivity].
Qed.

(** X16. [new Key(key.toPacketlist())] is [key], for a key of this form
    ([key_ok]): the primary key packet is a PublicKey or a SecretKey packet;
    the revocationSignatures are of type key_revocation and the
    directSignatures of type key or cert_revocation; there is at least one
    user; each user has exactly one of userId and userAttribute, its
    revocationSignatures are of type cert_revocation, its
    selfCertifications are certifications (cert_generic, cert_persona,
    cert_casual, cert_positive) whose issuer is the key ID of the primary
    key, and its otherCertifications are certifications of another issuer;
    each subkey packet is a PublicSubkey or a SecretSubkey packet, with
    revocationSignatures of type subkey_revocation and bindingSignatures of
    type subkey_binding. *)
Theorem new_rebuilds_serialized_key (key : Key.t) :
  key_ok key -> Key.new (Key.toPacketlist key) = Ok key.
Proof. exact (new_toPacketlist key). Qed.

(** ** What the builder keeps of a packet sequence *)

Lemma update_last_In {A B} (f : A -> A) (g : A -> list B) (extra : B) (l : list A) (x : B) :
  (forall a y, In y (g (f a)) -> y = extra \/ In y (g a)) ->
  In x (List.concat (map g (Key.update_last f l))) ->
  x = extra \/ In x (List.concat (map g l)).
Proof.
  intros Hf. induction l as [|a l IH]; simpl; [intros []|].
  destruct l as [|b l].
  - simpl. rewrite !app_nil_r. apply Hf.
  - cbn [map List.concat]. rewrite !in_app_iff. intros [H|H]; [auto|].
    destruct (IH H) as [H'|H']; [auto|]. cbn [map List.concat] in H'.
    rewrite in_app_iff in H'. tauto.
Qed.

Lemma map_update_last {A B} (f : A -> A) (g : A -> B) (l : list A) :
  (forall a, g (f a) = g a) -> map g (Key.update_last f l) = map g l.
Proof.
  intros Hf. induction l as [|a l IH]; [reflexivity|].
  destruct l as [|b l]; [simpl; rewrite Hf; reflexivity|].
  change (g a :: map g (Key.update_last f (b :: l)) = g a :: map g (b :: l)).
  rewrite IH. reflexivity.
Qed.

Ltac in_contents :=
  unfold contents; simpl; rewrite ?map_app, ?concat_app; simpl;
  rewrite ?in_app_iff; simpl; rewrite ?in_app_iff; simpl.

Lemma step_contents (b b' : Key.building) (p x : Packet) :
  Key.step b p = Ok b' -> In x (contents b') -> x = p \/ In x (contents b).
Proof.
  intros H.
  assert (Huser : forall (f : Signature.t -> User.t -> User.t) s,
             (f = Key.push_selfCertification \/ f = Key.push_otherCertification
              \/ f = Key.push_userRevocation) ->
             In x (List.concat (map User.toPacketlist (Key.update_last (f s) (Key.b_users b)))) ->
             x = SigPkt s \/ In x (List.concat (map User.toPacketlist (Key.b_users b)))).
  { intros f s Hf. apply update_last_In. intros a y.
    destruct Hf as [ -> | [ -> | -> ] ]; unfold User.toPacketlist, User.userPacket; simpl;
      rewrite ?map_app, ?in_app_iff; simpl; intuition congruence. }
  assert (Hsub : forall (f : Signature.t -> SubKey.t -> SubKey.t) s,
             (f = Key.push_bindingSignature \/ f = Key.push_subkeyRevocation) ->
             In x (List.concat (map SubKey.toPacketlist
                                    (Key.update_last (f s) (Key.b_subKeys b)))) ->
             x = SigPkt s \/ In x (List.concat (map SubKey.toPacketlist (Key.b_subKeys b)))).
  { intros f s Hf. apply update_last_In. intros a y.
    destruct Hf as [ -> | -> ]; unfold SubKey.toPacketlist; simpl;
      rewrite ?map_app, ?in_app_iff; simpl; rewrite ?in_app_iff; intuition congruence. }
  destruct p as [k|u|a|s|n].
  - unfold Key.step, KeyPacket.tag in H.
    destruct (KeyPacket.proto k); injection H as <-; in_contents;
      unfold SubKey.toPacketlist; simpl; intros Hx;
      destruct (Key.b_primaryKey b); simpl in *; solve [intuition congruence].
  - injection H as <-. in_contents. unfold User.toPacketlist; simpl. intuition congruence.
  - injection H as <-. in_contents. unfold User.toPacketlist; simpl. intuition congruence.
  - unfold Key.step in H.
    destruct (Signature.signatureType s);
      repeat match type of H with
             | (if ?c then _ else _) = _ => destruct c
             | match ?c with _ => _ end = _ => destruct c
             end;
      try discriminate H; injection H as <-; try (right; assumption);
      unfold contents; simpl; rewrite ?map_app; simpl; rewrite ?in_app_iff; simpl;
      rewrite ?in_app_iff; simpl; intros Hx;
      repeat match goal with
             | Hx : _ \/ _ |- _ => destruct Hx as [Hx|Hx]
             end;
      try (solve [intuition congruence]);
      first [ apply (Huser Key.push_selfCertification) in Hx
            | apply (Huser Key.push_otherCertification) in Hx
            | apply (Huser Key.push_userRevocation) in Hx
            | apply (Hsub Key.push_bindingSignature) in Hx
            | apply (Hsub Key.push_subkeyRevocation) in Hx ];
      intuition congruence.
  - injection H as <-. auto.
Qed.

Lemma packetlist2structure_contents (l : list Packet) :
  forall b b' x,
    Key.packetlist2structure b l = Ok b' -> In x (contents b') -> In x l \/ In x (contents b).
Proof.
  induction l as [|p l IH]; intros b b' x H Hx; simpl in H.
  - injection H as <-. right. exact Hx.
  - destruct (Key.step b p) as [b1|] eqn:Hstep; [|discriminate H].
    destruct (IH _ _ _ H Hx) as [Hin|Hin]; [left; right; exact Hin|].
    destruct (step_contents _ _ _ _ Hstep Hin) as [->|Hin']; [left; left; reflexivity|].
    right. exact Hin'.
Qed.

Lemma new_contents (p : list Packet) (key : Key.t) :
  Key.new p = Ok key -> incl (Key.toPacketlist key) p.
Proof.
  intros H x Hx. unfold Key.new in H.
  destruct (Key.packetlist2structure Key.empty p) as [b|] eqn:Hb; [|discriminate H].
  destruct (Key.b_primaryKey b) as [k|] eqn:Hk; [|discriminate H].
  destruct (Key.b_users b) as [|u us] eqn:Hu; [discriminate H|].
  injection H as <-.
  destruct (packetlist2structure_contents p Key.empty b x Hb) as [Hin|[]]; [|exact Hin].
  unfold contents. rewrite Hk, Hu. exact Hx.
Qed.

(** X17. The constructor invents nothing: every packet of the Key it
    builds is a packet of the sequence it was given. *)
Theorem new_invents_no_packet (p : list Packet) (key : Key.t) :
  Key.new p = Ok key -> incl (Key.toPacketlist key) p.
Proof. exact (new_contents p key). Qed.

Lemma step_packets (b b' : Key.building) (p : Packet) :
  Key.step b p = Ok b' ->
  map SubKey.subKey (Key.b_subKeys b') = map SubKey.subKey (Key.b_subKeys b) ++ subkey_packets [p]
  /\ map User.userId (Key.b_users b')
     = map User.userId (Key.b_users b)
       ++ match p with
          | UseridPkt u => [Some u]
          | UserAttributePkt _ => [None]
          | _ => []
          end.
Proof.
  intros H. destruct p as [k|u|a|s|n].
  - unfold Key.step, KeyPacket.tag in H. unfold subkey_packets, is_subkey. simpl.
    destruct (KeyPacket.proto k); injection H as <-; simpl;
      rewrite ?map_app, ?app_nil_r; simpl; split; reflexivity.
  - injection H as <-. simpl. rewrite map_app, app_nil_r. split; reflexivity.
  - injection H as <-. simpl. rewrite map_app, app_nil_r. split; reflexivity.
  - unfold Key.step in H. unfold subkey_packets. simpl. rewrite !app_nil_r.
    destruct (Signature.signatureType s);
      repeat match type of H with
             | (if ?c then _ else _) = _ => destruct c
             | match ?c with _ => _ end = _ => destruct c
             end;
      try discriminate H; injection H as <-; simpl;
      rewrite ?map_update_last by reflexivity; split; reflexivity.
  - injection H as <-. unfold subkey_packets. simpl. rewrite !app_nil_r. split; reflexivity.
Qed.

Lemma packetlist2structure_packets (l : list Packet) :
  forall b b',
    Key.packetlist2structure b l = Ok b' ->
    map SubKey.subKey (Key.b_subKeys b') = map SubKey.subKey (Key.b_subKeys b) ++ subkey_packets l
    /\ flat_map (fun u => match u with Some x => [x] | None => [] end)
                (map User.userId (Key.b_users b'))
       = flat_map (fun u => match u with Some x => [x] | None => [] end)
                  (map User.userId (Key.b_users b))
         ++ userid_packets l.
Proof.
  induction l as [|p l IH]; intros b b' H; simpl in H.
  - injection H as <-. unfold subkey_packets, userid_packets. simpl.
    rewrite !app_nil_r. split; reflexivity.
  - destruct (Key.step b p) as [b1|] eqn:Hstep; [|discriminate H].
    destruct (IH _ _ H) as [-> ->]. destruct (step_packets _ _ _ Hstep) as [-> ->].
    rewrite flat_map_app, <- !app_assoc. split.
    + unfold subkey_packets. simpl. rewrite app_nil_r. reflexivity.
    + f_equal. unfold userid_packets. destruct p; reflexivity.
Qed.

(** X18. The constructor keeps every subkey packet and every UserID packet
    of the sequence, in their order: they are what getSubkeyPackets and
    getUserIds return, and getKeyIds returns the key IDs of the primary key
    and of the subkey packets. *)
Theorem new_keeps_subkeys_and_userids (encode_utf8 : string -> string) (p : list Packet)
        (key : Key.t) :
  Key.new p = Ok key ->
  Key.getSubkeyPackets key None = subkey_packets p
  /\ Key.getKeyIds key = map KeyPacket.getKeyId (Key.primaryKey key :: subkey_packets p)
  /\ Key.getUserIds encode_utf8 key
     = map (fun u => encode_utf8 (Userid.userid u)) (userid_packets p).
Proof.
  intros H. unfold Key.new in H.
  destruct (Key.packetlist2structure Key.empty p) as [b|] eqn:Hb; [|discriminate H].
  destruct (Key.b_primaryKey b) as [k|] eqn:Hk; [|discriminate H].
  destruct (Key.b_users b) as [|u us] eqn:Hu; [discriminate H|].
  injection H as <-.
  destruct (packetlist2structure_packets p Key.empty b Hb) as [Hsub Huid].
  simpl in Hsub, Huid.
  assert (Hget : forall ks, flat_map (fun subKey => [SubKey.subKey subKey]) ks
                            = map SubKey.subKey ks).
  { induction ks; simpl; congruence. }
  rewrite <- Hu.
  unfold Key.getKeyIds, Key.getKeyPackets, Key.getSubkeyPackets, Key.getUserIds.
  cbn [Key.users Key.subKeys Key.primaryKey].
  rewrite Hget, Hsub. split; [reflexivity|]. split; [reflexivity|].
  rewrite <- Huid. clear.
  induction (Key.b_users b) as [|x l IH]; simpl; [reflexivity|].
  rewrite map_app, <- IH. destruct (User.userId x); reflexivity.
Qed.

(** ** Reading a key list *)

Lemma indexOfTag_length (p : list Packet) (i : nat) :
  List.length (indexOfTag p i) = List.length (primary_packets p).
Proof.
  revert i. induction p as [|x p IH]; intros i; [reflexivity|].
  unfold primary_packets in *. simpl. rewrite length_app, <- (IH (S i)).
  destruct x as [k|u|a|s|n]; try reflexivity.
  unfold tag, KeyPacket.tag, is_primary. destruct (KeyPacket.proto k); reflexivity.
Qed.

Lemma read_keys_count (packetlist : list Packet) (keyIndex : list nat) :
  forall result,
    (List.length (keys (read_keys packetlist keyIndex result))
     + List.length (errors (read_keys packetlist keyIndex result))
     = List.length (keys result) + List.length (errors result) + List.length keyIndex)%nat.
Proof.
  induction keyIndex as [|i rest IH]; intros result; simpl; [lia|].
  rewrite IH. destruct (Key.new _); unfold errors, push_err; simpl;
    rewrite length_app; simpl; lia.
Qed.

(** X19. read yields one outcome, a key or an error, for every primary key
    packet of the sequence, and the single error 'No key packet found' for
    a sequence without one. *)
Theorem read_one_outcome_per_primary_key (p : list Packet) :
  (List.length (keys (read (Some p))) + List.length (errors (read (Some p)))
   = Nat.max 1 (List.length (primary_packets p)))%nat
  /\ (primary_packets p = [] ->
      read (Some p) = {| keys := []; err := Some [NoKeyPacketFound] |}).
Proof.
  unfold read. pose proof (indexOfTag_length p 0) as Hlen.
  destruct (indexOfTag p 0) as [|i rest] eqn:Hidx.
  - simpl in Hlen. split.
    + rewrite <- Hlen. reflexivity.
    + reflexivity.
  - split.
    + rewrite read_keys_count, <- Hlen. simpl. lia.
    + intros Hnone. rewrite Hnone in Hlen. discriminate Hlen.
Qed.

Lemma indexOfTag_app (l1 l2 : list Packet) (i : nat) :
  indexOfTag (l1 ++ l2) i = indexOfTag l1 i ++ indexOfTag l2 (i + List.length l1).
Proof.
  revert i. induction l1 as [|x l1 IH]; intros i; simpl.
  - rewrite Nat.add_0_r. reflexivity.
  - rewrite IH, <- Nat.add_succ_comm. destruct (tag x); reflexivity.
Qed.

Lemma indexOfTag_none (l : list Packet) (i : nat) :
  forallb (fun p => negb (is_primary_packet p)) l = true -> indexOfTag l i = [].
Proof.
  revert i. induction l as [|x l IH]; intros i H; [reflexivity|].
  simpl in H. apply andb_prop in H as [Hx Hl]. simpl. rewrite (IH _ Hl).
  destruct x as [k|u|a|s|n]; try reflexivity.
  unfold is_primary_packet, is_primary in Hx. unfold tag, KeyPacket.tag.
  destruct (KeyPacket.proto k); try discriminate Hx; reflexivity.
Qed.

Lemma forallb_map_SigPkt (f : Packet -> bool) (l : list Signature.t) :
  (forall s, f (SigPkt s) = true) -> forallb f (map SigPkt l) = true.
Proof. intros Hf. induction l; simpl; [reflexivity | rewrite Hf; assumption]. Qed.

Lemma forallb_concat {A} (f : A -> bool) (ls : list (list A)) :
  Forall (fun l => forallb f l = true) ls -> forallb f (List.concat ls) = true.
Proof.
  induction 1 as [|l ls Hl _ IH]; simpl; [reflexivity|]. rewrite forallb_app, Hl, IH. reflexivity.
Qed.

Lemma User_toPacketlist_no_key (f : Packet -> bool) (u : User.t) :
  (forall s, f (SigPkt s) = true) -> (forall x, f (UseridPkt x) = true) ->
  (forall x, f (UserAttributePkt x) = true) ->
  forallb f (User.toPacketlist u) = true.
Proof.
  intros Hs Hu Ha. unfold User.toPacketlist, User.userPacket.
  rewrite !forallb_app, !forallb_map_SigPkt by exact Hs.
  destruct (User.userId u); [simpl; rewrite Hu; reflexivity|].
  destruct (User.userAttribute u); simpl; [rewrite Ha|]; reflexivity.
Qed.

Lemma toPacketlist_head (key : Key.t) :
  key_ok key ->
  exists body, Key.toPacketlist key = KeyPkt (Key.primaryKey key) :: body
               /\ forallb (fun p => negb (is_primary_packet p)) body = true.
Proof.
  intros (_ & _ & _ & _ & _ & Hs). eexists. split; [reflexivity|].
  rewrite !forallb_app, !forallb_map_SigPkt by reflexivity. simpl.
  rewrite andb_true_iff. split; apply forallb_concat, Forall_map.
  - apply Forall_forall. intros u _. apply User_toPacketlist_no_key; reflexivity.
  - eapply Forall_impl; [|exact Hs]. intros sk (Hk & _ & _).
    unfold SubKey.toPacketlist. simpl. rewrite forallb_app, !forallb_map_SigPkt by reflexivity.
    unfold is_subkey in Hk. unfold is_primary.
    destruct (KeyPacket.proto (SubKey.subKey sk)); try discriminate Hk; reflexivity.
Qed.

Lemma indexOfTag_toPacketlist (key : Key.t) (i : nat) :
  key_ok key -> indexOfTag (Key.toPacketlist key) i = [i].
Proof.
  intros Hok. destruct (toPacketlist_head key Hok) as (body & -> & Hbody).
  destruct Hok as (Hk & _). simpl. rewrite (indexOfTag_none _ _ Hbody).
  unfold is_primary in Hk. unfold KeyPacket.tag.
  destruct (KeyPacket.proto (Key.primaryKey key)); try discriminate Hk; reflexivity.
Qed.

Lemma skipn_length_app {A} (pre l : list A) : skipn (List.length pre) (pre ++ l) = l.
Proof. induction pre; simpl; auto. Qed.

Lemma firstn_length_app {A} (l r : list A) : firstn (List.length l) (l ++ r) = l.
Proof. induction l; simpl; [destruct r; reflexivity | congruence]. Qed.

Lemma read_keys_serialized (ks : list Key.t) :
  Forall key_ok ks ->
  forall pre result,
    read_keys (pre ++ List.concat (map Key.toPacketlist ks))
              (indexOfTag (List.concat (map Key.toPacketlist ks)) (List.length pre)) result
    = {| keys := keys result ++ ks; err := err result |}.
Proof.
  induction 1 as [|k ks Hk Hks IH]; intros pre result.
  - simpl. rewrite app_nil_r. destruct result; reflexivity.
  - cbn [map List.concat].
    rewrite indexOfTag_app, (indexOfTag_toPacketlist k _ Hk).
    cbn [app read_keys].
    assert (Hslice :
              slice (pre ++ Key.toPacketlist k ++ List.concat (map Key.toPacketlist ks))
                    (List.length pre)
                    (hd_error (indexOfTag (List.concat (map Key.toPacketlist ks))
                                          (List.length pre
                                           + List.length (Key.toPacketlist k))))
              = Key.toPacketlist k).
    { unfold slice. destruct ks as [|k2 ks'].
      - cbn [map List.concat indexOfTag hd_error]. rewrite skipn_length_app. apply app_nil_r.
      - cbn [map List.concat]. inversion Hks as [|? ? Hk2 _]; subst.
        rewrite indexOfTag_app, (indexOfTag_toPacketlist k2 _ Hk2). cbn [app hd_error].
        rewrite skipn_length_app.
        replace (List.length pre + List.length (Key.toPacketlist k) - List.length pre)%nat
          with (List.length (Key.toPacketlist k)) by lia.
        apply firstn_length_app. }
    rewrite Hslice, (new_toPacketlist k Hk).
    rewrite app_assoc, <- length_app, IH. simpl. rewrite <- app_assoc. reflexivity.
Qed.

(** X20. Reading the concatenated serializations of one or more keys,
    each of the form [key_ok] (packet classes, signature types per
    container, self-certifications issued by the primary key and other
    certifications not, one of userId and userAttribute per user, at least
    one user), gives the keys back, in their order, and no error. *)
Theorem read_serialized_keys (ks : list Key.t) :
  ks <> [] ->
  Forall key_ok ks ->
  read (Some (List.concat (map Key.toPacketlist ks))) = {| keys := ks; err := None |}.
Proof.
  intros Hne Hks. unfold read.
  pose proof (read_keys_serialized ks Hks [] {| keys := []; err := None |}) as Hread.
  simpl in Hread.
  destruct (indexOfTag (List.concat (map Key.toPacketlist ks)) 0) as [|i rest] eqn:Hidx;
    [|exact Hread].
  exfalso. destruct ks as [|k ks]; [contradiction|].
  inversion Hks as [|? ? Hk _]; subst. cbn [map List.concat] in Hidx.
  rewrite indexOfTag_app, (indexOfTag_toPacketlist k _ Hk) in Hidx. discriminate Hidx.
Qed.

(** ** The public counterpart *)

Lemma step_b_primaryKey (b b' : Key.building) (p : Packet) (k : KeyPacket.t) :
  Key.step b p = Ok b' -> Key.b_primaryKey b' = Some k ->
  is_primary k = true \/ Key.b_primaryKey b = Some k.
Proof.
  intros H Hk. destruct p as [k0|u|a|s|n].
  - unfold Key.step, KeyPacket.tag in H. unfold is_primary.
    destruct (KeyPacket.proto k0) eqn:Hp; injection H as <-; simpl in Hk;
      try (right; exact Hk); injection Hk as <-; rewrite Hp; left; reflexivity.
  - injection H as <-. right. exact Hk.
  - injection H as <-. right. exact Hk.
  - unfold Key.step in H.
    destruct (Signature.signatureType s);
      repeat match type of H with
             | (if ?c then _ else _) = _ => destruct c
             | match ?c with _ => _ end = _ => destruct c
             end;
      try discriminate H; injection H as <-; right; exact Hk.
  - injection H as <-. right. exact Hk.
Qed.

Lemma new_primaryKey (p : list Packet) (key : Key.t) :
  Key.new p = Ok key -> is_primary (Key.primaryKey key) = true.
Proof.
  intros H. unfold Key.new in H.
  destruct (Key.packetlist2structure Key.empty p) as [b|] eqn:Hb; [|discriminate H].
  destruct (Key.b_primaryKey b) as [k|] eqn:Hk; [|discriminate H].
  destruct (Key.b_users b) as [|u0 us0]; [discriminate H|]. injection H as <-. simpl.
  assert (Hgen : forall l b0 b1,
             Key.packetlist2structure b0 l = Ok b1 -> Key.b_primaryKey b1 = Some k ->
             is_primary k = true \/ Key.b_primaryKey b0 = Some k).
  { induction l as [|x l IH]; intros b0 b1 H0 H1; simpl in H0.
    - injection H0 as <-. right. exact H1.
    - destruct (Key.step b0 x) as [b2|] eqn:Hstep; [|discriminate H0].
      destruct (IH _ _ H0 H1) as [Hp|Hp]; [left; exact Hp|].
      eapply step_b_primaryKey; eassumption. }
  destruct (Hgen p Key.empty b Hb Hk) as [Hp|Hp]; [exact Hp | discriminate Hp].
Qed.

Lemma toPublic_packet_not_secret (p : Packet) :
  is_secret_packet (Key.toPublic_packet p) = false.
Proof.
  destruct p as [k|u|a|s|n]; try reflexivity.
  unfold Key.toPublic_packet, is_secret_packet, tag, KeyPacket.tag.
  destruct (KeyPacket.proto k) eqn:Hp; simpl; try rewrite Hp; reflexivity.
Qed.

(** X21. The key that toPublic returns is public, and none of its packets
    is a secret key packet. *)
Theorem toPublic_leaves_no_secret (key key' : Key.t) :
  Key.toPublic key = Ok key' ->
  Key.isPublic key' = true
  /\ forallb (fun p => negb (is_secret_packet p)) (Key.toPacketlist key') = true.
Proof.
  intros H. unfold Key.toPublic in H.
  assert (Hall : forallb (fun p => negb (is_secret_packet p)) (Key.toPacketlist key') = true).
  { apply forallb_forall. intros x Hx.
    apply (new_contents _ _ H), in_map_iff in Hx as (y & <- & _).
    rewrite toPublic_packet_not_secret. reflexivity. }
  split; [|exact Hall].
  apply new_primaryKey in H. simpl in Hall. apply andb_prop in Hall as [Hhead _].
  unfold is_secret_packet, tag, KeyPacket.tag in Hhead.
  unfold Key.isPublic, KeyPacket.tag. unfold is_primary in H.
  destruct (KeyPacket.proto (Key.primaryKey key')); try discriminate H;
    try discriminate Hhead; reflexivity.
Qed.

Lemma toPublic_key_keyid (k : KeyPacket.t) :
  KeyPacket.getKeyId (toPublic_key k) = KeyPacket.getKeyId k.
Proof. unfold toPublic_key. destruct (KeyPacket.tag k); reflexivity. Qed.

Lemma toPublic_key_primary (k : KeyPacket.t) :
  is_primary k = true -> is_primary (toPublic_key k) = true.
Proof.
  unfold toPublic_key, is_primary, KeyPacket.tag.
  destruct (KeyPacket.proto k) eqn:Hp; simpl; try rewrite Hp; auto.
Qed.

Lemma toPublic_key_subkey (k : KeyPacket.t) :
  is_subkey k = true -> is_subkey (toPublic_key k) = true.
Proof.
  unfold toPublic_key, is_subkey, KeyPacket.tag.
  destruct (KeyPacket.proto k) eqn:Hp; simpl; try rewrite Hp; auto.
Qed.

Lemma toPublic_key_idempotent (k : KeyPacket.t) : toPublic_key (toPublic_key k) = toPublic_key k.
Proof.
  unfold toPublic_key, KeyPacket.tag.
  destruct (KeyPacket.proto k) eqn:Hp; simpl; try rewrite Hp; reflexivity.
Qed.

Lemma public_of_ok (key : Key.t) : key_ok key -> key_ok (public_of key).
Proof.
  intros (Hk & Hr & Hd & Hne & Hu & Hs). unfold key_ok, public_of. simpl.
  rewrite toPublic_key_keyid.
  split; [apply toPublic_key_primary, Hk|]. repeat (split; [assumption|]).
  apply Forall_map. eapply Forall_impl; [|exact Hs].
  intros sk (H1 & H2 & H3). repeat split; simpl; auto. apply toPublic_key_subkey, H1.
Qed.

Lemma map_toPublic_packet_sigs (l : list Signature.t) :
  map Key.toPublic_packet (map SigPkt l) = map SigPkt l.
Proof. rewrite map_map. reflexivity. Qed.

Lemma map_toPublic_packet_user (u : User.t) :
  map Key.toPublic_packet (User.toPacketlist u) = User.toPacketlist u.
Proof.
  unfold User.toPacketlist. rewrite !map_app, !map_toPublic_packet_sigs. f_equal.
  destruct (User.userPacket u) as [[x|x]|]; reflexivity.
Qed.

Lemma toPublic_packet_key (k : KeyPacket.t) :
  Key.toPublic_packet (KeyPkt k) = KeyPkt (toPublic_key k).
Proof. unfold Key.toPublic_packet, toPublic_key. destruct (KeyPacket.tag k); reflexivity. Qed.

Lemma map_toPublic_packet (key : Key.t) :
  map Key.toPublic_packet (Key.toPacketlist key) = Key.toPacketlist (public_of key).
Proof.
  unfold Key.toPacketlist, public_of. cbn [Key.primaryKey Key.revocationSignatures
    Key.directSignatures Key.users Key.subKeys map].
  rewrite toPublic_packet_key, !map_app, !map_toPublic_packet_sigs, !concat_map, !map_map.
  do 4 f_equal.
  - f_equal. apply map_ext. intros u. apply map_toPublic_packet_user.
  - f_equal. apply map_ext. intros sk. unfold SubKey.toPacketlist.
    cbn [map SubKey.subKey SubKey.bindingSignatures SubKey.revocationSignatures].
    rewrite toPublic_packet_key, map_app, !map_toPublic_packet_sigs. reflexivity.
Qed.

Lemma toPublic_public_of (key : Key.t) : key_ok key -> Key.toPublic key = Ok (public_of key).
Proof.
  intros Hok. unfold Key.toPublic. rewrite map_toPublic_packet.
  apply new_toPacketlist, public_of_ok, Hok.
Qed.

(** X22. On a key of the form [key_ok] (packet classes, signature types
    per container, self-certifications issued by the primary key and other
    certifications not, one of userId and userAttribute per user, at least
    one user), toPublic succeeds: the key it returns carries the same
    signatures and users, its subkeys carry the same signatures, the key
    IDs are the same, and toPublic maps it to itself. *)
Theorem toPublic_keeps_the_rest (key : Key.t) :
  key_ok key ->
  exists key',
    Key.toPublic key = Ok key'
    /\ Key.revocationSignatures key' = Key.revocationSignatures key
    /\ Key.directSignatures key' = Key.directSignatures key
    /\ Key.users key' = Key.users key
    /\ map SubKey.bindingSignatures (Key.subKeys key')
       = map SubKey.bindingSignatures (Key.subKeys key)
    /\ map SubKey.revocationSignatures (Key.subKeys key')
       = map SubKey.revocationSignatures (Key.subKeys key)
    /\ Key.getKeyIds key' = Key.getKeyIds key
    /\ Key.toPublic key' = Ok key'.
Proof.
  intros Hok. exists (public_of key).
  split; [apply toPublic_public_of, Hok|].
  split; [reflexivity|]. split; [reflexivity|]. split; [reflexivity|].
  split; [unfold public_of; simpl; rewrite map_map; reflexivity|].
  split; [unfold public_of; simpl; rewrite map_map; reflexivity|].
  split.
  - unfold Key.getKeyIds, Key.getKeyPackets, Key.getSubkeyPackets, public_of. simpl.
    rewrite toPublic_key_keyid. f_equal.
    induction (Key.subKeys key) as [|sk l IH]; simpl; [reflexivity|].
    rewrite toPublic_key_keyid, IH. reflexivity.
  - rewrite (toPublic_public_of _ (public_of_ok key Hok)). f_equal.
    unfold public_of. simpl. rewrite toPublic_key_idempotent, map_map. simpl.
    f_equal. apply map_ext. intros sk. rewrite toPublic_key_idempotent. reflexivity.
Qed.

(** ** Preference negotiation *)

Section Preferences.
Context {E : Externals}.

(** X23. The hash algorithm that getPreferredHashAlgo returns has a digest
    at least as long as that of the configured default. *)
Theorem getPreferredHashAlgo_at_least_default (key : KeyRef) (st st' : Store) (r : option Z) :
  getPreferredHashAlgo key st = Ok (r, st') ->
  getHashByteLength (Some config.prefer_hash_algorithm) <= getHashByteLength r.
Proof.
  intros H. unfold getPreferredHashAlgo in H.
  apply bind_inv in H as ([[hash_algo pref_algo] key'] & st1 & H1 & H).
  assert (Hhash : getHashByteLength (Some config.prefer_hash_algorithm)
                  <= getHashByteLength hash_algo).
  { destruct key as [k|p|pending].
    - apply bind_inv in H1 as (pu & st2 & _ & H1).
      destruct pu as [pu|];
        [|apply ret_inv in H1 as [H1 _]; injection H1 as -> _ _; lia].
      destruct (Signature.preferredHashAlgorithms (Key.selfCertification pu)) as [l|];
        apply ret_inv in H1 as [H1 _]; injection H1 as -> _ _; [|lia].
      destruct (Z.leb_spec (getHashByteLength (Some config.prefer_hash_algorithm))
                           (getHashByteLength (hd_error l))); lia.
    - apply ret_inv in H1 as [H1 _]. injection H1 as -> _ _. lia.
    - apply ret_inv in H1 as [H1 _]. injection H1 as -> _ _. lia. }
  apply bind_inv in H as (pref & st2 & _ & H). apply ret_inv in H as [-> _].
  destruct (Z.leb_spec (getHashByteLength hash_algo) (getHashByteLength pref)); lia.
Qed.

Lemma parseInt_propertyName (n : Z) : parseInt (propertyName n) = Some n.
Proof.
  unfold parseInt, propertyName.
  rewrite NilZero.isi.
  - simpl. rewrite DecimalZ.of_to. reflexivity.
  - intros Hd. pose proof (DecimalZ.of_to n) as Hn. rewrite Hd in Hn. simpl in Hn. subst n.
    discriminate Hd.
  - intros Hd. pose proof (DecimalZ.of_to n) as Hn. rewrite Hd in Hn. simpl in Hn. subst n.
    discriminate Hd.
Qed.

Lemma bump_keyed (a index : Z) (prioMap : list (Z * entry)) :
  keyed prioMap -> keyed (bump a index prioMap).
Proof.
  unfold keyed. induction 1 as [|[k e] l Hk Hl IH]; simpl.
  - constructor; [reflexivity | constructor].
  - destruct (a =? k); [constructor; [exact Hk | exact Hl]|].
    destruct (a <? k).
    + constructor; [reflexivity|]. constructor; [exact Hk | exact Hl].
    + constructor; [exact Hk | exact IH].
Qed.

Lemma bump_all_keyed (algos : list Z) :
  forall index prioMap, keyed prioMap -> keyed (bump_all algos index prioMap).
Proof.
  induction algos as [|a l IH]; intros index prioMap H; simpl; [exact H|].
  apply IH, bump_keyed, H.
Qed.

Lemma prioMap_of_keyed (keys : list Key.t) :
  forall prioMap st r st',
    keyed prioMap -> prioMap_of keys prioMap st = Ok (r, st') -> keyed r.
Proof.
  induction keys as [|k l IH]; intros prioMap st r st' Hk H; simpl in H.
  - apply ret_inv in H as [-> _]. exact Hk.
  - apply bind_inv in H as (pu & st1 & _ & H).
    destruct pu as [pu|]; [|eapply IH; eassumption].
    destruct (Signature.preferredSymmetricAlgorithms _) as [algos|]; [|eapply IH; eassumption].
    eapply IH; [|exact H]. apply bump_all_keyed, Hk.
Qed.

Lemma read_symmetric_propertyName (k : Z) (name : enums.symmetric.t) :
  read_symmetric (propertyName k) = Ok name -> enums_symmetric name = k.
Proof.
  unfold read_symmetric. rewrite parseInt_propertyName.
  destruct (find _ _) as [x|] eqn:Hfind; [|discriminate].
  intros H. injection H as <-. apply find_some in Hfind as [_ Hx]. apply Z.eqb_eq, Hx.
Qed.

Lemma best_known (nkeys : Z) (prioMap : list (Z * entry)) :
  keyed prioMap ->
  forall prefAlgo,
    best nkeys prioMap prefAlgo = prefAlgo
    \/ exists name, enums_symmetric name = algo (best nkeys prioMap prefAlgo).
Proof.
  induction 1 as [|[k e] l Hk Hl IH]; intros prefAlgo; simpl; [left; reflexivity|].
  simpl in Hk.
  destruct (read_symmetric (propertyName k)) as [name|err] eqn:Hread.
  - apply read_symmetric_propertyName in Hread.
    destruct (_ && _).
    + destruct (IH e) as [->|Hx]; [|right; exact Hx].
      right. exists name. congruence.
    + apply IH.
  - simpl. apply IH.
Qed.

(** X24. getPreferredSymAlgo returns the configured cipher or the code of
    an algorithm that [enums.symmetric] knows. *)
Theorem getPreferredSymAlgo_is_known (keys : list Key.t) (st st' : Store) (a : Z) :
  getPreferredSymAlgo keys st = Ok (a, st') ->
  a = config.encryption_cipher \/ exists name, enums_symmetric name = a.
Proof.
  intros H. unfold getPreferredSymAlgo in H.
  apply bind_inv in H as (prioMap & st1 & Hmap & H). apply ret_inv in H as [-> _].
  apply prioMap_of_keyed in Hmap; [|constructor].
  destruct (best_known (Z.of_nat (List.length keys)) prioMap Hmap
                       (mkEntry 0 0 config.encryption_cipher)) as [->|Hx];
    [left; reflexivity | right; exact Hx].
Qed.

End Preferences.

(** ** The expiration time of a subkey *)

Lemma later_trans (e c h : Expiration) :
  SubKey.later c h = true -> SubKey.later e h = false -> SubKey.later e c = false.
Proof.
  destruct e, c, h; simpl; try discriminate; try reflexivity; intros H1 H2;
    apply Z.ltb_lt in H1; apply Z.ltb_ge in H2; apply Z.ltb_ge; lia.
Qed.

Lemma later_irrefl (e : Expiration) : SubKey.later e e = false.
Proof. destruct e; simpl; [apply Z.ltb_irrefl | reflexivity]. Qed.

Lemma getExpirationTime_from_greatest (this : SubKey.t) (l : list Signature.t) :
  forall h, exists h',
    SubKey.getExpirationTime_from this (Some h) l = Ok (Some h')
    /\ (h' = h \/ exists b, In b l /\ getExpirationTime (SubKey.subKey this) (Some b) = Ok h')
    /\ SubKey.later h h' = false
    /\ forall b e, In b l -> getExpirationTime (SubKey.subKey this) (Some b) = Ok e ->
                   SubKey.later e h' = false.
Proof.
  induction l as [|b l IH]; intros h; simpl.
  - exists h. split; [reflexivity|]. split; [left; reflexivity|].
    split; [apply later_irrefl | intros b e []].
  - destruct (getExpirationTime_Some (SubKey.subKey this) b) as [c Hc]. rewrite Hc.
    destruct (SubKey.later c h) eqn:Hlater.
    + destruct (IH c) as (h' & Hrun & Hfrom & Hle & Hall).
      exists h'. split; [exact Hrun|]. split; [|split].
      * right. destruct Hfrom as [->|(b' & Hb' & He)]; [exists b | exists b']; auto.
      * destruct (SubKey.later h h') eqn:Hhh'; [|reflexivity].
        assert (Hch : SubKey.later c h = false).
        { eapply later_trans; [exact Hhh' | exact Hle]. }
        congruence.
      * intros b' e [<-|Hb'] He; [|eapply Hall; eassumption].
        rewrite Hc in He. injection He as <-. exact Hle.
    + destruct (IH h) as (h' & Hrun & Hfrom & Hle & Hall).
      exists h'. split; [exact Hrun|]. split; [|split; [exact Hle|]].
      * destruct Hfrom as [->|(b' & Hb' & He)]; [left; reflexivity | right; exists b'; auto].
      * intros b' e [<-|Hb'] He; [|eapply Hall; eassumption].
        rewrite Hc in He. injection He as <-.
        destruct (SubKey.later c h') eqn:Hch'; [|reflexivity].
        assert (Hhc : SubKey.later h c = false).
        { eapply later_trans; [exact Hch' | exact Hle]. }
        destruct c, h, h'; simpl in *; try discriminate; try reflexivity.
        apply Z.ltb_lt in Hch'. apply Z.ltb_ge in Hle, Hlater. lia.
Qed.

(** X25. SubKey.getExpirationTime never throws. Without binding
    signatures it returns undefined; otherwise it returns the expiration
    time that one of the binding signatures gives the subkey, and none of
    them gives a later one. *)
Theorem SubKey_getExpirationTime_greatest (this : SubKey.t) :
  exists r,
    SubKey.getExpirationTime this = Ok r
    /\ match r with
       | None => SubKey.bindingSignatures this = []
       | Some h =>
           (exists b, In b (SubKey.bindingSignatures this)
                      /\ getExpirationTime (SubKey.subKey this) (Some b) = Ok h)
           /\ forall b e, In b (SubKey.bindingSignatures this) ->
                          getExpirationTime (SubKey.subKey this) (Some b) = Ok e ->
                          SubKey.later e h = false
       end.
Proof.
  unfold SubKey.getExpirationTime.
  destruct (SubKey.bindingSignatures this) as [|b l]; [exists None; split; reflexivity|].
  simpl. destruct (getExpirationTime_Some (SubKey.subKey this) b) as [c Hc]. rewrite Hc.
  destruct (getExpirationTime_from_greatest this l c) as (h' & Hrun & Hfrom & Hle & Hall).
  exists (Some h'). split; [exact Hrun|]. split.
  - destruct Hfrom as [->|(b' & Hb' & He)]; [exists b | exists b']; auto.
  - intros b' e [<-|Hb'] He; [|eapply Hall; eassumption].
    rewrite Hc in He. injection He as <-. exact Hle.
Qed.

(** ** Key parameters *)

(** X26. [get] of curves.js returns a Curve for the six curves of the
    table that have a key type, with the OID and the hash of the table, and
    [generate] returns a key on them; for them getPreferredHashAlgo of the
    curve is defined. For the three brainpool curves both throw 'Unknown
    elliptic key type;', and getPreferredHashAlgo returns undefined. *)
Theorem curves_get_and_generate {E : Externals} (genKeyPair : curves.Curve -> Z * Z)
        (name : enums.curve.t) :
  if is_brainpool name then
    curves.get (Some name) = inl curves.UnknownEllipticKeyType
    /\ curves.generate genKeyPair (Some name) = inl curves.UnknownEllipticKeyType
    /\ curves.getPreferredHashAlgo (Some name) = Ok None
  else
    exists c h,
      curves.get (Some name) = inr c
      /\ curves.c_name c = name
      /\ curves.c_oid c = curves.oid name
      /\ curves.c_hash c = Some h
      /\ curves.generate genKeyPair (Some name)
         = inr (curves.mkKeyObject (curves.oid name) (fst (genKeyPair c))
                                   (snd (genKeyPair c)) (Some h) (curves.c_cipher c))
      /\ curves.getPreferredHashAlgo (Some name) = Ok (Some (enums_hash h)).
Proof.
  destruct name; unfold curves.generate; simpl;
    repeat first [ split; [reflexivity|] | reflexivity | eexists ].
Qed.

(** X27. No two curves of the table have the same OID. *)
Theorem curves_oid_injective (a b : enums.curve.t) : curves.oid a = curves.oid b -> a = b.
Proof. destruct a, b; intros H; try reflexivity; discriminate H. Qed.

Section GenerateParams.
Variable rsa_generate : Z -> crypto.rsaKeyObject.
Variable genKeyPair : curves.Curve -> Z * Z.

(** What [generate] of curves.js returns on a curve: the OID of the
    curve, the key pair of the generator, and the hash and the cipher of
    the curve's entry in the table. *)
Lemma curves_generate_inv (curve : option enums.curve.t) (ko : curves.keyObject) :
  curves.generate genKeyPair curve = inr ko ->
  exists name c,
    curve = Some name
    /\ curves.get curve = inr c
    /\ ko = curves.mkKeyObject (curves.oid name) (fst (genKeyPair c)) (snd (genKeyPair c))
                               (curves.hash (curves.curves name))
                               (curves.cipher (curves.curves name)).
Proof.
  unfold curves.generate. destruct curve as [name|]; simpl; [|discriminate].
  destruct (curves.new_Curve name (curves.curves name)) as [e|c] eqn:Hc; [discriminate|].
  intros H. injection H as <-. exists name, c.
  split; [reflexivity|]. split; [reflexivity|].
  unfold curves.new_Curve in Hc.
  destruct (curves.keyType (curves.curves name)) as [[]|]; try discriminate;
    injection Hc as <-; reflexivity.
Qed.

(** X28. The parameters that generateParams returns are those of the
    public key followed by those of the private key, and each one carries a
    value of its class; it returns them only for the RSA algorithms, ECDSA,
    EdDSA and ECDH. For the RSA algorithms they are the six MPIs n, e, d,
    p, q, u of the key that [rsa.generate(bits)] gives. For the others
    [curve] names a curve of the table that has a key type, and they are
    the OID of that curve, the MPI Q of the generated key pair, for ECDH
    the KDF parameters with the hash and the cipher of the curve's entry in
    the table, and the MPI d of the key pair. *)
Theorem generateParams_well_typed (algo : string) (bits : Z) (curve : option enums.curve.t)
        (ps : list crypto.param) :
  crypto.generateParams rsa_generate genKeyPair algo bits curve = crypto.Returns ps ->
  Forall well_typed ps
  /\ (exists pub priv,
         crypto.getPubKeyParamTypes algo = crypto.Returns pub
         /\ crypto.getPrivKeyParamTypes algo = crypto.Returns priv
         /\ map crypto.p_type ps = pub ++ priv)
  /\ crypto.among algo ["rsa_encrypt"; "rsa_encrypt_sign"; "rsa_sign"; "ecdsa"; "eddsa"; "ecdh"]%string
     = true
  /\ (if crypto.among algo ["rsa_encrypt"; "rsa_encrypt_sign"; "rsa_sign"]%string then
        ps = map (fun n => crypto.mkParam crypto.type_mpi (Some (crypto.BigInteger n)))
                 [crypto.k_n (rsa_generate bits); crypto.k_ee (rsa_generate bits);
                  crypto.k_d (rsa_generate bits); crypto.k_p (rsa_generate bits);
                  crypto.k_q (rsa_generate bits); crypto.k_u (rsa_generate bits)]
      else
        exists name c,
          curve = Some name
          /\ curves.get curve = inr c
          /\ ps = crypto.mkParam crypto.type_oid (Some (crypto.Oid (curves.oid name)))
                  :: crypto.mkParam crypto.type_mpi
                                    (Some (crypto.BigInteger (fst (genKeyPair c))))
                  :: (if crypto.among algo ["ecdh"]%string
                      then [crypto.mkParam crypto.type_kdf_params
                              (Some (crypto.HashCipher (curves.hash (curves.curves name))
                                                       (curves.cipher (curves.curves name))))]
                      else [])
                  ++ [crypto.mkParam crypto.type_mpi
                                     (Some (crypto.BigInteger (snd (genKeyPair c))))]).
Proof.
  unfold crypto.generateParams, crypto.getPubKeyParamTypes, crypto.getPrivKeyParamTypes,
    crypto.among.
  cbn [existsb].
  assert (Hcase : In algo ["rsa_encrypt"; "rsa_encrypt_sign"; "rsa_sign"; "elgamal"; "dsa";
                           "ecdh"; "ecdsa"; "eddsa"]%string
                  \/ (String.eqb algo "rsa_encrypt" = false
                      /\ String.eqb algo "rsa_encrypt_sign" = false
                      /\ String.eqb algo "rsa_sign" = false
                      /\ String.eqb algo "elgamal" = false
                      /\ String.eqb algo "dsa" = false
                      /\ String.eqb algo "ecdh" = false
                      /\ String.eqb algo "ecdsa" = false
                      /\ String.eqb algo "eddsa" = false)).
  { simpl.
    destruct (String.eqb_spec algo "rsa_encrypt"); [auto|].
    destruct (String.eqb_spec algo "rsa_encrypt_sign"); [auto 10|].
    destruct (String.eqb_spec algo "rsa_sign"); [auto 10|].
    destruct (String.eqb_spec algo "elgamal"); [auto 10|].
    destruct (String.eqb_spec algo "dsa"); [auto 10|].
    destruct (String.eqb_spec algo "ecdh"); [auto 10|].
    destruct (String.eqb_spec algo "ecdsa"); [auto 10|].
    destruct (String.eqb_spec algo "eddsa"); [auto 15|].
    right. repeat split; reflexivity. }
  destruct Hcase as [Hin|(H1 & H2 & H3 & H4 & H5 & H6 & H7 & H8)].
  - simpl in Hin.
    destruct Hin as [<-|[<-|[<-|[<-|[<-|[<-|[<-|[<-|[]]]]]]]]]; cbn;
      try discriminate;
      try (destruct (curves.generate genKeyPair curve) as [[|]|ko] eqn:Hgen;
           try discriminate;
           destruct (curves_generate_inv _ _ Hgen) as (name & c & -> & Hget & ->));
      intros Hrun; injection Hrun as <-;
      (split; [repeat constructor
              | split; [eexists _, _; repeat split
                       | split; [reflexivity|]]]);
      first [ reflexivity
            | exists name, c; split; [reflexivity|]; split; [exact Hget | reflexivity] ].
  - rewrite H1, H2, H3, H4, H5, H6, H7, H8. cbn. discriminate.
Qed.

End GenerateParams.

(** X29. A plan of key generation has a primary key of type RSA, ECDSA or
    EdDSA and a subkey of type RSA or ECDH; the primary key is never on
    curve25519 and the subkey never on ed25519, the one is on ed25519
    exactly when the other is on curve25519, and both are on the same curve
    otherwise; without a curve, the number of bits is given. *)
Theorem generate_plan (o : keygen.options) (p : keygen.plan) :
  keygen.generate o = inr p ->
  In (keygen.plan_keyType p)
     [enums.publicKey.rsa_encrypt_sign; enums.publicKey.ecdsa; enums.publicKey.eddsa]
  /\ In (keygen.plan_subkeyType p) [enums.publicKey.rsa_encrypt_sign; enums.publicKey.ecdh]
  /\ keygen.plan_keyCurve p <> Some enums.curve.curve25519
  /\ keygen.plan_subkeyCurve p <> Some enums.curve.ed25519
  /\ (keygen.plan_keyCurve p = Some enums.curve.ed25519
      <-> keygen.plan_subkeyCurve p = Some enums.curve.curve25519)
  /\ (keygen.plan_keyCurve p <> Some enums.curve.ed25519 ->
      keygen.plan_subkeyCurve p = keygen.plan_keyCurve p)
  /\ (keygen.curve o = None ->
      keygen.plan_keyCurve p = None /\ keygen.plan_numBits p <> None).
Proof.
  unfold keygen.generate. intros H.
  destruct (keygen.curve o) as [[c|]|] eqn:Hcurve; [| discriminate H |].
  - destruct (keygen.keyType o) as [kt|], (keygen.subkeyType o) as [st|];
      try destruct kt; try destruct st; destruct c; simpl in H; try discriminate H;
      injection H as <-; simpl;
      repeat split; try discriminate; try tauto; try (intros H0; discriminate H0);
      try (intros H0; exfalso; apply H0; reflexivity).
  - destruct (keygen.numBits o) as [n|] eqn:Hbits; [|discriminate H].
    destruct (keygen.keyType o) as [kt|], (keygen.subkeyType o) as [st|];
      try destruct kt; try destruct st; simpl in H; try discriminate H;
      injection H as <-; simpl; rewrite ?Hbits;
      repeat split; try discriminate; try tauto; try (intros H0; discriminate H0).
Qed.

(** ** Instances of the further theorems on the sample keys *)

Section FurtherInstances.
#[local] Existing Instance reference.
Import sample.

Lemma reference_valid_is_distinct : valid_is_distinct.
Proof. intros status H. destruct status; try discriminate H. reflexivity. Defined.

Lemma key_full_ok : key_ok key_full.
Proof.
  unfold key_ok, key_full. simpl.
  split; [reflexivity|]. split; [repeat constructor|].
  split; [repeat constructor; left; reflexivity|].
  split; [discriminate|]. split.
  - constructor; [|constructor; [|constructor]].
    + split; [split; [discriminate | intros H; exfalso; apply H; reflexivity]|].
      simpl. repeat split; repeat constructor.
    + split; [split; [discriminate | reflexivity]|].
      simpl. repeat split; constructor.
  - constructor; [|constructor]. repeat split; repeat constructor.
Defined.

Lemma key_two_certs_ok : key_ok key_two_certs.
Proof.
  unfold key_ok, key_two_certs. simpl.
  split; [reflexivity|]. split; [constructor|]. split; [constructor|].
  split; [discriminate|]. split; [|constructor].
  constructor; [|constructor].
  split; [split; [discriminate | intros H; exfalso; apply H; reflexivity]|].
  simpl. repeat split; repeat constructor.
Defined.

Lemma key_secret_ok : key_ok key_secret.
Proof.
  unfold key_ok, key_secret. simpl.
  split; [reflexivity|]. split; [constructor|]. split; [constructor|].
  split; [discriminate|]. split.
  - constructor; [|constructor].
    split; [split; [discriminate | intros H; exfalso; apply H; reflexivity]|].
    simpl. repeat split; repeat constructor.
  - constructor; [|constructor]. repeat split; repeat constructor.
Defined.

(** A revoked key is reported as revoked at a date before the revocation
    signature was made. *)
Lemma verifyPrimaryKey_revoked_witness :
  In revocation_good (Key.revocationSignatures key_revoked_new)
  /\ sig_verify (Key.primaryKey key_revoked_new)
                {| Data.key := Some (Key.primaryKey key_revoked_new); Data.userid := None;
                   Data.bind := None |} revocation_good = true
  /\ exists st', Key.verifyPrimaryKey key_revoked_new (Some 0) fresh
                 = Ok (enums.keyStatus.revoked, st').
Proof.
  split; [left; reflexivity|]. split; [reflexivity|].
  apply (verifyPrimaryKey_revoked key_revoked_new (Some 0) revocation_good fresh);
    [left; reflexivity | right; reflexivity].
Defined.

Lemma getPrimaryUser_returns_certified_user_witness :
  Key.getPrimaryUser key_two_certs (Some now) fresh
  = Ok (Some (Key.mkPrimaryUser 0 user_alice cert_early),
        exec (Key.getPrimaryUser key_two_certs (Some now)) fresh)
  /\ nth_error (Key.users key_two_certs) 0 = Some user_alice
  /\ User.userId user_alice <> None
  /\ In cert_early (User.selfCertifications user_alice)
  /\ verified (exec (Key.getPrimaryUser key_two_certs (Some now)) fresh
                    (Signature.id cert_early)) = true
  /\ sig_isExpired cert_early (Some now) = false.
Proof.
  assert (Hrun : Key.getPrimaryUser key_two_certs (Some now) fresh
                 = Ok (Some (Key.mkPrimaryUser 0 user_alice cert_early),
                       exec (Key.getPrimaryUser key_two_certs (Some now)) fresh)).
  { apply run_eval_exec. vm_compute. reflexivity. }
  split; [exact Hrun|].
  exact (getPrimaryUser_returns_certified_user key_two_certs (Some now) fresh _ _ Hrun).
Defined.

Lemma attribute_user_invalidates_key_witness :
  In (User.mk None (Some photo) [] [] []) (Key.users key_attribute_first)
  /\ (exists st', Key.getPrimaryUser key_attribute_first (Some now) fresh = Ok (None, st'))
  /\ exists status st',
      Key.verifyPrimaryKey key_attribute_first (Some now) fresh = Ok (status, st')
      /\ (status = enums.keyStatus.revoked \/ status = enums.keyStatus.no_self_cert
          \/ status = enums.keyStatus.invalid).
Proof.
  split; [left; reflexivity|].
  apply (attribute_user_invalidates_key key_attribute_first (Some now)
           (User.mk None (Some photo) [] [] []) fresh); [left; reflexivity | reflexivity].
Defined.

Lemma SubKey_verify_valid_witness :
  SubKey.verify (subkey_with [binding_200]) primary (Some now) fresh
  = Ok (enums.keyStatus.valid,
        exec (SubKey.verify (subkey_with [binding_200]) primary (Some now)) fresh)
  /\ (exists b, In b [binding_200]
                /\ verified (exec (SubKey.verify (subkey_with [binding_200]) primary
                                                 (Some now)) fresh (Signature.id b)) = true
                /\ sig_isExpired b (Some now) = false)
  /\ (KeyPacket.version subkey = 3 -> isDataExpired subkey None (Some now) = Ok false).
Proof.
  assert (Hrun : SubKey.verify (subkey_with [binding_200]) primary (Some now) fresh
                 = Ok (enums.keyStatus.valid,
                       exec (SubKey.verify (subkey_with [binding_200]) primary (Some now))
                            fresh)).
  { apply run_eval_exec. vm_compute. reflexivity. }
  split; [exact Hrun|].
  exact (SubKey_verify_valid (subkey_with [binding_200]) primary (Some now) fresh _
                             reference_valid_is_distinct Hrun).
Defined.

Lemma User_verify_valid_witness :
  User.verify user_alice primary fresh
  = Ok (enums.keyStatus.valid, exec (User.verify user_alice primary) fresh)
  /\ exists c, In c (User.selfCertifications user_alice)
               /\ verified (exec (User.verify user_alice primary) fresh (Signature.id c)) = true
               /\ sig_isExpired c (Some now) = false.
Proof.
  assert (Hrun : User.verify user_alice primary fresh
                 = Ok (enums.keyStatus.valid, exec (User.verify user_alice primary) fresh)).
  { apply run_eval_exec. vm_compute. reflexivity. }
  split; [exact Hrun|].
  exact (User_verify_valid user_alice primary fresh _ reference_valid_is_distinct Hrun).
Defined.

Lemma getSigningKeyPacket_is_governed_witness :
  Key.getSigningKeyPacket key_two_certs None (Some now) fresh
  = Ok (Some primary, exec (Key.getSigningKeyPacket key_two_certs None (Some now)) fresh)
  /\ Key.matches None primary = true
  /\ exists s, governs key_two_certs primary s
               /\ verified (exec (Key.getSigningKeyPacket key_two_certs None (Some now)) fresh
                                 (Signature.id s)) = true
               /\ sig_isExpired s (Some now) = false
               /\ isDataExpired primary (Some s) (Some now) = Ok false
               /\ keyFlags_allow s [keyFlags_sign_data] = true.
Proof.
  assert (Hrun : Key.getSigningKeyPacket key_two_certs None (Some now) fresh
                 = Ok (Some primary,
                       exec (Key.getSigningKeyPacket key_two_certs None (Some now)) fresh)).
  { apply run_eval_exec. vm_compute. reflexivity. }
  split; [exact Hrun|].
  exact (getSigningKeyPacket_is_governed key_two_certs None (Some now) fresh _ primary Hrun).
Defined.

Lemma getEncryptionKeyPacket_is_governed_witness :
  Key.getEncryptionKeyPacket key_two_certs None (Some now) fresh
  = Ok (Some primary, exec (Key.getEncryptionKeyPacket key_two_certs None (Some now)) fresh)
  /\ Key.matches None primary = true
  /\ exists s, governs key_two_certs primary s
               /\ verified (exec (Key.getEncryptionKeyPacket key_two_certs None (Some now))
                                 fresh (Signature.id s)) = true
               /\ sig_isExpired s (Some now) = false
               /\ isDataExpired primary (Some s) (Some now) = Ok false
               /\ keyFlags_allow s [keyFlags_encrypt_communication; keyFlags_encrypt_storage]
                  = true.
Proof.
  assert (Hrun : Key.getEncryptionKeyPacket key_two_certs None (Some now) fresh
                 = Ok (Some primary,
                       exec (Key.getEncryptionKeyPacket key_two_certs None (Some now)) fresh)).
  { apply run_eval_exec. vm_compute. reflexivity. }
  split; [exact Hrun|].
  exact (getEncryptionKeyPacket_is_governed key_two_certs None (Some now) fresh _ primary Hrun).
Defined.


Lemma update_keeps_destination_witness :
  Key.update key_revoked_old key_revoked_new fresh
  = Ok (Key.mk primary [revocation_old; revocation_good] [] [user_alice] [],
        exec (Key.update key_revoked_old key_revoked_new) fresh)
  /\ prefix (Key.revocationSignatures key_revoked_old) [revocation_old; revocation_good]
  /\ exists us added,
      [user_alice] = us ++ added
      /\ Forall2 user_extends (Key.users key_revoked_old) us
      /\ incl added (Key.users key_revoked_new).
Proof.
  assert (Hrun : Key.update key_revoked_old key_revoked_new fresh
                 = Ok (Key.mk primary [revocation_old; revocation_good] [] [user_alice] [],
                       exec (Key.update key_revoked_old key_revoked_new) fresh)).
  { apply run_eval_exec. vm_compute. reflexivity. }
  split; [exact Hrun|].
  pose proof (update_keeps_destination key_revoked_old key_revoked_new _ fresh _ Hrun)
    as (_ & Hrevs & _ & Husers & _).
  split; [exact Hrevs | exact Husers].
Defined.

Lemma update_fingerprint_mismatch_witness :
  String.eqb (KeyPacket.getFingerprint (Key.primaryKey key_plain))
             (KeyPacket.getFingerprint (Key.primaryKey key_other)) = false
  /\ eval (Key.verifyPrimaryKey key_other (Some now)) fresh = Ok enums.keyStatus.valid
  /\ Key.update key_plain key_other fresh = Throw FingerprintMismatch
  /\ eval (Key.verifyPrimaryKey key_other_uncertified (Some now)) fresh
     = Ok enums.keyStatus.invalid
  /\ eval (Key.update key_plain key_other_uncertified) fresh = Ok key_plain.
Proof.
  assert (Hfp : String.eqb (KeyPacket.getFingerprint (Key.primaryKey key_plain))
                           (KeyPacket.getFingerprint (Key.primaryKey key_other)) = false)
    by reflexivity.
  assert (Hvalid : Key.verifyPrimaryKey key_other (Some now) fresh
                   = Ok (enums.keyStatus.valid,
                         exec (Key.verifyPrimaryKey key_other (Some now)) fresh)).
  { apply run_eval_exec. vm_compute. reflexivity. }
  assert (Hinvalid : Key.verifyPrimaryKey key_other_uncertified (Some now) fresh
                     = Ok (enums.keyStatus.invalid,
                           exec (Key.verifyPrimaryKey key_other_uncertified (Some now)) fresh)).
  { apply run_eval_exec. vm_compute. reflexivity. }
  destruct (update_fingerprint_mismatch key_plain key_other fresh Hfp)
    as (status & st1 & Hv & Hu).
  destruct (update_fingerprint_mismatch key_plain key_other_uncertified fresh Hfp)
    as (status' & st1' & Hv' & Hu').
  rewrite Hvalid in Hv. injection Hv as <- <-.
  rewrite Hinvalid in Hv'. injection Hv' as <- <-.
  split; [exact Hfp|]. split; [unfold eval; rewrite Hvalid; reflexivity|].
  split; [exact Hu|]. split; [unfold eval; rewrite Hinvalid; reflexivity|].
  unfold eval. rewrite Hu'. reflexivity.
Defined.

Lemma new_rebuilds_serialized_key_witness :
  key_ok key_full /\ Key.new (Key.toPacketlist key_full) = Ok key_full.
Proof.
  split; [exact key_full_ok|]. exact (new_rebuilds_serialized_key key_full key_full_ok).
Defined.

Lemma new_invents_no_packet_witness :
  Key.new packets = Ok key_full /\ incl (Key.toPacketlist key_full) packets.
Proof.
  assert (Hnew : Key.new packets = Ok key_full) by (vm_compute; reflexivity).
  split; [exact Hnew|]. exact (new_invents_no_packet packets key_full Hnew).
Defined.

Lemma new_keeps_subkeys_and_userids_witness :
  Key.new packets = Ok key_full
  /\ Key.getSubkeyPackets key_full None = subkey_packets packets
  /\ Key.getKeyIds key_full
     = map KeyPacket.getKeyId (Key.primaryKey key_full :: subkey_packets packets)
  /\ Key.getUserIds (fun s => s) key_full
     = map (fun u => Userid.userid u) (userid_packets packets).
Proof.
  assert (Hnew : Key.new packets = Ok key_full) by (vm_compute; reflexivity).
  split; [exact Hnew|].
  exact (new_keeps_subkeys_and_userids (fun s => s) packets key_full Hnew).
Defined.

Lemma read_serialized_keys_witness :
  [key_full; key_two_certs] <> []
  /\ Forall key_ok [key_full; key_two_certs]
  /\ read (Some (List.concat (map Key.toPacketlist [key_full; key_two_certs])))
     = {| keys := [key_full; key_two_certs]; err := None |}.
Proof.
  assert (Hne : [key_full; key_two_certs] <> []) by discriminate.
  assert (Hok : Forall key_ok [key_full; key_two_certs]).
  { constructor; [exact key_full_ok | constructor; [exact key_two_certs_ok | constructor]]. }
  split; [exact Hne|]. split; [exact Hok|].
  exact (read_serialized_keys [key_full; key_two_certs] Hne Hok).
Defined.

Lemma toPublic_leaves_no_secret_witness :
  Key.toPublic key_secret = Ok (Key.mk primary [] [] [user_alice] [subkey_with [binding_200]])
  /\ Key.isPublic (Key.mk primary [] [] [user_alice] [subkey_with [binding_200]]) = true
  /\ forallb (fun p => negb (is_secret_packet p))
             (Key.toPacketlist (Key.mk primary [] [] [user_alice] [subkey_with [binding_200]]))
     = true.
Proof.
  assert (Hrun : Key.toPublic key_secret
                 = Ok (Key.mk primary [] [] [user_alice] [subkey_with [binding_200]]))
    by (vm_compute; reflexivity).
  split; [exact Hrun|]. exact (toPublic_leaves_no_secret key_secret _ Hrun).
Defined.

Lemma toPublic_keeps_the_rest_witness :
  key_ok key_secret
  /\ exists key',
      Key.toPublic key_secret = Ok key'
      /\ Key.revocationSignatures key' = Key.revocationSignatures key_secret
      /\ Key.directSignatures key' = Key.directSignatures key_secret
      /\ Key.users key' = Key.users key_secret
      /\ map SubKey.bindingSignatures (Key.subKeys key')
         = map SubKey.bindingSignatures (Key.subKeys key_secret)
      /\ map SubKey.revocationSignatures (Key.subKeys key')
         = map SubKey.revocationSignatures (Key.subKeys key_secret)
      /\ Key.getKeyIds key' = Key.getKeyIds key_secret
      /\ Key.toPublic key' = Ok key'.
Proof.
  split; [exact key_secret_ok|]. exact (toPublic_keeps_the_rest key_secret key_secret_ok).
Defined.

Lemma getPreferredHashAlgo_at_least_default_witness :
  getPreferredHashAlgo (AKeyPacket ecc_primary) fresh
  = Ok (Some (enums_hash enums.hash.sha512),
        exec (getPreferredHashAlgo (AKeyPacket ecc_primary)) fresh)
  /\ getHashByteLength (Some config.prefer_hash_algorithm)
     <= getHashByteLength (Some (enums_hash enums.hash.sha512)).
Proof.
  assert (Hrun : getPreferredHashAlgo (AKeyPacket ecc_primary) fresh
                 = Ok (Some (enums_hash enums.hash.sha512),
                       exec (getPreferredHashAlgo (AKeyPacket ecc_primary)) fresh)).
  { apply run_eval_exec. vm_compute. reflexivity. }
  split; [exact Hrun|].
  exact (getPreferredHashAlgo_at_least_default (AKeyPacket ecc_primary) fresh _ _ Hrun).
Defined.

Lemma getPreferredSymAlgo_is_known_witness :
  getPreferredSymAlgo [key_prefers_plaintext] fresh
  = Ok (enums_symmetric enums.symmetric.plaintext,
        exec (getPreferredSymAlgo [key_prefers_plaintext]) fresh)
  /\ (enums_symmetric enums.symmetric.plaintext = config.encryption_cipher
      \/ exists name, enums_symmetric name = enums_symmetric enums.symmetric.plaintext).
Proof.
  assert (Hrun : getPreferredSymAlgo [key_prefers_plaintext] fresh
                 = Ok (enums_symmetric enums.symmetric.plaintext,
                       exec (getPreferredSymAlgo [key_prefers_plaintext]) fresh)).
  { apply run_eval_exec. vm_compute. reflexivity. }
  split; [exact Hrun|].
  exact (getPreferredSymAlgo_is_known [key_prefers_plaintext] fresh _ _ Hrun).
Defined.

Lemma curves_oid_injective_witness :
  curves.oid enums.curve.p256 = curves.oid enums.curve.p256
  /\ enums.curve.p256 = enums.curve.p256.
Proof.
  split; [reflexivity|].
  exact (curves_oid_injective enums.curve.p256 enums.curve.p256 eq_refl).
Defined.

Lemma generateParams_well_typed_witness :
  crypto.generateParams rsa_generate genKeyPair "ecdh" 0 (Some enums.curve.p256)
  = crypto.Returns
      [crypto.mkParam crypto.type_oid (Some (crypto.Oid (curves.oid enums.curve.p256)));
       crypto.mkParam crypto.type_mpi (Some (crypto.BigInteger 4));
       crypto.mkParam crypto.type_kdf_params
                      (Some (crypto.HashCipher (Some enums.hash.sha256)
                                               (Some enums.symmetric.aes128)));
       crypto.mkParam crypto.type_mpi (Some (crypto.BigInteger 2))]
  /\ Forall well_typed
            [crypto.mkParam crypto.type_oid (Some (crypto.Oid (curves.oid enums.curve.p256)));
             crypto.mkParam crypto.type_mpi (Some (crypto.BigInteger 4));
             crypto.mkParam crypto.type_kdf_params
                            (Some (crypto.HashCipher (Some enums.hash.sha256)
                                                     (Some enums.symmetric.aes128)));
             crypto.mkParam crypto.type_mpi (Some (crypto.BigInteger 2))].
Proof.
  assert (Hrun : crypto.generateParams rsa_generate genKeyPair "ecdh" 0 (Some enums.curve.p256)
                 = crypto.Returns
                     [crypto.mkParam crypto.type_oid
                                     (Some (crypto.Oid (curves.oid enums.curve.p256)));
                      crypto.mkParam crypto.type_mpi (Some (crypto.BigInteger 4));
                      crypto.mkParam crypto.type_kdf_params
                                     (Some (crypto.HashCipher (Some enums.hash.sha256)
                                                              (Some enums.symmetric.aes128)));
                      crypto.mkParam crypto.type_mpi (Some (crypto.BigInteger 2))])
    by reflexivity.
  split; [exact Hrun|].
  exact (proj1 (generateParams_well_typed rsa_generate genKeyPair "ecdh" 0
                  (Some enums.curve.p256) _ Hrun)).
Defined.

Lemma generate_plan_witness :
  keygen.generate options_curve25519
  = inr (keygen.mkPlan enums.publicKey.eddsa (Some enums.curve.ed25519)
                       enums.publicKey.ecdh (Some enums.curve.curve25519)
                       None ["alice <a@b>"%string] true)
  /\ Some enums.curve.ed25519 <> Some enums.curve.curve25519
  /\ Some enums.curve.curve25519 <> Some enums.curve.ed25519.
Proof.
  assert (Hrun : keygen.generate options_curve25519
                 = inr (keygen.mkPlan enums.publicKey.eddsa (Some enums.curve.ed25519)
                                      enums.publicKey.ecdh (Some enums.curve.curve25519)
                                      None ["alice <a@b>"%string] true)) by reflexivity.
  split; [exact Hrun|].
  pose proof (generate_plan options_curve25519 _ Hrun) as (_ & _ & H1 & H2 & _).
  split; [exact H1 | exact H2].
Defined.

End FurtherInstances.
